(** * The gnark constraint solver: value store, term evaluator, hint resolver,
      R1C solver and level chunking.

    Shallow embedding of [constraint/bls12-381/solver.go] (the [solver]) and
    of [constraint/bn254/solution.go] (the [solution]).

    Field elements [fr.Element] are the integers modulo the scalar-field
    modulus, taken from the Standard Library's [Zmod]; Go slices are lists
    indexed through a checked lookup that panics out of range; Go maps are
    [gmap]s; a Go [panic] and a returned [error] are distinct outcomes. *)

From Stdlib Require Import ZArith QArith Qround Zmod Lia Ascii Ring.
From stdpp Require Import base option list gmap strings pretty.

#[local] Open Scope Z_scope.

(** ** Go runtime conventions *)
Module Go.

(** The Go [error] values this code builds: [errors.New]/[fmt.Errorf]
    strings, and [*UnsatisfiedConstraintError] wrapping another error. *)
Inductive error : Type :=
| errorString (msg : string)
| UnsatisfiedConstraintError (Err : error) (CID : Z) (DebugInfo : option string).

(** Outcome of an expression that can only panic. *)
Inductive result (A : Type) : Type :=
| Ok (a : A)
| Panic (msg : string).
Arguments Ok {A} a.
Arguments Panic {A} msg.

(** Outcome of a method with a receiver of type [S] and a final [error]
    result: [Ret s a] is a normal return in state [s], [Err s e] is
    [return e] with [e] non-nil (the receiver keeps what was written to it
    before), [Crash] is a panic, [Timeout] is recursion cut off by the
    fuel of the model. *)
Inductive outcome (S A : Type) : Type :=
| Ret (s : S) (a : A)
| Err (s : S) (e : error)
| Crash (msg : string)
| Timeout.
Arguments Ret {S A} s a.
Arguments Err {S A} s e.
Arguments Crash {S A} msg.
Arguments Timeout {S A}.

Definition rbind {A B} (m : result A) (k : A → result B) : result B :=
  match m with
  | Ok a => k a
  | Panic msg => Panic msg
  end.

Definition obind {S A B} (m : outcome S A) (k : S → A → outcome S B) : outcome S B :=
  match m with
  | Ret s a => k s a
  | Err s e => Err s e
  | Crash msg => Crash msg
  | Timeout => Timeout
  end.

(** A panicking expression evaluated inside a method on state [s]. *)
Definition lift {S A} (s : S) (m : result A) : outcome S A :=
  match m with
  | Ok a => Ret s a
  | Panic msg => Crash msg
  end.

Definition index_out_of_range : string := "runtime error: index out of range".

(** [l[i]] for a Go [int] index. *)
Definition index {A} (l : list A) (i : Z) : result A :=
  if decide (0 ≤ i) then
    match l !! Z.to_nat i with
    | Some x => Ok x
    | None => Panic index_out_of_range
    end
  else Panic index_out_of_range.

(** [l[i] = x]. *)
Definition assign {A} (l : list A) (i : Z) (x : A) : result (list A) :=
  if decide (0 ≤ i ∧ i < Z.of_nat (length l)) then Ok (<[Z.to_nat i := x]> l)
  else Panic index_out_of_range.

(** [atomic.AddUint64(&x, d)]: addition on [uint64]. *)
Definition atomic_AddUint64 (x d : Z) : Z := (x + d) mod 2 ^ 64.

(** [a - b] on [uint32]. *)
Definition uint32_sub (a b : Z) : Z := (a - b) mod 2 ^ 32.

(** [l[lo:hi]] of a slice whose capacity is its length. *)
Definition slice {A} (l : list A) (lo hi : Z) : result (list A) :=
  if decide (0 ≤ lo ∧ lo ≤ hi ∧ hi ≤ Z.of_nat (length l))
  then Ok (take (Z.to_nat (hi - lo)) (drop (Z.to_nat lo) l))
  else Panic "runtime error: slice bounds out of range".

Definition newline : string := String "010"%char "".
Definition tab : string := String "009"%char "".

(** [make([]T, n)], filled with the zero value [x]. *)
Definition make {A} (n : Z) (x : A) : result (list A) :=
  if decide (0 ≤ n) then Ok (replicate (Z.to_nat n) x)
  else Panic "runtime error: makeslice: len out of range".

(** The content of [dst] after [copy(dst, src)]. *)
Definition copy {A} (dst src : list A) : list A :=
  let n := Nat.min (length dst) (length src) in
  take n src ++ drop n dst.

(** [int(x)] of a [uint64] on a 64-bit platform. *)
Definition int_of_uint64 (x : Z) : Z :=
  if decide (x < 2 ^ 63) then x else x - 2 ^ 64.

(** [fmt.Sprintf("%v", l)] of a [[]string]. *)
Definition format_strings (l : list string) : string :=
  "[" +:+ String.concat " " l +:+ "]".

End Go.
Export Go.

Declare Scope go_scope.
Delimit Scope go_scope with go.
Notation "'let!' x := m 'in' k" := (rbind m (fun x => k))
  (at level 10, x name, m at level 100, k at level 200,
   format "'[v' 'let!'  x  :=  m  'in' '/' k ']'") : go_scope.
Notation "'run!' ( s , x ) := m 'in' k" := (obind m (fun s x => k))
  (at level 10, s name, x name, m at level 100, k at level 200,
   format "'[v' 'run!'  ( s ,  x )  :=  m  'in' '/' k ']'") : go_scope.
#[local] Open Scope go_scope.

(** ** Package [constraint]: terms, linear expressions, constraints, hints *)
Module constraint.

(** The types of package [constraint] are declared outside the files at
    hand; the records below have the fields these files read, with the
    unsigned and signed integers of Go as non-negative and arbitrary [Z]. *)

(** [type Term struct { CID, VID uint32 }] *)
Record Term : Type := mkTerm { CID : Z; VID : Z }.

Definition CoeffID (t : Term) : Z := CID t.
Definition WireID (t : Term) : Z := VID t.

(** Modelled from the spec: the reserved coefficient ids, declared in
    package [constraint] outside the files at hand: "ids 0,1,2,3 are
    reserved fast paths for the literal values 0, 1, 2, and -1". *)
Definition CoeffIdZero : Z := 0.
Definition CoeffIdOne : Z := 1.
Definition CoeffIdTwo : Z := 2.
Definition CoeffIdMinusOne : Z := 3.

(** [Term.IsConstant], declared in package [constraint] outside the files
    at hand: the "constant" tag of a term is left as an interface. *)
Class ConstantTag : Type := IsConstant : Term → bool.

Definition LinearExpression : Type := list Term.

Record R1C : Type := mkR1C
  { L : LinearExpression; R : LinearExpression; O : LinearExpression }.

(** [HintMapping]: hint id, inputs, and the range [Start, End) of output
    wires (all [uint32]). *)
Record HintMapping : Type := mkHintMapping
  { HintID : Z;
    Inputs : list LinearExpression;
    OutputRange_Start : Z;
    OutputRange_End : Z }.

(** The older [Hint] of [bn254]: hint id, inputs, output wires. *)
Record Hint : Type := mkHint
  { ID : Z;
    Hint_Inputs : list LinearExpression;
    Wires : list Z }.

Record LogEntry : Type := mkLogEntry
  { Caller : string;
    Format : string;
    ToResolve : list LinearExpression;
    Stack : list Z }.

(** [constraint.SystemType]. *)
Inductive SystemType : Type := SystemUnknown | SystemR1CS | SystemSparseR1CS.

(** An unpacked instruction; of its fields the files at hand read
    [ConstraintOffset] and hand the rest to the blueprint. *)
Record Instruction : Type := mkInstruction
  { ConstraintOffset : Z; WireOffset : Z; Calldata : list Z }.

(** A packed instruction: the id of its blueprint, and what
    [pi.Unpack(&solver.System)] makes of it from the call data of the
    system, which a solve does not write. *)
Record PackedInstruction : Type := mkPackedInstruction
  { BlueprintID : Z; Unpack : Instruction }.

Record Location : Type := mkLocation { FunctionID : Z; Line : Z }.
Record Function : Type := mkFunction { Name : string; Filename : string }.
Record SymbolTable : Type := mkSymbolTable
  { Locations : list Location; Functions : list Function }.

End constraint.
Export constraint.

(** A hint function [func(q *big.Int, inputs, outputs []*big.Int) error]:
    from the modulus, the inputs and the initial content of the output
    buffer to the final content of the output buffer and the error. *)
Definition HintFunction : Type := Z → list Z → list Z → list Z * option error.

(** The output buffer after the call: the hint writes into the
    [nbOutputs] integers it is handed, it cannot resize the slice. *)
Definition callHint (f : HintFunction) (q : Z) (inputs : list Z) (nbOutputs : nat)
    : list Z * option error :=
  let '(outs, err) := f q inputs (replicate nbOutputs 0) in
  (resize nbOutputs 0 outs, err).

(** The loop over the hint dependencies of [newSolver] and [newSolution]:
    the names of the declared hints without a registered function, here in
    the order of the keys (Go ranges over the map in an unspecified order). *)
Definition missingHints (hintFunctions : gmap Z HintFunction)
    (hintsDependencies : gmap Z string) : list string :=
  (map_to_list (filter (λ kv, hintFunctions !! kv.1 = None) hintsDependencies)).*2.

(** Interfaces of the collaborators outside the repository: the decimal
    rendering of a field element and [fmt.Sprintf] on string arguments. *)
Class ElementString (q : Z) : Type := fr_String : Zmod q → string.
Class Formatter : Type := Sprintf : string → list string → string.

(** ** [constraint/bls12-381/solver.go] *)
Module bls12_381.

(** The fields of the embedded [*system] that the solver reads. *)
Record system (modulus : Z) : Type := mkSystem
  { Coefficients : list (Zmod modulus);
    MDebug : gmap Z Z;
    DebugInfo : list LogEntry;
    Symbols : SymbolTable;
    Levels : list (list Z) }.
Arguments mkSystem {modulus}.
Arguments Coefficients {modulus}.
Arguments MDebug {modulus}.
Arguments DebugInfo {modulus}.
Arguments Symbols {modulus}.
Arguments Levels {modulus}.

(** [type solver struct] *)
Record solver (modulus : Z) : Type := mkSolver
  { sys : system modulus;
    values : list (Zmod modulus);
    solved : list bool;
    nbSolved : Z;
    mHintsFunctions : gmap Z HintFunction;
    nbTasks : Z;
    a : list (Zmod modulus);
    b : list (Zmod modulus);
    c : list (Zmod modulus);
    q : Z }.
Arguments mkSolver {modulus}.
Arguments sys {modulus}.
Arguments values {modulus}.
Arguments solved {modulus}.
Arguments nbSolved {modulus}.
Arguments mHintsFunctions {modulus}.
Arguments nbTasks {modulus}.
Arguments a {modulus}.
Arguments b {modulus}.
Arguments c {modulus}.
Arguments q {modulus}.

Section Solver.
Context {modulus : Z} {tag : ConstantTag} {str : ElementString modulus}
  {fmt : Formatter}.

#[local] Abbreviation Element := (Zmod modulus).

(** The receiver after writes to [values], [solved] and [nbSolved]. *)
Definition with_store (s : solver modulus) (values' : list Element)
    (solved' : list bool) (nbSolved' : Z) : solver modulus :=
  mkSolver (sys s) values' solved' nbSolved' (mHintsFunctions s) (nbTasks s)
    (a s) (b s) (c s) (q s).

(** The receiver after writes through [&solver.a[cID]], [&solver.b[cID]]
    and [&solver.c[cID]]. *)
Definition with_abc (s : solver modulus) (cID : Z) (va vb vc : Element)
    : solver modulus :=
  mkSolver (sys s) (values s) (solved s) (nbSolved s) (mHintsFunctions s)
    (nbTasks s)
    (<[Z.to_nat cID := va]> (a s)) (<[Z.to_nat cID := vb]> (b s))
    (<[Z.to_nat cID := vc]> (c s)) (q s).

Definition set (s : solver modulus) (id : Z) (value : Element)
    : result (solver modulus) :=
  let! done := index (solved s) id in
  if done : bool then Panic "solving the same wire twice should never happen."
  else
    let! values' := assign (values s) id value in
    let! solved' := assign (solved s) id true in
    Ok (with_store s values' solved' (atomic_AddUint64 (nbSolved s) 1)).

(** computeTerm computes coeff*variable *)
Definition computeTerm (s : solver modulus) (t : Term) : result Element :=
  let cID := CoeffID t in
  let vID := WireID t in
  if IsConstant t then index (Coefficients (sys s)) cID
  else
    let! unsolved :=
      (if decide (cID ≠ 0)
       then let! sv := index (solved s) vID in Ok (negb sv)
       else Ok false) in
    if unsolved : bool then Panic "computing a term with an unsolved wire"
    else if decide (cID = CoeffIdZero) then Ok Zmod.zero
    else if decide (cID = CoeffIdOne) then index (values s) vID
    else if decide (cID = CoeffIdTwo) then
      let! v := index (values s) vID in Ok (Zmod.add v v)
    else if decide (cID = CoeffIdMinusOne) then
      let! v := index (values s) vID in Ok (Zmod.opp v)
    else
      let! k := index (Coefficients (sys s)) cID in
      let! v := index (values s) vID in
      Ok (Zmod.mul k v).

(** r += (t.coeff*t.value): the new content of [r]. *)
Definition accumulateInto (s : solver modulus) (t : Term) (r : Element)
    : result Element :=
  let cID := CoeffID t in
  let vID := WireID t in
  if IsConstant t then
    let! k := index (Coefficients (sys s)) cID in Ok (Zmod.add r k)
  else if decide (cID = CoeffIdZero) then Ok r
  else if decide (cID = CoeffIdOne) then
    let! v := index (values s) vID in Ok (Zmod.add r v)
  else if decide (cID = CoeffIdTwo) then
    let! v := index (values s) vID in Ok (Zmod.add r (Zmod.add v v))
  else if decide (cID = CoeffIdMinusOne) then
    let! v := index (values s) vID in Ok (Zmod.sub r v)
  else
    let! k := index (Coefficients (sys s)) cID in
    let! v := index (values s) vID in
    Ok (Zmod.add r (Zmod.mul k v)).

(** The inner loop of [solveWithHint] over the terms of one input. *)
Fixpoint evalInput (s : solver modulus) (le : LinearExpression) (v : Element)
    : result Element :=
  match le with
  | [] => Ok v
  | term :: rest =>
      let! v' :=
        (if IsConstant term
         then let! k := index (Coefficients (sys s)) (CoeffID term) in
              Ok (Zmod.add v k)
         else accumulateInto s term v) in
      evalInput s rest v'
  end.

(** The loop [for i := 0; i < nbInputs; i++] of [solveWithHint]. *)
Fixpoint evalInputs (s : solver modulus) (ins : list LinearExpression)
    : result (list Z) :=
  match ins with
  | [] => Ok []
  | le :: rest =>
      let! v := evalInput s le Zmod.zero in
      let! vs := evalInputs s rest in
      Ok (Zmod.to_Z v :: vs)
  end.

(** The loop [for i := range outputs] of [solveWithHint], from index [i]. *)
Fixpoint setOutputs (s : solver modulus) (start i : Z) (outputs : list Z)
    : result (solver modulus) :=
  match outputs with
  | [] => Ok s
  | o :: rest =>
      let! s' := set s (start + i) (Zmod.of_Z modulus o) in
      setOutputs s' start (i + 1) rest
  end.

(** solveWithHint executes a hint and assign the result to its defined
    outputs. *)
Definition solveWithHint (s : solver modulus) (h : HintMapping)
    : outcome (solver modulus) unit :=
  match mHintsFunctions s !! HintID h with
  | None => Err s (errorString "missing hint function")
  | Some f =>
      let nbOutputs := uint32_sub (OutputRange_End h) (OutputRange_Start h) in
      run! (s, inputs) := lift s (evalInputs s (Inputs h)) in
      let '(outputs, err) := callHint f (q s) inputs (Z.to_nat nbOutputs) in
      run! (s, s') := lift s (setOutputs s (OutputRange_Start h) 0 outputs) in
      match err with
      | None => Ret s' ()
      | Some e => Err s' e
      end
  end.

Definition unsolvedVariable : string := "<unsolved>".

(** The loop of [logValue] over the terms of [log.ToResolve[j]]; [None] is
    [missingValue]. *)
Fixpoint logTerms (s : solver modulus) (le : LinearExpression) (eval : Element)
    : result (option Element) :=
  match le with
  | [] => Ok (Some eval)
  | t :: rest =>
      let cID := CoeffID t in
      let vID := WireID t in
      if IsConstant t then
        let! k := index (Coefficients (sys s)) cID in
        logTerms s rest (Zmod.add eval k)
      else
        let! sv := index (solved s) vID in
        if negb sv then Ok None
        else
          let! tv := computeTerm s t in
          logTerms s rest (Zmod.add eval tv)
  end.

(** The loop of [logValue] over [log.ToResolve]. *)
Fixpoint logResolve (s : solver modulus) (les : list LinearExpression)
    : result (list string) :=
  match les with
  | [] => Ok []
  | le :: rest =>
      let! r := logTerms s le Zmod.zero in
      let! rs := logResolve s rest in
      Ok (match r with
          | None => unsolvedVariable
          | Some eval => fr_String eval
          end :: rs)
  end.

(** The loop of [logValue] over [log.Stack]: the content of [sbb]. *)
Fixpoint logStack (s : solver modulus) (stack : list Z) : result string :=
  match stack with
  | [] => Ok ""
  | lID :: rest =>
      let! location := index (Locations (Symbols (sys s))) lID in
      let! function := index (Functions (Symbols (sys s))) (FunctionID location) in
      let! sbb := logStack s rest in
      Ok (Name function +:+ newline +:+ tab +:+ Filename function +:+ ":"
          +:+ pretty (Line location) +:+ newline +:+ sbb)
  end.

Definition logValue (s : solver modulus) (log : LogEntry) : result string :=
  let! toResolve := logResolve s (ToResolve log) in
  let! toResolve :=
    (if decide (0 < length (Stack log))%nat
     then let! sbb := logStack s (Stack log) in Ok (toResolve ++ [sbb])
     else Ok toResolve) in
  Ok (Sprintf (Format log) toResolve).

(** divByCoeff sets res = res / t.Coeff *)
Definition divByCoeff (s : solver modulus) (res : Element) (cID : Z)
    : result Element :=
  if decide (cID = CoeffIdOne) then Ok res
  else if decide (cID = CoeffIdMinusOne) then Ok (Zmod.opp res)
  else if decide (cID = CoeffIdZero) then Panic "division by 0"
  else
    let! k := index (Coefficients (sys s)) cID in
    Ok (Zmod.mdiv res k).

(** [(r *UnsatisfiedConstraintError) Error()], and [Error()] of the plain
    errors. *)
Fixpoint Error (r : error) : string :=
  match r with
  | errorString msg => msg
  | UnsatisfiedConstraintError err cid debugInfo =>
      match debugInfo with
      | Some info =>
          "constraint #" +:+ pretty cid +:+ " is not satisfied: " +:+ info
      | None =>
          "constraint #" +:+ pretty cid +:+ " is not satisfied: " +:+ Error err
      end
  end.

Definition wrapErrWithDebugInfo (s : solver modulus) (cID : Z) (err : error)
    : result error :=
  let! debugInfo :=
    (match MDebug (sys s) !! cID with
     | Some dID =>
         let! entry := index (DebugInfo (sys s)) dID in
         let! str := logValue s entry in
         Ok (Some str)
     | None => Ok None
     end) in
  Ok (UnsatisfiedConstraintError err cID debugInfo).

(** The closure [processLExp] of [solveR1C]: [val] is the accumulator it is
    handed, [loc] and [termToCompute] the variables it captures. *)
Fixpoint processLExp (s : solver modulus) (l : LinearExpression) (val : Element)
    (locValue : Z) (loc : Z) (termToCompute : Term)
    : result (Element * Z * Term) :=
  match l with
  | [] => Ok (val, loc, termToCompute)
  | t :: rest =>
      let vID := WireID t in
      let! sv := index (solved s) vID in
      if sv : bool then
        let! val' := accumulateInto s t val in
        processLExp s rest val' locValue loc termToCompute
      else if decide (loc ≠ 0) then Panic "found more than one wire to instantiate"
      else processLExp s rest val locValue locValue t
  end.

(** [fmt.Errorf("%s ⋅ %s != %s", a.String(), b.String(), c.String())] *)
Definition mismatch (va vb vc : Element) : error :=
  errorString (fr_String va +:+ " ⋅ " +:+ fr_String vb +:+ " != " +:+ fr_String vc).

(** [return solver.wrapErrWithDebugInfo(cID, fmt.Errorf(...))] *)
Definition unsatisfied (s : solver modulus) (cID : Z) (va vb vc : Element)
    : outcome (solver modulus) unit :=
  run! (s, e) := lift s (wrapErrWithDebugInfo s cID (mismatch va vb vc)) in
  Err s e.

(** The [switch loc] of [solveR1C] on the accumulators: the new [a], [b],
    [c] and [wire], or [None] where a branch returns the unsatisfied
    constraint. *)
Definition solveLoc (loc : Z) (va vb vc : Element)
    : option (Element * Element * Element * Element) :=
  if decide (loc = 1) then
    if negb (Zmod.eqb vb Zmod.zero) then
      let wire := Zmod.sub (Zmod.mdiv vc vb) va in
      Some (Zmod.add va wire, vb, vc, wire)
    else if negb (Zmod.eqb (Zmod.mul va vb) vc) then None
    else Some (va, vb, vc, Zmod.zero)
  else if decide (loc = 2) then
    if negb (Zmod.eqb va Zmod.zero) then
      let wire := Zmod.sub (Zmod.mdiv vc va) vb in
      Some (va, Zmod.add vb wire, vc, wire)
    else if negb (Zmod.eqb (Zmod.mul va vb) vc) then None
    else Some (va, vb, vc, Zmod.zero)
  else if decide (loc = 3) then
    let wire := Zmod.sub (Zmod.mul va vb) vc in
    Some (va, vb, Zmod.add vc wire, wire)
  else Some (va, vb, vc, Zmod.zero).

(** solveR1C compute unsolved wires in the constraint, if any and set the
    solver accordingly *)
Definition solveR1C (s : solver modulus) (cID : Z) (r : R1C)
    : outcome (solver modulus) unit :=
  run! (s, a0) := lift s (index (a s) cID) in
  run! (s, b0) := lift s (index (b s) cID) in
  run! (s, c0) := lift s (index (c s) cID) in
  run! (s, pL) := lift s (processLExp s (L r) a0 1 0 (mkTerm 0 0)) in
  let '(va, loc, termToCompute) := pL in
  run! (s, pR) := lift s (processLExp s (R r) b0 2 loc termToCompute) in
  let '(vb, loc, termToCompute) := pR in
  run! (s, pO) := lift s (processLExp s (O r) c0 3 loc termToCompute) in
  let '(vc, loc, termToCompute) := pO in
  if decide (loc = 0) then
    if negb (Zmod.eqb (Zmod.mul va vb) vc)
    then unsatisfied (with_abc s cID va vb vc) cID va vb vc
    else Ret (with_abc s cID va vb vc) ()
  else
    let wID := WireID termToCompute in
    match solveLoc loc va vb vc with
    | None => unsatisfied (with_abc s cID va vb vc) cID va vb vc
    | Some (va, vb, vc, wire) =>
        let s := with_abc s cID va vb vc in
        run! (s, wire) := lift s (divByCoeff s wire (CID termToCompute)) in
        run! (s, s') := lift s (set s wID wire) in
        Ret s' ()
    end.

(** *** The work partition of [run] *)

Definition minWorkPerCPU : Q := 50 # 1.

(** [maxCPU := float64(len(level)) / minWorkPerCPU], in exact arithmetic. *)
Definition maxCPU (level : list Z) : Q :=
  Qdiv (inject_Z (Z.of_nat (length level))) minWorkPerCPU.

(** The loop [for i := 0; i < nbTasks; i++] of [run], with [n] iterations
    left: the slices pushed on [chTasks]. *)
Fixpoint pushTasks (level : list Z) (n : nat)
    (i nbIterationsPerCpus extraTasks extraTasksOffset : Z)
    : result (list (list Z)) :=
  match n with
  | 0%nat => Ok []
  | S n' =>
      let _start := i * nbIterationsPerCpus + extraTasksOffset in
      let _end := _start + nbIterationsPerCpus in
      let '(_end, extraTasks, extraTasksOffset) :=
        (if decide (extraTasks > 0)
         then (_end + 1, extraTasks - 1, extraTasksOffset + 1)
         else (_end, extraTasks, extraTasksOffset)) in
      let! task := slice level _start _end in
      let! tasks :=
        pushTasks level n' (i + 1) nbIterationsPerCpus extraTasks extraTasksOffset in
      Ok (task :: tasks)
  end.

(** The tasks of a level that is not run sequentially. *)
Definition levelTasks (s : solver modulus) (level : list Z)
    : result (list (list Z)) :=
  let nbTasks := nbTasks s in
  let maxTasks := Qceiling (maxCPU level) in
  let nbTasks := if decide (nbTasks > maxTasks) then maxTasks else nbTasks in
  if decide (nbTasks = 0) then Panic "runtime error: integer divide by zero"
  else
    let nbIterationsPerCpus := Z.quot (Z.of_nat (length level)) nbTasks in
    let '(nbIterationsPerCpus, nbTasks) :=
      (if decide (nbIterationsPerCpus < 1)
       then (1, Z.of_nat (length level))
       else (nbIterationsPerCpus, nbTasks)) in
    let extraTasks := Z.of_nat (length level) - nbTasks * nbIterationsPerCpus in
    pushTasks level (Z.to_nat nbTasks) 0 nbIterationsPerCpus extraTasks 0.

(** How [run] dispatches one level: [None] when the level is run
    sequentially in the calling goroutine, the pushed tasks otherwise. *)
Definition dispatch (s : solver modulus) (level : list Z)
    : result (option (list (list Z))) :=
  if Qle_bool (maxCPU level) 1 || (nbTasks s =? 1) then Ok None
  else let! tasks := levelTasks s level in Ok (Some tasks).

End Solver.

(** *** The solver as a [constraint.Solver], its construction and [run] *)

(** A blueprint, by the interfaces [processInstruction] asserts on it:
    [BlueprintR1C] ([DecompressR1C]), [BlueprintSolvable] ([Solve], which
    works on the solver through [constraint.Solver]) and [BlueprintHint]
    ([DecompressHint]). *)
Record Blueprint (modulus : Z) : Type := mkBlueprint
  { DecompressR1C : option (Instruction → R1C);
    Solve : option (solver modulus → Instruction → outcome (solver modulus) unit);
    DecompressHint : option (Instruction → HintMapping) }.
Arguments mkBlueprint {modulus}.
Arguments DecompressR1C {modulus}.
Arguments Solve {modulus}.
Arguments DecompressHint {modulus}.

(** The further fields of the embedded [constraint.System] that [newSolver],
    [Read], [processInstruction] and [run] read, with the results of
    [cs.GetNbConstraints()] and [cs.Field()]; a solve does not write them. *)
Record System (modulus : Z) : Type := mkHeader
  { Type_ : SystemType;
    Public : list string;
    Secret : list string;
    NbInternalVariables : Z;
    MHintsDependencies : gmap Z string;
    NbConstraints : Z;
    Field : Z;
    Instructions : list PackedInstruction;
    Blueprints : list (Blueprint modulus) }.
Arguments mkHeader {modulus}.
Arguments Type_ {modulus}.
Arguments Public {modulus}.
Arguments Secret {modulus}.
Arguments NbInternalVariables {modulus}.
Arguments MHintsDependencies {modulus}.
Arguments NbConstraints {modulus}.
Arguments Field {modulus}.
Arguments Instructions {modulus}.
Arguments Blueprints {modulus}.

(** What [newSolver] reads of the [csolver.Config] that [csolver.NewConfig]
    makes of the options. *)
Record Config : Type := mkConfig
  { HintFunctions : gmap Z HintFunction; NbTasks : Z }.

Section Interface.
Context {modulus : Z} {tag : ConstantTag} {str : ElementString modulus}
  {fmt : Formatter}.

#[local] Abbreviation Element := (Zmod modulus).

(** The loop [for i := range witness] of [newSolver], from index [i]. *)
Fixpoint markWitness (solved : list bool) (witnessOffset i : Z) (n : nat)
    : result (list bool) :=
  match n with
  | 0%nat => Ok solved
  | S n' =>
      let! solved' := assign solved (i + witnessOffset) true in
      markWitness solved' witnessOffset (i + 1) n'
  end.

(** [newSolver], from the configuration on: [config] is the result of
    [csolver.NewConfig] on the options (with the GKR hints added to them
    when the system has GKR information). *)
Definition newSolver (cs : system modulus) (hd : System modulus)
    (witness : list Element) (config : error + Config)
    : result (error + solver modulus) :=
  match config with
  | inl err => Ok (inl err)
  | inr opt =>
      let witnessOffset :=
        match Type_ hd with SystemR1CS => 1 | _ => 0 end in
      let nbWires :=
        Z.of_nat (length (Public hd)) + Z.of_nat (length (Secret hd))
        + NbInternalVariables hd in
      let expectedWitnessSize :=
        Z.of_nat (length (Public hd)) - witnessOffset
        + Z.of_nat (length (Secret hd)) in
      if decide (Z.of_nat (length witness) ≠ expectedWitnessSize) then
        Ok (inl (errorString
                   ("invalid witness size, got " +:+ pretty (Z.of_nat (length witness))
                    +:+ ", expected " +:+ pretty expectedWitnessSize)))
      else
        let hintFunctions := HintFunctions opt in
        let missing := missingHints hintFunctions (MHintsDependencies hd) in
        if decide (0 < length missing)%nat then
          Ok (inl (errorString
                     ("solver missing hint(s): " +:+ format_strings missing)))
        else
          let! values := make nbWires (Zmod.zero : Element) in
          let! solved := make nbWires false in
          let! solved :=
            (if decide (witnessOffset = 1) then assign solved 0 true
             else Ok solved) in
          let! values :=
            (if decide (witnessOffset = 1) then assign values 0 Zmod.one
             else Ok values) in
          let! dst := slice values witnessOffset (Z.of_nat (length values)) in
          let values := take (Z.to_nat witnessOffset) values ++ copy dst witness in
          let! solved := markWitness solved witnessOffset 0 (length witness) in
          let nbSolved :=
            (0 + (Z.of_nat (length witness) + witnessOffset)) mod 2 ^ 64 in
          let! abc :=
            (match Type_ hd with
             | SystemR1CS => make (NbConstraints hd) (Zmod.zero : Element)
             | _ => Ok []
             end) in
          Ok (inr (mkSolver cs values solved nbSolved hintFunctions (NbTasks opt)
                     abc abc abc (Field hd)))
  end.

(** Implement constraint.Solver; a [constraint.Element] holds the limbs of
    the field element it is copied from and is modelled by that element. *)
Definition GetValue (s : solver modulus) (cID vID : Z) : result Element :=
  computeTerm s (mkTerm cID vID).

Definition GetCoeff (s : solver modulus) (cID : Z) : result Element :=
  index (Coefficients (sys s)) cID.

Definition SetValue (s : solver modulus) (vID : Z) (f : Element)
    : result (solver modulus) :=
  set s vID f.

Definition IsSolved (s : solver modulus) (vID : Z) : result bool :=
  index (solved s) vID.

(** The loop [for k := 0; k < n; k++] of [Read], with [n] iterations left. *)
Fixpoint readTerms (s : solver modulus) (calldata : list Z) (n : nat) (j : Z)
    (r : Element) : result (Element * Z) :=
  match n with
  | 0%nat => Ok (r, j)
  | S n' =>
      let! cID := index calldata j in
      let! vID := index calldata (j + 1) in
      let! r' := accumulateInto s (mkTerm cID vID) r in
      readTerms s calldata n' (j + 2) r'
  end.

(** Read interprets input calldata as either a LinearExpression (if R1CS) or
    a Term (if Plonkish), evaluates it and return the result and the number
    of uint32 word read. *)
Definition Read (hd : System modulus) (s : solver modulus) (calldata : list Z)
    : result (Element * Z) :=
  match Type_ hd with
  | SystemSparseR1CS =>
      let! c0 := index calldata 0 in
      if decide (c0 ≠ 1) then Panic "invalid calldata"
      else
        let! c1 := index calldata 1 in
        let! c2 := index calldata 2 in
        let! v := GetValue s c1 c2 in
        Ok (v, 3)
  | _ =>
      let! n := index calldata 0 in
      readTerms s calldata (Z.to_nat n) 1 Zmod.zero
  end.

(** processInstruction decodes the instruction and execute blueprint-defined
    logic. *)
Definition processInstruction (hd : System modulus) (s : solver modulus)
    (pi : PackedInstruction) : outcome (solver modulus) unit :=
  run! (s, blueprint) := lift s (index (Blueprints hd) (BlueprintID pi)) in
  let inst := Unpack pi in
  let cID := ConstraintOffset inst in
  match (match Type_ hd with
         | SystemR1CS => DecompressR1C blueprint
         | _ => None
         end) with
  | Some decompress => solveR1C s cID (decompress inst)
  | None =>
      match Solve blueprint with
      | Some solve =>
          match solve s inst with
          | Err s err =>
              run! (s, e) := lift s (wrapErrWithDebugInfo s cID err) in
              Err s e
          | other => other
          end
      | None =>
          match DecompressHint blueprint with
          | Some decompress => solveWithHint s (decompress inst)
          | None => Ret s ()
          end
      end
  end.

(** The loop [for _, i := range level] of the sequential branch of [run]. *)
Fixpoint runLevel (hd : System modulus) (s : solver modulus) (level : list Z)
    : outcome (solver modulus) unit :=
  match level with
  | [] => Ret s ()
  | i :: rest =>
      run! (s, pi) := lift s (index (Instructions hd) i) in
      run! (s, _) := processInstruction hd s pi in
      runLevel hd s rest
  end.

(** The end of [run]: the check that all wires were instantiated. *)
Definition checkAllSolved (s : solver modulus) : outcome (solver modulus) unit :=
  if decide (int_of_uint64 (nbSolved s) ≠ Z.of_nat (length (values s)))
  then Err s (errorString "solver didn't assign a value to all wires")
  else Ret s ().

(** The loop of [run] over the levels. A level that [run] hands to the
    worker pool is outside this sequential model: the result is [None]. *)
Fixpoint runLevels (hd : System modulus) (s : solver modulus)
    (levels : list (list Z)) : option (outcome (solver modulus) unit) :=
  match levels with
  | [] => Some (checkAllSolved s)
  | level :: rest =>
      match dispatch s level with
      | Panic msg => Some (Crash msg)
      | Ok (Some _) => None
      | Ok None =>
          match runLevel hd s level with
          | Ret s' _ => runLevels hd s' rest
          | other => Some other
          end
      end
  end.

(** run runs the solver. it return an error if a constraint is not satisfied
    or if not all wires were instantiated. *)
Definition run (hd : System modulus) (s : solver modulus)
    : option (outcome (solver modulus) unit) :=
  if decide (nbTasks s < 0) then Some (Crash "makechan: size out of range")
  else runLevels hd s (Levels (sys s)).

End Interface.
End bls12_381.

(** ** [constraint/bn254/solution.go] *)
Module bn254.

(** [type solution struct] *)
Record solution (modulus : Z) : Type := mkSolution
  { values : list (Zmod modulus);
    coefficients : list (Zmod modulus);
    solved : list bool;
    nbSolved : Z;
    mHintsFunctions : gmap Z HintFunction;
    mHints : gmap Z Hint }.
Arguments mkSolution {modulus}.
Arguments values {modulus}.
Arguments coefficients {modulus}.
Arguments solved {modulus}.
Arguments nbSolved {modulus}.
Arguments mHintsFunctions {modulus}.
Arguments mHints {modulus}.

Section Solution.
Context {modulus : Z} {tag : ConstantTag}.

#[local] Abbreviation Element := (Zmod modulus).

(** The receiver after writes to [values], [solved] and [nbSolved]. *)
Definition with_store (s : solution modulus) (values' : list Element)
    (solved' : list bool) (nbSolved' : Z) : solution modulus :=
  mkSolution values' (coefficients s) solved' nbSolved' (mHintsFunctions s)
    (mHints s).

Definition set (s : solution modulus) (id : Z) (value : Element)
    : result (solution modulus) :=
  let! done := index (solved s) id in
  if done : bool then Panic "solving the same wire twice should never happen."
  else
    let! values' := assign (values s) id value in
    let! solved' := assign (solved s) id true in
    Ok (with_store s values' solved' (atomic_AddUint64 (nbSolved s) 1)).

Definition isValid (s : solution modulus) : bool :=
  nbSolved s =? Z.of_nat (length (values s)).

(** computeTerm computes coef*variable *)
Definition computeTerm (s : solution modulus) (t : Term) : result Element :=
  let cID := CoeffID t in
  let vID := WireID t in
  let! unsolved :=
    (if decide (cID ≠ 0)
     then let! sv := index (solved s) vID in Ok (negb sv)
     else Ok false) in
  if unsolved : bool then Panic "computing a term with an unsolved wire"
  else if decide (cID = CoeffIdZero) then Ok Zmod.zero
  else if decide (cID = CoeffIdOne) then index (values s) vID
  else if decide (cID = CoeffIdTwo) then
    let! v := index (values s) vID in Ok (Zmod.add v v)
  else if decide (cID = CoeffIdMinusOne) then
    let! v := index (values s) vID in Ok (Zmod.opp v)
  else
    let! k := index (coefficients s) cID in
    let! v := index (values s) vID in
    Ok (Zmod.mul k v).

(** r += (t.coeff*t.value): the new content of [r]. *)
Definition accumulateInto (s : solution modulus) (t : Term) (r : Element)
    : result Element :=
  let cID := CoeffID t in
  if IsConstant t then
    let! k := index (coefficients s) cID in Ok (Zmod.add r k)
  else
    let vID := WireID t in
    if decide (cID = CoeffIdZero) then Ok r
    else if decide (cID = CoeffIdOne) then
      let! v := index (values s) vID in Ok (Zmod.add r v)
    else if decide (cID = CoeffIdTwo) then
      let! v := index (values s) vID in Ok (Zmod.add r (Zmod.add v v))
    else if decide (cID = CoeffIdMinusOne) then
      let! v := index (values s) vID in Ok (Zmod.sub r v)
    else
      let! k := index (coefficients s) cID in
      let! v := index (values s) vID in
      Ok (Zmod.add r (Zmod.mul k v)).

(** The loop [for i := range outputs] of [solveWithHint], from index [i]. *)
Fixpoint setOutputs (s : solution modulus) (wires : list Z) (i : Z)
    (outputs : list Z) : result (solution modulus) :=
  match outputs with
  | [] => Ok s
  | o :: rest =>
      let! w := index wires i in
      let! s' := set s w (Zmod.of_Z modulus o) in
      setOutputs s' wires (i + 1) rest
  end.

Section Recursion.
(** The recursive call [s.solveWithHint(wID, h)]. *)
Variable solveWithHint : solution modulus → Z → Hint → outcome (solution modulus) unit.

(** The closure [recursiveSolve] of [solveWithHint]. *)
Definition recursiveSolve (s : solution modulus) (t : Term)
    : outcome (solution modulus) unit :=
  if IsConstant t then Ret s ()
  else
    let wID := WireID t in
    run! (s, sv) := lift s (index (solved s) wID) in
    if sv : bool then Ret s ()
    else
      match mHints s !! wID with
      | Some h => solveWithHint s wID h
      | None =>
          Crash "solver can't compute hint; one or more input wires are unsolved"
      end.

(** The inner loop of [solveWithHint] over the terms of one input. *)
Fixpoint evalInput (s : solution modulus) (le : LinearExpression) (v : Element)
    : outcome (solution modulus) Element :=
  match le with
  | [] => Ret s v
  | term :: rest =>
      run! (s, _) := recursiveSolve s term in
      run! (s, v') := lift s (accumulateInto s term v) in
      evalInput s rest v'
  end.

(** The loop [for i := 0; i < nbInputs; i++] of [solveWithHint]. *)
Fixpoint evalInputs (s : solution modulus) (ins : list LinearExpression)
    : outcome (solution modulus) (list Z) :=
  match ins with
  | [] => Ret s []
  | le :: rest =>
      run! (s, v) := evalInput s le Zmod.zero in
      run! (s, vs) := evalInputs s rest in
      Ret s (Zmod.to_Z v :: vs)
  end.

(** The body of [solveWithHint]. *)
Definition solveWithHint_body (s : solution modulus) (vID : Z) (h : Hint)
    : outcome (solution modulus) unit :=
  run! (s, sv) := lift s (index (solved s) vID) in
  if sv : bool then Ret s ()
  else
    match mHintsFunctions s !! ID h with
    | None => Err s (errorString "missing hint function")
    | Some f =>
        let nbOutputs := length (Wires h) in
        run! (s, inputs) := evalInputs s (Hint_Inputs h) in
        let '(outputs, err) := callHint f modulus inputs nbOutputs in
        run! (s, s') := lift s (setOutputs s (Wires h) 0 outputs) in
        match err with
        | None => Ret s' ()
        | Some e => Err s' e
        end
    end.
End Recursion.

(** solveHint compute solution.values[vID] using provided solver hint; the
    recursion through [recursiveSolve] is bounded by [fuel]. *)
Fixpoint solveWithHint (fuel : nat) (s : solution modulus) (vID : Z) (h : Hint)
    : outcome (solution modulus) unit :=
  match fuel with
  | 0%nat => Timeout
  | S fuel' => solveWithHint_body (solveWithHint fuel') s vID h
  end.

End Solution.

(** *** Construction and diagnostics of the solution *)
Section Diagnostics.
Context {modulus : Z} {tag : ConstantTag} {str : ElementString modulus}
  {fmt : Formatter}.

#[local] Abbreviation Element := (Zmod modulus).

Definition newSolution (nbWires : Z) (hintFunctions : gmap Z HintFunction)
    (hintsDependencies : gmap Z string) (mHints : gmap Z Hint)
    (coefficients : list Element)
    : result (solution modulus * option error) :=
  let! values := make nbWires (Zmod.zero : Element) in
  let! solved := make nbWires false in
  let s := mkSolution values coefficients solved 0 hintFunctions mHints in
  let missing := missingHints (mHintsFunctions s) hintsDependencies in
  if decide (0 < length missing)%nat then
    Ok (s, Some (errorString
                   ("solver missing hint(s): " +:+ format_strings missing)))
  else Ok (s, None).

Definition unsolvedVariable : string := "<unsolved>".

(** The loop of [logValue] over the terms of [log.ToResolve[j]]; [None] is
    [missingValue]. *)
Fixpoint logTerms (s : solution modulus) (le : LinearExpression) (eval : Element)
    : result (option Element) :=
  match le with
  | [] => Ok (Some eval)
  | t :: rest =>
      let cID := CoeffID t in
      let vID := WireID t in
      if IsConstant t then
        let! k := index (coefficients s) cID in
        logTerms s rest (Zmod.add eval k)
      else
        let! sv := index (solved s) vID in
        if negb sv then Ok None
        else
          let! tv := computeTerm s t in
          logTerms s rest (Zmod.add eval tv)
  end.

(** The loop of [logValue] over [log.ToResolve]. *)
Fixpoint logResolve (s : solution modulus) (les : list LinearExpression)
    : result (list string) :=
  match les with
  | [] => Ok []
  | le :: rest =>
      let! r := logTerms s le Zmod.zero in
      let! rs := logResolve s rest in
      Ok (match r with
          | None => unsolvedVariable
          | Some eval => fr_String eval
          end :: rs)
  end.

Definition logValue (s : solution modulus) (log : LogEntry) : result string :=
  let! toResolve := logResolve s (ToResolve log) in
  Ok (Sprintf (Format log) toResolve).

End Diagnostics.
End bn254.

(** ** Concrete instances, used to run the definitions *)
Module Sample.

(** The scalar field of BLS12-381. *)
Definition r381 : Z :=
  52435875175126190479447740508185965837690552500527637822603658699938581184513.

(** The scalar field of BN254. *)
Definition r254 : Z :=
  21888242871839275222246405745257275088548364400416034343698204186575808495617.

(** A constant tag carried by the wire id [math.MaxUint32]. *)
Definition MaxUint32 : Z := 4294967295.
Definition tagMaxUint32 : ConstantTag := fun t => VID t =? MaxUint32.

(** Decimal rendering of the canonical representative. *)
Definition decimal (m : Z) : ElementString m := fun x => pretty (Zmod.to_Z x).

(** A formatter that joins the format and its arguments. *)
Definition joinArgs : Formatter := fun format args => format +:+ String.concat "," args.

(** Coefficient table: the reserved entries 0, 1, 2, -1, then 7. *)
Definition table (m : Z) : list (Zmod m) :=
  [Zmod.zero; Zmod.one; Zmod.of_Z m 2; Zmod.opp Zmod.one; Zmod.of_Z m 7].

(** A hint that doubles its first input into every output. *)
Definition double : HintFunction := fun _ inputs outputs =>
  ((λ _, 2 * default 0 (inputs !! 0%nat)) <$> outputs, None).

(** A hint that writes 5 into every output and fails. *)
Definition failing : HintFunction := fun _ _ outputs =>
  ((λ _, 5) <$> outputs, Some (errorString "hint failed")).

(** Wires [one = 1; x = 3; y; z], the last two unsolved; two constraints, the
    second one with a debug annotation. *)
Definition sys381 : bls12_381.system r381 :=
  bls12_381.mkSystem (table r381)
    {[ 1 := 0 ]} [mkLogEntry "main.go" "x*x == one fails, x = " [[mkTerm 1 1]] []]
    (mkSymbolTable [] []) [].

Definition solver381 : bls12_381.solver r381 :=
  bls12_381.mkSolver sys381
    [Zmod.one; Zmod.of_Z r381 3; Zmod.zero; Zmod.zero] [true; true; false; false] 2
    {[ 10 := double; 11 := failing ]} 4
    [Zmod.zero; Zmod.zero] [Zmod.zero; Zmod.zero] [Zmod.zero; Zmod.zero] r381.

Definition solution254 : bn254.solution r254 :=
  bn254.mkSolution
    [Zmod.one; Zmod.of_Z r254 3; Zmod.zero; Zmod.zero] (table r254)
    [true; true; false; false] 2
    {[ 10 := double; 11 := failing ]}
    {[ 2 := mkHint 10 [[mkTerm 1 1]] [2]; 3 := mkHint 10 [[mkTerm 1 2]] [3] ]}.

(** A system of two instructions in two levels over the same wires: the
    constraint [x * x = y], then the doubling hint from [y] to [z]. *)
Definition sys381_run : bls12_381.system r381 :=
  bls12_381.mkSystem (table r381) ∅ [] (mkSymbolTable [] []) [[0]; [1]].

Definition header381 : bls12_381.System r381 :=
  bls12_381.mkHeader SystemR1CS ["one"; "x"] [] 2 {[ 10 := "double" ]} 1 r381
    [mkPackedInstruction 0 (mkInstruction 0 0 []);
     mkPackedInstruction 1 (mkInstruction 0 0 [])]
    [bls12_381.mkBlueprint
       (Some (λ _, mkR1C [mkTerm 1 1] [mkTerm 1 1] [mkTerm 1 2])) None None;
     bls12_381.mkBlueprint None None
       (Some (λ _, mkHintMapping 10 [[mkTerm 1 2]] 3 4))].

Definition config381 : bls12_381.Config :=
  bls12_381.mkConfig {[ 10 := double; 11 := failing ]} 1.

(** The solver of this system on the witness [x = 3], with one worker. *)
Definition solver381_run : bls12_381.solver r381 :=
  bls12_381.mkSolver sys381_run
    [Zmod.one; Zmod.of_Z r381 3; Zmod.zero; Zmod.zero] [true; true; false; false] 2
    {[ 10 := double; 11 := failing ]} 1
    [Zmod.zero] [Zmod.zero] [Zmod.zero] r381.

(** The solver of this system when [y] already holds 5. *)
Definition solver381_bad : bls12_381.solver r381 :=
  bls12_381.mkSolver sys381_run
    [Zmod.one; Zmod.of_Z r381 3; Zmod.of_Z r381 5; Zmod.zero]
    [true; true; true; false] 3
    {[ 10 := double; 11 := failing ]} 1
    [Zmod.zero] [Zmod.zero] [Zmod.zero] r381.

(** A solution whose hint for wire [y] takes [y] itself as input. *)
Definition solution254_cycle : bn254.solution r254 :=
  bn254.mkSolution
    [Zmod.one; Zmod.of_Z r254 3; Zmod.zero; Zmod.zero] (table r254)
    [true; true; false; false] 2
    {[ 10 := double; 11 := failing ]}
    {[ 2 := mkHint 10 [[mkTerm 1 2]] [2] ]}.

(** The same store over the integers modulo 7. *)
Definition solver7 : bls12_381.solver 7 :=
  bls12_381.mkSolver (bls12_381.mkSystem (table 7) ∅ [] (mkSymbolTable [] []) [])
    [Zmod.one; Zmod.of_Z 7 3; Zmod.zero; Zmod.zero] [true; true; false; false] 2
    ∅ 1 [Zmod.zero] [Zmod.zero] [Zmod.zero] 7.

End Sample.

(** ** Vocabulary of the statements *)

(** The wire of term [t] exists in the solver and its flag is [flag]. *)
Definition wire_flag {m : Z} (s : bls12_381.solver m) (flag : bool) (t : Term)
    : Prop :=
  0 ≤ WireID t ∧ bls12_381.solved s !! Z.to_nat (WireID t) = Some flag.

(** The accumulators [&solver.a[cID]], [&solver.b[cID]], [&solver.c[cID]]
    exist and hold [a0], [b0], [c0]. *)
Definition accumulators {m : Z} (s : bls12_381.solver m) (cID : Z)
    (a0 b0 c0 : Zmod m) : Prop :=
  0 ≤ cID ∧
  bls12_381.a s !! Z.to_nat cID = Some a0 ∧
  bls12_381.b s !! Z.to_nat cID = Some b0 ∧
  bls12_381.c s !! Z.to_nat cID = Some c0.

(** The total of a linear expression added to [val], term after term with
    [accumulateInto]. *)
Fixpoint accumulated {m : Z} {tag : ConstantTag} (s : bls12_381.solver m)
    (l : LinearExpression) (val : Zmod m) : result (Zmod m) :=
  match l with
  | [] => Ok val
  | t :: rest =>
      let! val' := bls12_381.accumulateInto s t val in
      accumulated s rest val'
  end.

(** Linear expression [le] is [pre ++ t :: post] where [t] is its one term
    over an unsolved wire. *)
Definition single_unknown {m : Z} (s : bls12_381.solver m)
    (le pre post : LinearExpression) (t : Term) : Prop :=
  le = pre ++ t :: post ∧
  Forall (wire_flag s true) (pre ++ post) ∧
  wire_flag s false t ∧
  WireID t < Z.of_nat (length (bls12_381.values s)).

(** The single unknown [t] of constraint [r] is on side [L] ([loc = 1]) or
    on side [R] ([loc = 2]); [va] and [vb] are the totals of the known terms
    of [L] and [R] added to [a0] and [b0]. *)
Definition unknown_factor {m : Z} {tag : ConstantTag} (s : bls12_381.solver m)
    (r : R1C) (a0 b0 va vb : Zmod m) (pre post : LinearExpression) (t : Term)
    (loc : Z) : Prop :=
  (loc = 1 ∧ single_unknown s (L r) pre post t ∧
   accumulated s (pre ++ post) a0 = Ok va ∧
   Forall (wire_flag s true) (R r) ∧ accumulated s (R r) b0 = Ok vb) ∨
  (loc = 2 ∧ Forall (wire_flag s true) (L r) ∧ accumulated s (L r) a0 = Ok va ∧
   single_unknown s (R r) pre post t ∧
   accumulated s (pre ++ post) b0 = Ok vb).

(** The solver after [solveR1C] has left [va], [vb], [vc] in the
    accumulators of [cID] and has set the wire of [t] to [w]. *)
Definition solved_for {m : Z} (s : bls12_381.solver m) (cID : Z)
    (va vb vc : Zmod m) (t : Term) (w : Zmod m) : bls12_381.solver m :=
  bls12_381.with_store (bls12_381.with_abc s cID va vb vc)
    (<[Z.to_nat (WireID t) := w]> (bls12_381.values s))
    (<[Z.to_nat (WireID t) := true]> (bls12_381.solved s))
    (atomic_AddUint64 (bls12_381.nbSolved s) 1).


(** Term [t] has its coefficient [k] in the table and refers to a solved
    wire of value [v]. *)
Definition solved_term {m : Z} (table values : list (Zmod m))
    (solved : list bool) (t : Term) (k v : Zmod m) : Prop :=
  0 ≤ CoeffID t ∧ 0 ≤ WireID t ∧
  table !! Z.to_nat (CoeffID t) = Some k ∧
  solved !! Z.to_nat (WireID t) = Some true ∧
  values !! Z.to_nat (WireID t) = Some v.

(** The coefficient table holds 0, 1, 2 and -1 at the reserved ids. *)
Definition reserved_coefficients {m : Z} (table : list (Zmod m)) : Prop :=
  table !! Z.to_nat CoeffIdZero = Some Zmod.zero ∧
  table !! Z.to_nat CoeffIdOne = Some Zmod.one ∧
  table !! Z.to_nat CoeffIdTwo = Some (Zmod.of_Z m 2) ∧
  table !! Z.to_nat CoeffIdMinusOne = Some (Zmod.opp Zmod.one).

(** The coefficient of term [t] can be divided out: [t] is no constant and
    its coefficient id is one or minus-one or, over a prime field, another id
    than zero and two whose table entry is not zero. *)
Definition solvable_term {m : Z} {tag : ConstantTag} (s : bls12_381.solver m)
    (t : Term) : Prop :=
  IsConstant t = false ∧
  (CID t = CoeffIdOne ∨ CID t = CoeffIdMinusOne ∨
   (Z.prime m ∧ CID t ≠ CoeffIdZero ∧ CID t ≠ CoeffIdTwo ∧ 0 ≤ CID t ∧
    ∃ k, bls12_381.Coefficients (bls12_381.sys s) !! Z.to_nat (CID t) = Some k ∧
         k ≠ Zmod.zero)).

(** The message of the panic of [recursiveSolve]. *)
Definition unsolved_input : string :=
  "solver can't compute hint; one or more input wires are unsolved".

(** The [n] wires from [start] on exist and are unsolved. *)
Definition free_range {E : Type} (values : list E) (solved : list bool)
    (start : Z) (n : nat) : Prop :=
  0 ≤ start ∧
  start + Z.of_nat n ≤ Z.of_nat (length values) ∧
  ∀ j : nat, (j < n)%nat → solved !! (Z.to_nat start + j)%nat = Some false.

(** The listed wires are distinct, exist and are unsolved. *)
Definition free_wires {E : Type} (values : list E) (solved : list bool)
    (wires : list Z) : Prop :=
  NoDup wires ∧
  ∀ (j : nat) (w : Z), wires !! j = Some w →
    0 ≤ w < Z.of_nat (length values) ∧ solved !! Z.to_nat w = Some false.

(** Entry [j] of the output buffer is the value of the [j]-th listed wire,
    which is marked solved. *)
Definition outputs_written {m : Z} (values : list (Zmod m)) (solved : list bool)
    (wires outputs : list Z) : Prop :=
  ∀ (j : nat) (w o : Z), wires !! j = Some w → outputs !! j = Some o →
    values !! Z.to_nat w = Some (Zmod.of_Z m o) ∧
    solved !! Z.to_nat w = Some true.

(** What a write of [value] to wire [id] does to the store: the value and
    the flag of [id], the [uint64] counter, and nothing else. *)
Definition wire_written {E : Type} (values values' : list E)
    (solved solved' : list bool) (nbSolved nbSolved' : Z) (id : Z) (value : E)
    : Prop :=
  values' !! Z.to_nat id = Some value ∧
  solved' !! Z.to_nat id = Some true ∧
  nbSolved' = atomic_AddUint64 nbSolved 1 ∧
  (0 ≤ nbSolved < 2 ^ 64 - 1 → nbSolved' = nbSolved + 1) ∧
  ∀ j : nat, j ≠ Z.to_nat id →
    values' !! j = values !! j ∧ solved' !! j = solved !! j.

(** The number of wires marked solved. *)
Definition count_solved (solved : list bool) : Z :=
  Z.of_nat (length (filter (λ flag, flag = true) solved)).

(** The invariant of the value store: a value and a flag per wire, the
    counter is the number of wires marked solved, and the number of wires
    fits a Go [int]. *)
Definition store_ok {E : Type} (values : list E) (solved : list bool)
    (nbSolved : Z) : Prop :=
  length values = length solved ∧
  nbSolved = count_solved solved ∧
  Z.of_nat (length solved) < 2 ^ 63.

(** [P] holds of the receiver a method leaves behind, whether it returns nil
    or an error. *)
Definition leaves {S A : Type} (P : S → Prop) (o : outcome S A) : Prop :=
  match o with
  | Ret s _ => P s
  | Err s _ => P s
  | Crash _ => True
  | Timeout => True
  end.

(** [store_ok] of a [solver] and of a [solution]. *)
Definition solver_ok {m : Z} (s : bls12_381.solver m) : Prop :=
  store_ok (bls12_381.values s) (bls12_381.solved s) (bls12_381.nbSolved s).

Definition solution_ok {m : Z} (u : bn254.solution m) : Prop :=
  store_ok (bn254.values u) (bn254.solved u) (bn254.nbSolved u).

(** The [Solve] methods of the blueprints of the system keep the invariant
    of the value store. *)
Definition blueprints_ok {m : Z} (hd : bls12_381.System m) : Prop :=
  ∀ (blueprint : bls12_381.Blueprint m)
    (solve : bls12_381.solver m → Instruction → outcome (bls12_381.solver m) unit),
    blueprint ∈ bls12_381.Blueprints hd →
    bls12_381.Solve blueprint = Some solve →
    ∀ s inst, solver_ok s → leaves solver_ok (solve s inst).

(** The call data of a linear expression as [Read] takes it: the number of
    terms, then the coefficient id and the wire id of each term. *)
Definition calldata_of (le : LinearExpression) : list Z :=
  Z.of_nat (length le) :: concat ((λ t, [CID t; VID t]) <$> le).

(** * Properties *)

(** ** Slices *)
Section Slices.
Context {A : Type}.
Implicit Types (l : list A) (i : Z) (x : A).

Lemma index_Ok l i x :
  index l i = Ok x ↔ 0 ≤ i ∧ l !! Z.to_nat i = Some x.
Proof.
  unfold index. destruct (decide (0 ≤ i)) as [Hi|Hi].
  - destruct (l !! Z.to_nat i) as [y|] eqn:E; split.
    + intros [= ->]. done.
    + intros [_ [= ->]]. done.
    + done.
    + intros [_ [=]].
  - split; [done|]. intros [? _]. lia.
Qed.

Lemma index_lookup l i x :
  0 ≤ i → l !! Z.to_nat i = Some x → index l i = Ok x.
Proof. intros. by apply index_Ok. Qed.

Lemma assign_Ok l i x :
  0 ≤ i < Z.of_nat (length l) → assign l i x = Ok (<[Z.to_nat i := x]> l).
Proof. intros Hi. unfold assign. by rewrite decide_True. Qed.

Lemma lookup_in_range l i x :
  l !! Z.to_nat i = Some x → 0 ≤ i → 0 ≤ i < Z.of_nat (length l).
Proof. intros Hx Hi. apply lookup_lt_Some in Hx. lia. Qed.

End Slices.

(** ** The value store *)
Section ValueStore.
Context {modulus : Z}.
Implicit Types (id : Z) (value : Zmod modulus).

Lemma bls_set_solved (s : bls12_381.solver modulus) id value :
  0 ≤ id → bls12_381.solved s !! Z.to_nat id = Some true →
  bls12_381.set s id value = Panic "solving the same wire twice should never happen.".
Proof.
  intros Hid Hs. unfold bls12_381.set. by rewrite (index_lookup _ _ _ Hid Hs).
Qed.

Lemma bls_set_unsolved (s : bls12_381.solver modulus) id value :
  0 ≤ id < Z.of_nat (length (bls12_381.values s)) →
  bls12_381.solved s !! Z.to_nat id = Some false →
  bls12_381.set s id value =
    Ok (bls12_381.with_store s (<[Z.to_nat id := value]> (bls12_381.values s))
          (<[Z.to_nat id := true]> (bls12_381.solved s))
          (atomic_AddUint64 (bls12_381.nbSolved s) 1)).
Proof.
  intros Hid Hs. unfold bls12_381.set.
  rewrite (index_lookup _ _ _ (proj1 Hid) Hs). simpl.
  rewrite (assign_Ok _ _ _ Hid). simpl.
  rewrite assign_Ok; [done|]. eapply lookup_in_range; [done|lia].
Qed.

Lemma bn_set_solved (s : bn254.solution modulus) id value :
  0 ≤ id → bn254.solved s !! Z.to_nat id = Some true →
  bn254.set s id value = Panic "solving the same wire twice should never happen.".
Proof.
  intros Hid Hs. unfold bn254.set. by rewrite (index_lookup _ _ _ Hid Hs).
Qed.

Lemma bn_set_unsolved (s : bn254.solution modulus) id value :
  0 ≤ id < Z.of_nat (length (bn254.values s)) →
  bn254.solved s !! Z.to_nat id = Some false →
  bn254.set s id value =
    Ok (bn254.with_store s (<[Z.to_nat id := value]> (bn254.values s))
          (<[Z.to_nat id := true]> (bn254.solved s))
          (atomic_AddUint64 (bn254.nbSolved s) 1)).
Proof.
  intros Hid Hs. unfold bn254.set.
  rewrite (index_lookup _ _ _ (proj1 Hid) Hs). simpl.
  rewrite (assign_Ok _ _ _ Hid). simpl.
  rewrite assign_Ok; [done|]. eapply lookup_in_range; [done|lia].
Qed.

Lemma atomic_AddUint64_succ n :
  0 ≤ n < 2 ^ 64 - 1 → atomic_AddUint64 n 1 = n + 1.
Proof. intros Hn. unfold atomic_AddUint64. apply Z.mod_small. lia. Qed.

End ValueStore.

Section SetOnce.
Context {modulus modulus' : Z}.

Lemma wire_written_insert {E : Type} (values : list E) (solved : list bool)
    (nbSolved : Z) (id : Z) (value : E) :
  0 ≤ id < Z.of_nat (length values) →
  0 ≤ id < Z.of_nat (length solved) →
  wire_written values (<[Z.to_nat id := value]> values)
    solved (<[Z.to_nat id := true]> solved)
    nbSolved (atomic_AddUint64 nbSolved 1) id value.
Proof.
  intros Hv Hs. repeat split.
  - apply list_lookup_insert_eq. lia.
  - apply list_lookup_insert_eq. lia.
  - apply atomic_AddUint64_succ.
  - by apply list_lookup_insert_ne.
  - by apply list_lookup_insert_ne.
Qed.

(** C3: on a wire that is already marked solved, [set] panics; on an
    unsolved wire it stores the value at the wire's index, marks the wire
    solved and adds one to the solved count, and leaves the value and the
    flag of every other wire as they were. Both for [solver.set] and for
    [solution.set]. *)
Theorem set_once (s : bls12_381.solver modulus) (t : bn254.solution modulus')
    (id : Z) (value : Zmod modulus) (value' : Zmod modulus') :
  0 ≤ id < Z.of_nat (length (bls12_381.values s)) →
  0 ≤ id < Z.of_nat (length (bls12_381.solved s)) →
  0 ≤ id < Z.of_nat (length (bn254.values t)) →
  0 ≤ id < Z.of_nat (length (bn254.solved t)) →
  (bls12_381.solved s !! Z.to_nat id = Some true →
     bls12_381.set s id value
     = Panic "solving the same wire twice should never happen.") ∧
  (bls12_381.solved s !! Z.to_nat id = Some false →
     ∃ s', bls12_381.set s id value = Ok s' ∧
       wire_written (bls12_381.values s) (bls12_381.values s')
         (bls12_381.solved s) (bls12_381.solved s')
         (bls12_381.nbSolved s) (bls12_381.nbSolved s') id value) ∧
  (bn254.solved t !! Z.to_nat id = Some true →
     bn254.set t id value'
     = Panic "solving the same wire twice should never happen.") ∧
  (bn254.solved t !! Z.to_nat id = Some false →
     ∃ t', bn254.set t id value' = Ok t' ∧
       wire_written (bn254.values t) (bn254.values t')
         (bn254.solved t) (bn254.solved t')
         (bn254.nbSolved t) (bn254.nbSolved t') id value').
Proof.
  intros Hsv Hss Htv Hts. split_and!.
  - intros Hsolved. apply bls_set_solved; [lia|done].
  - intros Hunsolved. eexists. split; [by apply bls_set_unsolved|].
    by apply wire_written_insert.
  - intros Hsolved. apply bn_set_solved; [lia|done].
  - intros Hunsolved. eexists. split; [by apply bn_set_unsolved|].
    by apply wire_written_insert.
Qed.

End SetOnce.

(** [set_once] on the sample stores, at the unsolved wire 2. *)
Lemma set_once_witness :
  (∃ s', bls12_381.set Sample.solver381 2 (Zmod.of_Z _ 9) = Ok s' ∧
     bls12_381.values s' !! 2%nat = Some (Zmod.of_Z _ 9) ∧
     bls12_381.nbSolved s' = 3) ∧
  (∃ t', bn254.set Sample.solution254 2 (Zmod.of_Z _ 9) = Ok t' ∧
     bn254.values t' !! 2%nat = Some (Zmod.of_Z _ 9) ∧
     bn254.nbSolved t' = 3).
Proof.
  destruct (set_once Sample.solver381 Sample.solution254 2
              (Zmod.of_Z _ 9) (Zmod.of_Z _ 9))
    as (_ & Hs & _ & Ht); [simpl; lia..|].
  destruct (Hs eq_refl) as (s' & Es & Hv & _ & _ & Hn & _).
  destruct (Ht eq_refl) as (t' & Et & Hv' & _ & _ & Hn' & _).
  split.
  - exists s'. split_and!; [exact Es|exact Hv|]. apply Hn. simpl. lia.
  - exists t'. split_and!; [exact Et|exact Hv'|]. apply Hn'. simpl. lia.
Defined.

(** ** The term evaluator *)
Section TermEvaluator.
Context {modulus : Z} {tag : ConstantTag}.
Implicit Types (t : Term) (r v k : Zmod modulus).

Lemma mul_two_l v : Zmod.mul (Zmod.of_Z modulus 2) v = Zmod.add v v.
Proof.
  change 2 with (1 + 1). rewrite Zmod.of_Z_add, Zmod.of_Z_1.
  by rewrite Zmod.mul_add_l, Zmod.mul_1_l.
Qed.

(** The four shortcuts against the product with the table entry. *)
Lemma shortcut_cases (table : list (Zmod modulus)) (cID : Z) k v :
  reserved_coefficients table → 0 ≤ cID → table !! Z.to_nat cID = Some k →
  (cID = CoeffIdZero → Zmod.zero = Zmod.mul k v) ∧
  (cID = CoeffIdOne → v = Zmod.mul k v) ∧
  (cID = CoeffIdTwo → Zmod.add v v = Zmod.mul k v) ∧
  (cID = CoeffIdMinusOne → Zmod.opp v = Zmod.mul k v).
Proof.
  intros (H0 & H1 & H2 & H3) Hc Hk. split_and!; intros ->.
  - rewrite H0 in Hk. injection Hk as <-. by rewrite Zmod.mul_0_l.
  - rewrite H1 in Hk. injection Hk as <-. by rewrite Zmod.mul_1_l.
  - rewrite H2 in Hk. injection Hk as <-. by rewrite mul_two_l.
  - rewrite H3 in Hk. injection Hk as <-. by rewrite Zmod.mul_m1_l.
Qed.

Lemma bls_computeTerm_generic (s : bls12_381.solver modulus) t k v :
  reserved_coefficients (bls12_381.Coefficients (bls12_381.sys s)) →
  IsConstant t = false →
  0 ≤ CoeffID t → 0 ≤ WireID t →
  bls12_381.Coefficients (bls12_381.sys s) !! Z.to_nat (CoeffID t) = Some k →
  bls12_381.solved s !! Z.to_nat (WireID t) = Some true →
  bls12_381.values s !! Z.to_nat (WireID t) = Some v →
  bls12_381.computeTerm s t = Ok (Zmod.mul k v).
Proof.
  intros Htab Hc Hcid Hvid Hk Hs Hv.
  destruct (shortcut_cases _ _ k v Htab Hcid Hk) as (E0 & E1 & E2 & E3).
  unfold bls12_381.computeTerm. rewrite Hc.
  rewrite (index_lookup _ _ _ Hvid Hs), (index_lookup _ _ _ Hvid Hv),
    (index_lookup _ _ _ Hcid Hk). simpl.
  destruct (decide (CoeffID t ≠ 0)); simpl;
    repeat (case_decide; [f_equal; auto|]); done.
Qed.

Lemma bls_accumulateInto_generic (s : bls12_381.solver modulus) t k v r :
  reserved_coefficients (bls12_381.Coefficients (bls12_381.sys s)) →
  IsConstant t = false →
  0 ≤ CoeffID t → 0 ≤ WireID t →
  bls12_381.Coefficients (bls12_381.sys s) !! Z.to_nat (CoeffID t) = Some k →
  bls12_381.values s !! Z.to_nat (WireID t) = Some v →
  bls12_381.accumulateInto s t r = Ok (Zmod.add r (Zmod.mul k v)).
Proof.
  intros Htab Hc Hcid Hvid Hk Hv.
  destruct (shortcut_cases _ _ k v Htab Hcid Hk) as (E0 & E1 & E2 & E3).
  unfold bls12_381.accumulateInto. rewrite Hc.
  rewrite (index_lookup _ _ _ Hvid Hv), (index_lookup _ _ _ Hcid Hk). simpl.
  case_decide; [by rewrite <- E0, Zmod.add_0_r|].
  case_decide; [by rewrite <- E1|].
  case_decide; [by rewrite <- E2|].
  case_decide; [by rewrite <- E3, Zmod.add_opp_r|].
  done.
Qed.

Lemma bn_computeTerm_generic (s : bn254.solution modulus) t k v :
  reserved_coefficients (bn254.coefficients s) →
  0 ≤ CoeffID t → 0 ≤ WireID t →
  bn254.coefficients s !! Z.to_nat (CoeffID t) = Some k →
  bn254.solved s !! Z.to_nat (WireID t) = Some true →
  bn254.values s !! Z.to_nat (WireID t) = Some v →
  bn254.computeTerm s t = Ok (Zmod.mul k v).
Proof.
  intros Htab Hcid Hvid Hk Hs Hv.
  destruct (shortcut_cases _ _ k v Htab Hcid Hk) as (E0 & E1 & E2 & E3).
  unfold bn254.computeTerm.
  rewrite (index_lookup _ _ _ Hvid Hs), (index_lookup _ _ _ Hvid Hv),
    (index_lookup _ _ _ Hcid Hk). simpl.
  destruct (decide (CoeffID t ≠ 0)); simpl;
    repeat (case_decide; [f_equal; auto|]); done.
Qed.

Lemma bn_accumulateInto_generic (s : bn254.solution modulus) t k v r :
  reserved_coefficients (bn254.coefficients s) →
  IsConstant t = false →
  0 ≤ CoeffID t → 0 ≤ WireID t →
  bn254.coefficients s !! Z.to_nat (CoeffID t) = Some k →
  bn254.values s !! Z.to_nat (WireID t) = Some v →
  bn254.accumulateInto s t r = Ok (Zmod.add r (Zmod.mul k v)).
Proof.
  intros Htab Hc Hcid Hvid Hk Hv.
  destruct (shortcut_cases _ _ k v Htab Hcid Hk) as (E0 & E1 & E2 & E3).
  unfold bn254.accumulateInto. rewrite Hc.
  rewrite (index_lookup _ _ _ Hvid Hv), (index_lookup _ _ _ Hcid Hk). simpl.
  case_decide; [by rewrite <- E0, Zmod.add_0_r|].
  case_decide; [by rewrite <- E1|].
  case_decide; [by rewrite <- E2|].
  case_decide; [by rewrite <- E3, Zmod.add_opp_r|].
  done.
Qed.

End TermEvaluator.

Section FastPaths.
Context {modulus modulus' : Z} {tag : ConstantTag}.

(** C6: on a non-constant term over a solved wire, with 0, 1, 2 and -1 at
    the reserved ids of the coefficient table, [computeTerm] returns the
    product of the table entry and the wire value whichever branch it takes,
    and [accumulateInto] leaves the accumulator at its prior value plus that
    product, which is its prior value plus [computeTerm]. Both for the
    [solver] and for the [solution]. *)
Theorem fast_paths_generic (s : bls12_381.solver modulus)
    (u : bn254.solution modulus') (t : Term)
    (k v r : Zmod modulus) (k' v' r' : Zmod modulus') :
  IsConstant t = false →
  reserved_coefficients (bls12_381.Coefficients (bls12_381.sys s)) →
  solved_term (bls12_381.Coefficients (bls12_381.sys s)) (bls12_381.values s)
    (bls12_381.solved s) t k v →
  reserved_coefficients (bn254.coefficients u) →
  solved_term (bn254.coefficients u) (bn254.values u) (bn254.solved u) t k' v' →
  (bls12_381.computeTerm s t = Ok (Zmod.mul k v) ∧
   bls12_381.accumulateInto s t r = Ok (Zmod.add r (Zmod.mul k v))) ∧
  (bn254.computeTerm u t = Ok (Zmod.mul k' v') ∧
   bn254.accumulateInto u t r' = Ok (Zmod.add r' (Zmod.mul k' v'))).
Proof.
  intros Hc Htab (Hcid & Hvid & Hk & Hs & Hv) Htab' (_ & _ & Hk' & Hs' & Hv').
  split_and!.
  - by apply bls_computeTerm_generic.
  - by apply bls_accumulateInto_generic.
  - by apply bn_computeTerm_generic.
  - by apply bn_accumulateInto_generic.
Qed.

End FastPaths.

(** [fast_paths_generic] on the sample stores, for the term [-1 * x] with
    [x = 3] and the accumulator 10. *)
Lemma fast_paths_generic_witness :
  (bls12_381.computeTerm (tag := Sample.tagMaxUint32) Sample.solver381 (mkTerm 3 1)
   = Ok (Zmod.of_Z _ (-3)) ∧
   bls12_381.accumulateInto (tag := Sample.tagMaxUint32) Sample.solver381
     (mkTerm 3 1) (Zmod.of_Z _ 10) = Ok (Zmod.of_Z _ 7)) ∧
  (bn254.computeTerm Sample.solution254 (mkTerm 3 1) = Ok (Zmod.of_Z _ (-3)) ∧
   bn254.accumulateInto (tag := Sample.tagMaxUint32) Sample.solution254
     (mkTerm 3 1) (Zmod.of_Z _ 10) = Ok (Zmod.of_Z _ 7)).
Proof.
  apply (fast_paths_generic (tag := Sample.tagMaxUint32)
           Sample.solver381 Sample.solution254 (mkTerm 3 1)
           (Zmod.opp Zmod.one) (Zmod.of_Z _ 3) (Zmod.of_Z _ 10)
           (Zmod.opp Zmod.one) (Zmod.of_Z _ 3) (Zmod.of_Z _ 10));
    repeat split; (reflexivity || (simpl; lia)).
Defined.

Section UnsolvedTerm.
Context {modulus modulus' : Z} {tag : ConstantTag}.

(** C7, as the code has it: on a term whose coefficient id is not zero and
    whose wire is not solved, [computeTerm] panics ([solver.computeTerm] when
    the term is not constant-tagged, [solution.computeTerm] whatever the tag,
    which it does not test); with coefficient id zero it returns the zero of
    the field and reads neither the flag nor the value of the wire; on a
    constant-tagged term [solver.computeTerm] returns the entry of the
    coefficient table and reads no wire. *)
Theorem computeTerm_unsolved (s : bls12_381.solver modulus)
    (u : bn254.solution modulus') (t : Term) :
  0 ≤ WireID t →
  (IsConstant t = false → CoeffID t ≠ CoeffIdZero →
   bls12_381.solved s !! Z.to_nat (WireID t) = Some false →
   bls12_381.computeTerm s t = Panic "computing a term with an unsolved wire") ∧
  (CoeffID t ≠ CoeffIdZero →
   bn254.solved u !! Z.to_nat (WireID t) = Some false →
   bn254.computeTerm u t = Panic "computing a term with an unsolved wire") ∧
  (IsConstant t = false → CoeffID t = CoeffIdZero →
   bls12_381.computeTerm s t = Ok Zmod.zero) ∧
  (CoeffID t = CoeffIdZero → bn254.computeTerm u t = Ok Zmod.zero) ∧
  (IsConstant t = true →
   bls12_381.computeTerm s t
   = index (bls12_381.Coefficients (bls12_381.sys s)) (CoeffID t)).
Proof.
  intros Hvid. split_and!.
  - intros Hc Hcid Hs. unfold bls12_381.computeTerm. rewrite Hc.
    rewrite decide_True by done. by rewrite (index_lookup _ _ _ Hvid Hs).
  - intros Hcid Hs. unfold bn254.computeTerm.
    rewrite decide_True by done. by rewrite (index_lookup _ _ _ Hvid Hs).
  - intros Hc Hcid. unfold bls12_381.computeTerm. rewrite Hc, Hcid.
    by rewrite decide_False by (unfold CoeffIdZero; lia).
  - intros Hcid. unfold bn254.computeTerm. rewrite Hcid.
    by rewrite decide_False by (unfold CoeffIdZero; lia).
  - intros Hc. unfold bls12_381.computeTerm. by rewrite Hc.
Qed.

End UnsolvedTerm.

(** [computeTerm_unsolved] on the sample stores: the term [1 * y] over the
    unsolved wire [y] panics in both. *)
Lemma computeTerm_unsolved_witness :
  bls12_381.computeTerm (tag := Sample.tagMaxUint32) Sample.solver381 (mkTerm 1 2)
  = Panic "computing a term with an unsolved wire" ∧
  bn254.computeTerm Sample.solution254 (mkTerm 1 2)
  = Panic "computing a term with an unsolved wire".
Proof.
  destruct (computeTerm_unsolved (tag := Sample.tagMaxUint32)
              Sample.solver381 Sample.solution254 (mkTerm 1 2))
    as (Hs & Hu & _); [simpl; lia|].
  split.
  - apply Hs; [reflexivity|discriminate|reflexivity].
  - apply Hu; [discriminate|reflexivity].
Defined.

(** The term [0 * y] is not constant-tagged and its wire [y] is not solved,
    and [computeTerm] returns zero instead of panicking. *)
Lemma computeTerm_unsolved_counterexample :
  let t := mkTerm CoeffIdZero 2 in
  IsConstant (ConstantTag := Sample.tagMaxUint32) t = false ∧
  bls12_381.solved Sample.solver381 !! Z.to_nat (WireID t) = Some false ∧
  bls12_381.computeTerm (tag := Sample.tagMaxUint32) Sample.solver381 t
  = Ok Zmod.zero ∧
  ¬ ∃ msg, bls12_381.computeTerm (tag := Sample.tagMaxUint32) Sample.solver381 t
           = Panic msg.
Proof.
  split_and!; [reflexivity..|]. intros [msg Hmsg]. discriminate Hmsg.
Qed.

(** ** The work partition of [run] *)
Section Partition.
Context {modulus : Z}.
Implicit Types (level : list Z) (n : nat).

Lemma slice_Ok {A} (l : list A) (lo hi : Z) :
  0 ≤ lo → lo ≤ hi → hi ≤ Z.of_nat (length l) →
  slice l lo hi = Ok (take (Z.to_nat (hi - lo)) (drop (Z.to_nat lo) l)).
Proof. intros. unfold slice. by rewrite decide_True. Qed.

Lemma take_drop_next {A} (l : list A) (lo n1 n2 : nat) :
  take n1 (drop lo l) ++ take n2 (drop (lo + n1) l) = take (n1 + n2) (drop lo l).
Proof. by rewrite <- drop_drop, take_take_drop. Qed.

(** The loop hands out consecutive slices: the first [extraTasks] of them
    one index longer than the others. *)
Lemma pushTasks_partition level n (i per extra off : Z) :
  0 ≤ i → 0 ≤ per → 0 ≤ extra → 0 ≤ off →
  i * per + off + Z.of_nat n * per + Z.min extra (Z.of_nat n)
    ≤ Z.of_nat (length level) →
  ∃ tasks,
    bls12_381.pushTasks level n i per extra off = Ok tasks ∧
    concat tasks
    = take (Z.to_nat (Z.of_nat n * per + Z.min extra (Z.of_nat n)))
        (drop (Z.to_nat (i * per + off)) level) ∧
    length <$> tasks
    = replicate (Z.to_nat (Z.min extra (Z.of_nat n))) (Z.to_nat (per + 1))
      ++ replicate (n - Z.to_nat (Z.min extra (Z.of_nat n))) (Z.to_nat per).
Proof.
  revert i extra off. induction n as [|n IH]; intros i extra off Hi Hper Hextra Hoff Hfit.
  - exists []. simpl. split_and!; [done| |].
    + by rewrite Z.min_r, take_0 by lia.
    + by rewrite Z.min_r by lia.
  - simpl. destruct (decide (extra > 0)) as [Hpos|Hzero].
    + rewrite slice_Ok by lia.
      destruct (IH (i + 1) (extra - 1) (off + 1)) as (tasks & -> & Hcat & Hlen);
        [lia..|].
      eexists. split; [done|]. split.
      * simpl. rewrite Hcat.
        replace (Z.to_nat ((i + 1) * per + (off + 1)))
          with (Z.to_nat (i * per + off) + Z.to_nat (i * per + off + per + 1 - (i * per + off)))%nat
          by lia.
        rewrite take_drop_next. f_equal. lia.
      * rewrite fmap_cons, Hlen.
        rewrite length_take, length_drop.
        replace (Z.to_nat (Z.min extra (Z.of_nat (S n))))
          with (S (Z.to_nat (Z.min (extra - 1) (Z.of_nat n)))) by lia.
        simpl. f_equal. lia.
    + assert (extra = 0) as -> by lia.
      rewrite slice_Ok by lia.
      destruct (IH (i + 1) 0 off) as (tasks & -> & Hcat & Hlen); [lia..|].
      eexists. split; [done|]. split.
      * simpl. rewrite Hcat.
        replace (Z.to_nat ((i + 1) * per + off))
          with (Z.to_nat (i * per + off) + Z.to_nat (i * per + off + per - (i * per + off)))%nat
          by lia.
        rewrite take_drop_next. f_equal. lia.
      * rewrite fmap_cons, Hlen.
        rewrite length_take, length_drop.
        rewrite !Z.min_l by lia. simpl. rewrite !Nat.sub_0_r.
        simpl. f_equal. lia.
Qed.

Lemma maxCPU_above_one level :
  Qle_bool (bls12_381.maxCPU level) 1 = false →
  50 < Z.of_nat (length level) ∧ 2 ≤ Qceiling (bls12_381.maxCPU level).
Proof.
  intros Hgt.
  assert (1 < bls12_381.maxCPU level)%Q as Hlt.
  { apply Qnot_le_lt. intros Hle. apply Qle_bool_iff in Hle. congruence. }
  split.
  - revert Hlt. unfold bls12_381.maxCPU, bls12_381.minWorkPerCPU, Qlt, Qdiv.
    simpl. lia.
  - pose proof (Qle_ceiling (bls12_381.maxCPU level)) as Hceil.
    assert (inject_Z 1 < inject_Z (Qceiling (bls12_381.maxCPU level)))%Q as H1
      by (eapply Qlt_le_trans; [exact Hlt|exact Hceil]).
    rewrite <- Zlt_Qlt in H1. lia.
Qed.

Lemma levelTasks_partition (s : bls12_381.solver modulus) level :
  1 ≤ bls12_381.nbTasks s →
  Qle_bool (bls12_381.maxCPU level) 1 = false →
  ∃ (tasks : list (list Z)) (per extra : nat),
    bls12_381.levelTasks s level = Ok tasks ∧
    concat tasks = level ∧
    (1 ≤ per)%nat ∧ (extra < length tasks)%nat ∧
    length <$> tasks
    = replicate extra (S per) ++ replicate (length tasks - extra) per.
Proof.
  intros Hworkers Hpar.
  destruct (maxCPU_above_one level Hpar) as [Hlen Hmax].
  unfold bls12_381.levelTasks.
  set (len := Z.of_nat (length level)) in *.
  set (nb := if decide (bls12_381.nbTasks s > Qceiling (bls12_381.maxCPU level))
             then Qceiling (bls12_381.maxCPU level) else bls12_381.nbTasks s).
  assert (1 ≤ nb) as Hnb by (subst nb; case_decide; lia).
  rewrite decide_False by lia.
  rewrite Z.quot_div_nonneg by lia.
  assert (∀ (nb' per : Z),
    1 ≤ nb' → 1 ≤ per → 0 ≤ len - nb' * per < nb' →
    ∃ (tasks : list (list Z)) (per' extra : nat),
      bls12_381.pushTasks level (Z.to_nat nb') 0 per (len - nb' * per) 0 = Ok tasks ∧
      concat tasks = level ∧
      (1 ≤ per')%nat ∧ (extra < length tasks)%nat ∧
      length <$> tasks
      = replicate extra (S per') ++ replicate (length tasks - extra) per') as Hpush.
  { intros nb' per Hnb' Hper Hextra.
    destruct (pushTasks_partition level (Z.to_nat nb') 0 per (len - nb' * per) 0)
      as (tasks & Htasks & Hcat & Hsizes); [lia..|].
    assert (length tasks = Z.to_nat nb') as Hcount.
    { rewrite <- (length_fmap length tasks), Hsizes.
      rewrite length_app, !length_replicate. lia. }
    exists tasks, (Z.to_nat per), (Z.to_nat (len - nb' * per)).
    split_and!; [done| |lia|lia|].
    - rewrite Hcat. simpl. rewrite drop_0. apply take_ge. lia.
    - rewrite Hsizes, Hcount. rewrite Z.min_l by lia. f_equal; f_equal; lia. }
  destruct (decide (len `div` nb < 1)) as [Hsmall|Hlarge].
  - replace (len - len * 1) with 0 by lia.
    specialize (Hpush len 1). replace (len - len * 1) with 0 in Hpush by lia.
    apply Hpush; lia.
  - apply Hpush; [lia|lia|].
    pose proof (Z.mod_pos_bound len nb ltac:(lia)) as Hmod.
    rewrite Z.mod_eq in Hmod by lia. lia.
Qed.

End Partition.

Section RunPartition.
Context {modulus : Z}.

(** C9: for a level that [run] does not execute sequentially (more than
    [minWorkPerCPU] instructions, and a pool of more than one worker), the
    slices pushed on [chTasks] are consecutive and their concatenation is the
    level: the first [extra] slices hold [per + 1] indices and all the others
    [per], so that sizes differ by at most one. *)
Theorem run_partition (s : bls12_381.solver modulus) (level : list Z) :
  1 ≤ bls12_381.nbTasks s →
  bls12_381.nbTasks s ≠ 1 →
  Qle_bool (bls12_381.maxCPU level) 1 = false →
  ∃ (tasks : list (list Z)) (per extra : nat),
    bls12_381.dispatch s level = Ok (Some tasks) ∧
    concat tasks = level ∧
    (1 ≤ per)%nat ∧ (extra < length tasks)%nat ∧
    length <$> tasks
    = replicate extra (S per) ++ replicate (length tasks - extra) per.
Proof.
  intros Hworkers Hpool Hpar.
  destruct (levelTasks_partition s level Hworkers Hpar)
    as (tasks & per & extra & Htasks & Hrest).
  exists tasks, per, extra. split; [|exact Hrest].
  unfold bls12_381.dispatch. rewrite Hpar, Htasks. simpl.
  by destruct (Z.eqb_spec (bls12_381.nbTasks s) 1).
Qed.

End RunPartition.

(** [run_partition] for the sample solver (4 workers) on a level of 103
    instructions. *)
Lemma run_partition_witness :
  ∃ (tasks : list (list Z)) (per extra : nat),
    bls12_381.dispatch Sample.solver381 (seqZ 0 103) = Ok (Some tasks) ∧
    concat tasks = seqZ 0 103 ∧
    (1 ≤ per)%nat ∧ (extra < length tasks)%nat ∧
    length <$> tasks
    = replicate extra (S per) ++ replicate (length tasks - extra) per.
Proof.
  apply (run_partition Sample.solver381 (seqZ 0 103));
    [simpl; lia|simpl; lia|reflexivity].
Defined.

(** The same level is cut in three tasks of 35, 34 and 34 indices. *)
Example run_partition_103 :
  ∃ tasks, bls12_381.dispatch Sample.solver381 (seqZ 0 103) = Ok (Some tasks) ∧
    length <$> tasks = [35; 34; 34]%nat.
Proof. eexists. split; [vm_compute; reflexivity|reflexivity]. Qed.

(** ** The R1C solver *)
Section Scan.
Context {modulus : Z} {tag : ConstantTag}.
Implicit Types (s : bls12_381.solver modulus) (l : LinearExpression)
  (t : Term) (val : Zmod modulus).

(** Over solved wires [processLExp] only accumulates. *)
Lemma processLExp_solved s l val val' (locValue loc : Z) t0 :
  Forall (wire_flag s true) l →
  accumulated s l val = Ok val' →
  bls12_381.processLExp s l val locValue loc t0 = Ok (val', loc, t0).
Proof.
  intros Hl. revert val. induction Hl as [|t l [Hvid Hs] _ IH]; intros val Hacc.
  - simpl in *. by injection Hacc as ->.
  - simpl in *. rewrite (index_lookup _ _ _ Hvid Hs). simpl.
    destruct (bls12_381.accumulateInto s t val); simpl in *; [by apply IH|done].
Qed.

(** With one unsolved wire, and none seen before, [processLExp] accumulates
    the other terms and records the side and the term. *)
Lemma processLExp_unknown s (pre post : LinearExpression) t val val'
    (locValue : Z) t0 :
  Forall (wire_flag s true) (pre ++ post) →
  wire_flag s false t →
  accumulated s (pre ++ post) val = Ok val' →
  bls12_381.processLExp s (pre ++ t :: post) val locValue 0 t0
  = Ok (val', locValue, t).
Proof.
  intros Hl [Hvid Hs]. apply Forall_app in Hl as [Hpre Hpost].
  revert val. induction Hpre as [|t' pre [Hvid' Hs'] _ IH]; intros val Hacc.
  - simpl in *. rewrite (index_lookup _ _ _ Hvid Hs). simpl.
    by apply processLExp_solved.
  - simpl in *. rewrite (index_lookup _ _ _ Hvid' Hs'). simpl.
    destruct (bls12_381.accumulateInto s t' val); simpl in *; [by apply IH|done].
Qed.

End Scan.

Section Diagnostics.
Context {modulus : Z} {tag : ConstantTag} {str : ElementString modulus}
  {fmt : Formatter}.
Implicit Types (s : bls12_381.solver modulus) (va vb vc : Zmod modulus).

(** Rendering reads the system, the values and the flags, not [a], [b], [c]. *)
Lemma logTerms_with_abc s cID va vb vc le eval :
  bls12_381.logTerms (bls12_381.with_abc s cID va vb vc) le eval
  = bls12_381.logTerms s le eval.
Proof.
  revert eval. induction le as [|t le IH]; intros eval; simpl; [done|].
  destruct (IsConstant t).
  - destruct (index _ _); simpl; [apply IH|done].
  - destruct (index _ _) as [[]|]; simpl; [|done..].
    change (bls12_381.computeTerm (bls12_381.with_abc s cID va vb vc) t)
      with (bls12_381.computeTerm s t).
    destruct (bls12_381.computeTerm s t); simpl; [apply IH|done].
Qed.

Lemma logValue_with_abc s cID va vb vc entry :
  bls12_381.logValue (bls12_381.with_abc s cID va vb vc) entry
  = bls12_381.logValue s entry.
Proof.
  unfold bls12_381.logValue.
  assert (∀ les, bls12_381.logResolve (bls12_381.with_abc s cID va vb vc) les
                 = bls12_381.logResolve s les) as ->.
  { induction les as [|le les IH]; simpl; [done|].
    by rewrite logTerms_with_abc, IH. }
  assert (∀ stack, bls12_381.logStack (bls12_381.with_abc s cID va vb vc) stack
                   = bls12_381.logStack s stack) as ->; [|done].
  induction stack as [|lID stack IH]; simpl; [done|]. by rewrite IH.
Qed.

Lemma wrapErrWithDebugInfo_with_abc s cID va vb vc cID' err :
  bls12_381.wrapErrWithDebugInfo (bls12_381.with_abc s cID va vb vc) cID' err
  = bls12_381.wrapErrWithDebugInfo s cID' err.
Proof.
  unfold bls12_381.wrapErrWithDebugInfo. simpl.
  destruct (bls12_381.MDebug (bls12_381.sys s) !! cID'); [|done].
  destruct (index _ _); simpl; [|done]. by rewrite logValue_with_abc.
Qed.

Lemma wrapErrWithDebugInfo_plain s cID err :
  bls12_381.MDebug (bls12_381.sys s) !! cID = None →
  bls12_381.wrapErrWithDebugInfo s cID err
  = Ok (UnsatisfiedConstraintError err cID None).
Proof. intros Hd. unfold bls12_381.wrapErrWithDebugInfo. by rewrite Hd. Qed.

Lemma wrapErrWithDebugInfo_debug s cID err dID entry info :
  bls12_381.MDebug (bls12_381.sys s) !! cID = Some dID →
  0 ≤ dID →
  bls12_381.DebugInfo (bls12_381.sys s) !! Z.to_nat dID = Some entry →
  bls12_381.logValue s entry = Ok info →
  bls12_381.wrapErrWithDebugInfo s cID err
  = Ok (UnsatisfiedConstraintError err cID (Some info)).
Proof.
  intros Hd HdID Hentry Hinfo. unfold bls12_381.wrapErrWithDebugInfo.
  rewrite Hd, (index_lookup _ _ _ HdID Hentry). simpl. by rewrite Hinfo.
Qed.

(** The error of [wrapErrWithDebugInfo] always carries [err] and [cID]. *)
Lemma wrapErrWithDebugInfo_shape s cID err e :
  bls12_381.wrapErrWithDebugInfo s cID err = Ok e →
  ∃ debugInfo, e = UnsatisfiedConstraintError err cID debugInfo.
Proof.
  unfold bls12_381.wrapErrWithDebugInfo.
  destruct (bls12_381.MDebug (bls12_381.sys s) !! cID).
  - destruct (index _ _); simpl; [|done].
    destruct (bls12_381.logValue _ _); simpl; [|done]. intros [= <-]. eauto.
  - simpl. intros [= <-]. eauto.
Qed.

(** [solveR1C] once the three sides are scanned. *)
Lemma solveR1C_scanned s cID (r : R1C) (a0 b0 c0 : Zmod modulus) va vb vc
    (loc1 loc2 loc3 : Z) (t1 t2 t3 : Term) :
  0 ≤ cID →
  bls12_381.a s !! Z.to_nat cID = Some a0 →
  bls12_381.b s !! Z.to_nat cID = Some b0 →
  bls12_381.c s !! Z.to_nat cID = Some c0 →
  bls12_381.processLExp s (L r) a0 1 0 (mkTerm 0 0) = Ok (va, loc1, t1) →
  bls12_381.processLExp s (R r) b0 2 loc1 t1 = Ok (vb, loc2, t2) →
  bls12_381.processLExp s (O r) c0 3 loc2 t2 = Ok (vc, loc3, t3) →
  bls12_381.solveR1C s cID r
  = if decide (loc3 = 0) then
      if negb (Zmod.eqb (Zmod.mul va vb) vc)
      then bls12_381.unsatisfied (bls12_381.with_abc s cID va vb vc) cID va vb vc
      else Ret (bls12_381.with_abc s cID va vb vc) ()
    else
      match bls12_381.solveLoc loc3 va vb vc with
      | None =>
          bls12_381.unsatisfied (bls12_381.with_abc s cID va vb vc) cID va vb vc
      | Some (va', vb', vc', wire) =>
          let s1 := bls12_381.with_abc s cID va' vb' vc' in
          run! (s2, wire') := lift s1 (bls12_381.divByCoeff s1 wire (CID t3)) in
          run! (s3, s') := lift s2 (bls12_381.set s2 (WireID t3) wire') in
          Ret s' ()
      end.
Proof.
  intros HcID Ha Hb Hc HL HR HO. unfold bls12_381.solveR1C.
  rewrite (index_lookup _ _ _ HcID Ha). simpl.
  rewrite (index_lookup _ _ _ HcID Hb). simpl.
  rewrite (index_lookup _ _ _ HcID Hc). simpl.
  rewrite HL. simpl. rewrite HR. simpl. rewrite HO. simpl. done.
Qed.

Lemma unsatisfied_Err s cID va vb vc e :
  bls12_381.wrapErrWithDebugInfo s cID (bls12_381.mismatch va vb vc) = Ok e →
  ∀ cID' va' vb' vc',
    bls12_381.unsatisfied (bls12_381.with_abc s cID' va' vb' vc') cID va vb vc
    = Err (bls12_381.with_abc s cID' va' vb' vc') e.
Proof.
  intros He cID' va' vb' vc'. unfold bls12_381.unsatisfied.
  by rewrite wrapErrWithDebugInfo_with_abc, He.
Qed.

End Diagnostics.

Section Unsatisfied.
Context {modulus : Z} {tag : ConstantTag} {str : ElementString modulus}
  {fmt : Formatter}.

(** C8: when every wire of the constraint is solved and the totals have
    [a * b <> c], [solveR1C] returns an [UnsatisfiedConstraintError] with the
    index of the constraint. Without a debug annotation for that index its
    message ends with the raw mismatch of the three totals; with one, the
    error carries the rendering of the annotation by [logValue] and the
    message ends with it. *)
Theorem unsatisfied_constraint_error (s : bls12_381.solver modulus) (cID : Z)
    (r : R1C) (a0 b0 c0 va vb vc : Zmod modulus) :
  accumulators s cID a0 b0 c0 →
  Forall (wire_flag s true) (L r) →
  Forall (wire_flag s true) (R r) →
  Forall (wire_flag s true) (O r) →
  accumulated s (L r) a0 = Ok va →
  accumulated s (R r) b0 = Ok vb →
  accumulated s (O r) c0 = Ok vc →
  Zmod.mul va vb ≠ vc →
  (bls12_381.MDebug (bls12_381.sys s) !! cID = None →
   bls12_381.solveR1C s cID r
   = Err (bls12_381.with_abc s cID va vb vc)
       (UnsatisfiedConstraintError (bls12_381.mismatch va vb vc) cID None) ∧
   bls12_381.Error
     (UnsatisfiedConstraintError (bls12_381.mismatch va vb vc) cID None)
   = "constraint #" +:+ pretty cID +:+ " is not satisfied: "
     +:+ (fr_String va +:+ " ⋅ " +:+ fr_String vb +:+ " != " +:+ fr_String vc)) ∧
  (∀ (dID : Z) (entry : LogEntry) (info : string),
     bls12_381.MDebug (bls12_381.sys s) !! cID = Some dID →
     0 ≤ dID →
     bls12_381.DebugInfo (bls12_381.sys s) !! Z.to_nat dID = Some entry →
     bls12_381.logValue s entry = Ok info →
     bls12_381.solveR1C s cID r
     = Err (bls12_381.with_abc s cID va vb vc)
         (UnsatisfiedConstraintError (bls12_381.mismatch va vb vc) cID (Some info)) ∧
     bls12_381.Error
       (UnsatisfiedConstraintError (bls12_381.mismatch va vb vc) cID (Some info))
     = "constraint #" +:+ pretty cID +:+ " is not satisfied: " +:+ info).
Proof.
  intros (HcID & Ha & Hb & Hc) HL HR HO HaL HbR HcO Hne.
  assert (bls12_381.solveR1C s cID r
          = bls12_381.unsatisfied (bls12_381.with_abc s cID va vb vc) cID va vb vc)
    as Hsolve.
  { rewrite (solveR1C_scanned s cID r a0 b0 c0 va vb vc 0 0 0
               (mkTerm 0 0) (mkTerm 0 0) (mkTerm 0 0)); try done;
      try by apply processLExp_solved.
    rewrite decide_True by done.
    destruct (Zmod.eqb_spec (Zmod.mul va vb) vc); done. }
  split.
  - intros Hd. split; [|done]. rewrite Hsolve.
    apply unsatisfied_Err. by apply wrapErrWithDebugInfo_plain.
  - intros dID entry info Hd HdID Hentry Hinfo. split; [|done]. rewrite Hsolve.
    apply unsatisfied_Err. by eapply wrapErrWithDebugInfo_debug.
Qed.

End Unsatisfied.

(** [unsatisfied_constraint_error] on the sample solver, for the constraint
    [x * x = one] with [x = 3]: at index 0, which has no annotation, and at
    index 1, which has one. *)
Lemma unsatisfied_constraint_error_witness :
  let r := mkR1C [mkTerm 1 1] [mkTerm 1 1] [mkTerm 1 0] in
  let solve := bls12_381.solveR1C (tag := Sample.tagMaxUint32)
                 (str := Sample.decimal _) (fmt := Sample.joinArgs) in
  (∃ s' e, solve Sample.solver381 0 r = Err s' e ∧
     bls12_381.Error e = "constraint #0 is not satisfied: 3 ⋅ 3 != 1") ∧
  (∃ s' e, solve Sample.solver381 1 r = Err s' e ∧
     bls12_381.Error e = "constraint #1 is not satisfied: x*x == one fails, x = 3").
Proof.
  intros r solve. split.
  - destruct (unsatisfied_constraint_error (tag := Sample.tagMaxUint32)
                (str := Sample.decimal _) (fmt := Sample.joinArgs)
                Sample.solver381 0 r Zmod.zero Zmod.zero Zmod.zero
                (Zmod.of_Z _ 3) (Zmod.of_Z _ 3) Zmod.one) as [Hplain _];
      [repeat split; reflexivity || (simpl; lia)
      |repeat constructor; simpl; lia..
      |reflexivity|reflexivity|reflexivity|discriminate|].
    destruct (Hplain eq_refl) as [Hsolve Hmsg].
    eexists _, _. split; [exact Hsolve|]. rewrite Hmsg. reflexivity.
  - destruct (unsatisfied_constraint_error (tag := Sample.tagMaxUint32)
                (str := Sample.decimal _) (fmt := Sample.joinArgs)
                Sample.solver381 1 r Zmod.zero Zmod.zero Zmod.zero
                (Zmod.of_Z _ 3) (Zmod.of_Z _ 3) Zmod.one) as [_ Hdebug];
      [repeat split; reflexivity || (simpl; lia)
      |repeat constructor; simpl; lia..
      |reflexivity|reflexivity|reflexivity|discriminate|].
    destruct (Hdebug 0 _ _ eq_refl ltac:(lia) eq_refl eq_refl) as [Hsolve Hmsg].
    eexists _, _. split; [exact Hsolve|]. rewrite Hmsg. reflexivity.
Defined.

Section OutputSide.
Context {modulus : Z} {tag : ConstantTag} {str : ElementString modulus}
  {fmt : Formatter}.
Implicit Types (s : bls12_381.solver modulus) (va vb vc w : Zmod modulus).

(** [divByCoeff] followed by [set] on the wire of the unknown term. *)
Lemma set_unknown s cID va vb vc t w :
  wire_flag s false t →
  WireID t < Z.of_nat (length (bls12_381.values s)) →
  bls12_381.set (bls12_381.with_abc s cID va vb vc) (WireID t) w
  = Ok (solved_for s cID va vb vc t w).
Proof.
  intros [Hvid Hs] Hlen. by rewrite bls_set_unsolved.
Qed.

Lemma divByCoeff_cases s w (cID : Z) :
  (cID = CoeffIdOne → bls12_381.divByCoeff s w cID = Ok w) ∧
  (cID = CoeffIdMinusOne → bls12_381.divByCoeff s w cID = Ok (Zmod.opp w)) ∧
  (cID = CoeffIdZero → bls12_381.divByCoeff s w cID = Panic "division by 0") ∧
  (∀ k, cID ≠ CoeffIdOne → cID ≠ CoeffIdMinusOne → cID ≠ CoeffIdZero →
     0 ≤ cID →
     bls12_381.Coefficients (bls12_381.sys s) !! Z.to_nat cID = Some k →
     bls12_381.divByCoeff s w cID = Ok (Zmod.mdiv w k)).
Proof.
  unfold bls12_381.divByCoeff. split_and!.
  - intros ->. done.
  - intros ->. done.
  - intros ->. done.
  - intros k H1 H3 H0 Hc Hk. rewrite !decide_False by done.
    by rewrite (index_lookup _ _ _ Hc Hk).
Qed.

Lemma divByCoeff_with_abc s cID va vb vc w (cID' : Z) :
  bls12_381.divByCoeff (bls12_381.with_abc s cID va vb vc) w cID'
  = bls12_381.divByCoeff s w cID'.
Proof. reflexivity. Qed.

(** [solveR1C] with the unknown on side [O], up to [divByCoeff]. *)
Lemma solveR1C_output s cID (r : R1C) (a0 b0 c0 : Zmod modulus) va vb vc
    (pre post : LinearExpression) (t : Term) :
  accumulators s cID a0 b0 c0 →
  Forall (wire_flag s true) (L r) →
  Forall (wire_flag s true) (R r) →
  single_unknown s (O r) pre post t →
  accumulated s (L r) a0 = Ok va →
  accumulated s (R r) b0 = Ok vb →
  accumulated s (pre ++ post) c0 = Ok vc →
  let raw := Zmod.sub (Zmod.mul va vb) vc in
  bls12_381.solveR1C s cID r
  = match bls12_381.divByCoeff s raw (CID t) with
    | Ok w => Ret (solved_for s cID va vb (Zmod.add vc raw) t w) ()
    | Panic msg => Crash msg
    end.
Proof.
  intros (HcID & Ha & Hb & Hc) HL HR (HO & Hknown & Hunknown & Hlen) HaL HbR HcO raw.
  rewrite (solveR1C_scanned s cID r a0 b0 c0 va vb vc 0 0 3
             (mkTerm 0 0) (mkTerm 0 0) t); try done;
    try by apply processLExp_solved.
  2: { rewrite HO. apply processLExp_unknown; [exact Hknown|exact Hunknown|exact HcO]. }
  rewrite decide_False by done. simpl.
  rewrite divByCoeff_with_abc. fold raw.
  destruct (bls12_381.divByCoeff s raw (CID t)) as [w|msg]; simpl; [|done].
  by rewrite set_unknown.
Qed.

(** C5: with the single unknown term on side [O], whatever the totals [a]
    and [b] are, the raw value is [a * b - c], [c] the total of the known
    terms of [O]; the wire receives the raw value itself when the term has
    coefficient id one, its opposite for minus-one, its quotient by the table
    entry for another non-zero id, and [solveR1C] panics on coefficient id
    zero. *)
Theorem solve_output_side s cID (r : R1C) (a0 b0 c0 : Zmod modulus) va vb vc
    (pre post : LinearExpression) (t : Term) :
  accumulators s cID a0 b0 c0 →
  Forall (wire_flag s true) (L r) →
  Forall (wire_flag s true) (R r) →
  single_unknown s (O r) pre post t →
  accumulated s (L r) a0 = Ok va →
  accumulated s (R r) b0 = Ok vb →
  accumulated s (pre ++ post) c0 = Ok vc →
  let raw := Zmod.sub (Zmod.mul va vb) vc in
  let done w := Ret (solved_for s cID va vb (Zmod.add vc raw) t w) () in
  (CID t = CoeffIdOne → bls12_381.solveR1C s cID r = done raw) ∧
  (CID t = CoeffIdMinusOne →
   bls12_381.solveR1C s cID r = done (Zmod.opp raw)) ∧
  (CID t = CoeffIdZero → bls12_381.solveR1C s cID r = Crash "division by 0") ∧
  (∀ k, CID t ≠ CoeffIdOne → CID t ≠ CoeffIdMinusOne → CID t ≠ CoeffIdZero →
     0 ≤ CID t →
     bls12_381.Coefficients (bls12_381.sys s) !! Z.to_nat (CID t) = Some k →
     bls12_381.solveR1C s cID r = done (Zmod.mdiv raw k)).
Proof.
  intros Hacc HL HR HO HaL HbR HcO raw done.
  pose proof (solveR1C_output s cID r a0 b0 c0 va vb vc pre post t
                Hacc HL HR HO HaL HbR HcO) as Hsolve.
  destruct (divByCoeff_cases s raw (CID t)) as (H1 & H3 & H0 & Hk).
  simpl in Hsolve. fold raw in Hsolve. rewrite Hsolve. split_and!.
  - intros E. by rewrite (H1 E).
  - intros E. by rewrite (H3 E).
  - intros E. by rewrite (H0 E).
  - intros k E1 E3 E0 Hc Hlook. by rewrite (Hk k E1 E3 E0 Hc Hlook).
Qed.

End OutputSide.

(** [solve_output_side] on the sample solver: [x * x = y] with [x = 3] sets
    the unsolved wire [y] to 9. *)
Lemma solve_output_side_witness :
  ∃ s', bls12_381.solveR1C (tag := Sample.tagMaxUint32)
          (str := Sample.decimal _) (fmt := Sample.joinArgs)
          Sample.solver381 0 (mkR1C [mkTerm 1 1] [mkTerm 1 1] [mkTerm 1 2])
        = Ret s' () ∧
    bls12_381.values s' !! 2%nat = Some (Zmod.of_Z _ 9) ∧
    bls12_381.solved s' !! 2%nat = Some true.
Proof.
  destruct (solve_output_side (tag := Sample.tagMaxUint32)
              (str := Sample.decimal _) (fmt := Sample.joinArgs)
              Sample.solver381 0 (mkR1C [mkTerm 1 1] [mkTerm 1 1] [mkTerm 1 2])
              Zmod.zero Zmod.zero Zmod.zero (Zmod.of_Z _ 3) (Zmod.of_Z _ 3)
              Zmod.zero [] [] (mkTerm 1 2)) as (Hone & _);
    [repeat split; reflexivity || (simpl; lia)
    |repeat constructor; simpl; lia..
    |repeat split; (reflexivity || (simpl; lia) || constructor)
    |reflexivity|reflexivity|reflexivity|].
  eexists. split; [exact (Hone eq_refl)|]. split; reflexivity.
Defined.

Section ZeroFactor.
Context {modulus : Z} {tag : ConstantTag} {str : ElementString modulus}
  {fmt : Formatter}.
Implicit Types (s : bls12_381.solver modulus) (va vb vc w : Zmod modulus).

Lemma divByCoeff_zero s (cID : Z) w :
  bls12_381.divByCoeff s Zmod.zero cID = Ok w → w = Zmod.zero.
Proof.
  unfold bls12_381.divByCoeff.
  case_decide; [by intros [= <-]|].
  case_decide; [intros [= <-]; apply Zmod.opp_zero|].
  case_decide; [done|].
  destruct (index _ _) as [k|]; simpl; [|done]. intros [= <-].
  unfold Zmod.mdiv. apply Zmod.mul_0_l.
Qed.

(** The branches of [switch loc] for an unknown on [L] or [R] when the
    other factor is zero. *)
Lemma solveLoc_zero_factor (loc : Z) va vb vc :
  (loc = 1 ∧ vb = Zmod.zero) ∨ (loc = 2 ∧ va = Zmod.zero) →
  bls12_381.solveLoc loc va vb vc
  = if Zmod.eqb vc Zmod.zero then Some (va, vb, vc, Zmod.zero) else None.
Proof.
  unfold bls12_381.solveLoc. intros [[-> ->]|[-> ->]].
  - rewrite decide_True by done.
    rewrite Zmod.eqb_refl, Zmod.mul_0_r. cbn [negb].
    destruct (Zmod.eqb_spec Zmod.zero vc), (Zmod.eqb_spec vc Zmod.zero); done.
  - rewrite decide_False, decide_True by done.
    rewrite Zmod.eqb_refl, Zmod.mul_0_l. cbn [negb].
    destruct (Zmod.eqb_spec Zmod.zero vc), (Zmod.eqb_spec vc Zmod.zero); done.
Qed.

(** The scan of a constraint whose single unknown is on [L] or on [R]. *)
Lemma solveR1C_factor_side s cID (r : R1C) (a0 b0 c0 : Zmod modulus) va vb vc
    (pre post : LinearExpression) (t : Term) (loc : Z) :
  accumulators s cID a0 b0 c0 →
  unknown_factor s r a0 b0 va vb pre post t loc →
  Forall (wire_flag s true) (O r) →
  accumulated s (O r) c0 = Ok vc →
  bls12_381.solveR1C s cID r
  = match bls12_381.solveLoc loc va vb vc with
    | None =>
        bls12_381.unsatisfied (bls12_381.with_abc s cID va vb vc) cID va vb vc
    | Some (va', vb', vc', wire) =>
        match bls12_381.divByCoeff s wire (CID t) with
        | Ok w => Ret (solved_for s cID va' vb' vc' t w) ()
        | Panic msg => Crash msg
        end
    end.
Proof.
  intros (HcID & Ha & Hb & Hc) Hside HO HcO.
  assert (wire_flag s false t ∧
          WireID t < Z.of_nat (length (bls12_381.values s))) as [Hunknown Hlen].
  { destruct Hside as [(_ & (_ & _ & ? & ?) & _)|(_ & _ & _ & (_ & _ & ? & ?) & _)];
      done. }
  assert (loc ≠ 0) as Hloc by (destruct Hside as [[-> _]|[-> _]]; done).
  assert (∃ loc1 t1,
    bls12_381.processLExp s (L r) a0 1 0 (mkTerm 0 0) = Ok (va, loc1, t1) ∧
    bls12_381.processLExp s (R r) b0 2 loc1 t1 = Ok (vb, loc, t)) as (loc1 & t1 & HL & HR).
  { destruct Hside as [(-> & (HL & Hknown & _) & HaL & HR & HbR)
                      |(-> & HL & HaL & (HR & Hknown & _) & HbR)].
    - exists 1, t. split.
      + rewrite HL. by apply processLExp_unknown.
      + by apply processLExp_solved.
    - exists 0, (mkTerm 0 0). split.
      + by apply processLExp_solved.
      + rewrite HR. by apply processLExp_unknown. }
  rewrite (solveR1C_scanned s cID r a0 b0 c0 va vb vc loc1 loc loc t1 t t);
    try done; [|by apply processLExp_solved].
  rewrite decide_False by done.
  destruct (bls12_381.solveLoc loc va vb vc) as [[[[va' vb'] vc'] wire]|];
    [|done].
  simpl. rewrite divByCoeff_with_abc.
  destruct (bls12_381.divByCoeff s wire (CID t)) as [w|msg]; simpl; [|done].
  by rewrite set_unknown.
Qed.

(** C4, as the code has it: with the single unknown term on side [L] and
    the total [b] of side [R] zero (or on side [R] with [a] zero), [solveR1C]
    checks [a * b = c]. When the check fails it returns the
    [UnsatisfiedConstraintError] of this constraint and the wire of the
    unknown term stays unsolved. When the check holds [solveR1C] goes on to
    [divByCoeff] and [set] with the raw value zero: the wire is set to zero
    and marked solved (and a term of coefficient id zero panics). *)
Theorem solve_zero_factor s cID (r : R1C) (a0 b0 c0 : Zmod modulus) va vb vc
    (pre post : LinearExpression) (t : Term) (loc : Z) :
  accumulators s cID a0 b0 c0 →
  unknown_factor s r a0 b0 va vb pre post t loc →
  (loc = 1 ∧ vb = Zmod.zero) ∨ (loc = 2 ∧ va = Zmod.zero) →
  Forall (wire_flag s true) (O r) →
  accumulated s (O r) c0 = Ok vc →
  (Zmod.mul va vb ≠ vc →
   ∀ e, bls12_381.wrapErrWithDebugInfo s cID (bls12_381.mismatch va vb vc) = Ok e →
     bls12_381.solveR1C s cID r = Err (bls12_381.with_abc s cID va vb vc) e ∧
     (∃ debugInfo,
        e = UnsatisfiedConstraintError (bls12_381.mismatch va vb vc) cID debugInfo) ∧
     bls12_381.solved (bls12_381.with_abc s cID va vb vc) !! Z.to_nat (WireID t)
     = Some false) ∧
  (Zmod.mul va vb = vc →
   (CID t = CoeffIdZero → bls12_381.solveR1C s cID r = Crash "division by 0") ∧
   (CID t ≠ CoeffIdZero →
    CID t = CoeffIdOne ∨ CID t = CoeffIdMinusOne ∨
    (0 ≤ CID t ∧
     is_Some (bls12_381.Coefficients (bls12_381.sys s) !! Z.to_nat (CID t))) →
    bls12_381.solveR1C s cID r
    = Ret (solved_for s cID va vb vc t Zmod.zero) () ∧
    bls12_381.solved (solved_for s cID va vb vc t Zmod.zero) !! Z.to_nat (WireID t)
    = Some true ∧
    bls12_381.values (solved_for s cID va vb vc t Zmod.zero) !! Z.to_nat (WireID t)
    = Some Zmod.zero)).
Proof.
  intros Hacc Hside Hzero HO HcO.
  pose proof (solveR1C_factor_side s cID r a0 b0 c0 va vb vc pre post t loc
                Hacc Hside HO HcO) as Hsolve.
  rewrite (solveLoc_zero_factor loc va vb vc Hzero) in Hsolve.
  assert (Zmod.mul va vb = Zmod.zero) as Hprod.
  { destruct Hzero as [[_ ->]|[_ ->]];
      [apply Zmod.mul_0_r|apply Zmod.mul_0_l]. }
  assert (wire_flag s false t ∧
          WireID t < Z.of_nat (length (bls12_381.values s))) as [[Hvid Hflag] Hlen].
  { destruct Hside as [(_ & (_ & _ & ? & ?) & _)|(_ & _ & _ & (_ & _ & ? & ?) & _)];
      done. }
  split.
  - intros Hne e He. destruct (Zmod.eqb_spec vc Zmod.zero) as [->|_]; [done|].
    split_and!.
    + rewrite Hsolve. by apply unsatisfied_Err.
    + by eapply wrapErrWithDebugInfo_shape.
    + done.
  - intros Heq. rewrite Hprod in Heq. subst vc. rewrite Zmod.eqb_refl in Hsolve.
    destruct (divByCoeff_cases s Zmod.zero (CID t)) as (H1 & H3 & H0 & Hk).
    split.
    + intros E. by rewrite Hsolve, (H0 E).
    + intros Hnz Hcoeff.
      assert (∃ w, bls12_381.divByCoeff s Zmod.zero (CID t) = Ok w) as [w Hw].
      { destruct Hcoeff as [E|[E|[Hc [k Hlook]]]]; [by eauto..|].
        destruct (decide (CID t = CoeffIdOne)); [by eauto|].
        destruct (decide (CID t = CoeffIdMinusOne)); by eauto. }
      rewrite Hw in Hsolve. rewrite (divByCoeff_zero _ _ _ Hw) in Hsolve.
      split_and!; [done| |].
      * apply list_lookup_insert_eq. eapply lookup_lt_Some, Hflag.
      * apply list_lookup_insert_eq. lia.
Qed.

End ZeroFactor.

(** [solve_zero_factor] on the sample solver: the constraint
    [y * (x - x) = 0] with [y] unsolved passes the check and sets [y] to
    zero. *)
Lemma solve_zero_factor_witness :
  let r := mkR1C [mkTerm 1 2] [mkTerm 1 1; mkTerm 3 1] [] in
  ∃ s', bls12_381.solveR1C (tag := Sample.tagMaxUint32)
          (str := Sample.decimal _) (fmt := Sample.joinArgs)
          Sample.solver381 0 r = Ret s' () ∧
    bls12_381.solved s' !! 2%nat = Some true ∧
    bls12_381.values s' !! 2%nat = Some Zmod.zero.
Proof.
  intros r.
  destruct (solve_zero_factor (tag := Sample.tagMaxUint32)
              (str := Sample.decimal _) (fmt := Sample.joinArgs)
              Sample.solver381 0 r Zmod.zero Zmod.zero Zmod.zero
              Zmod.zero Zmod.zero Zmod.zero [] [] (mkTerm 1 2) 1) as [_ Hpass].
  - repeat split; reflexivity || (simpl; lia).
  - left. repeat split; try reflexivity; try (simpl; lia);
      repeat constructor; simpl; lia.
  - left. split; reflexivity.
  - constructor.
  - reflexivity.
  - destruct (Hpass eq_refl) as [_ Hset].
    destruct Hset as (Hsolve & Hflag & Hvalue); [discriminate|by left|].
    eexists. split; [exact Hsolve|]. split; [exact Hflag|exact Hvalue].
Defined.

(** The unknown [y] is on side [L], the total of side [R] is [x - x = 0],
    and [solveR1C] solves [y]: before the call its wire is unsolved, after
    the call it is solved, with value zero. *)
Lemma solve_zero_factor_counterexample :
  let r := mkR1C [mkTerm 1 2] [mkTerm 1 1; mkTerm 3 1] [] in
  bls12_381.solved Sample.solver381 !! 2%nat = Some false ∧
  accumulated (tag := Sample.tagMaxUint32) Sample.solver381 (R r) Zmod.zero
  = Ok Zmod.zero ∧
  ∃ s', bls12_381.solveR1C (tag := Sample.tagMaxUint32)
          (str := Sample.decimal _) (fmt := Sample.joinArgs)
          Sample.solver381 0 r = Ret s' () ∧
    bls12_381.solved s' !! 2%nat = Some true ∧
    bls12_381.nbSolved s' = bls12_381.nbSolved Sample.solver381 + 1.
Proof.
  intros r. split; [reflexivity|]. split; [reflexivity|].
  eexists. split; [vm_compute; reflexivity|]. split; reflexivity.
Qed.

(** ** The hint resolver *)
Section HintOutputs.
Context {modulus : Z}.

Lemma callHint_length (f : HintFunction) (q : Z) (inputs outputs : list Z)
    (nbOutputs : nat) (err : option error) :
  callHint f q inputs nbOutputs = (outputs, err) → length outputs = nbOutputs.
Proof.
  unfold callHint. destruct (f q inputs _) as [outs err'].
  intros [= <- _]. apply length_resize.
Qed.

(** The loop over the output buffer of [solver.solveWithHint] writes every
    entry to its wire, when these wires exist and are unsolved. *)
Lemma bls_setOutputs_written (outputs : list Z) :
  ∀ (s : bls12_381.solver modulus) (start i : Z),
    0 ≤ start + i →
    start + i + Z.of_nat (length outputs)
      ≤ Z.of_nat (length (bls12_381.values s)) →
    (∀ j : nat, (j < length outputs)%nat →
       bls12_381.solved s !! (Z.to_nat (start + i) + j)%nat = Some false) →
    ∃ s',
      bls12_381.setOutputs s start i outputs = Ok s' ∧
      length (bls12_381.values s') = length (bls12_381.values s) ∧
      (∀ (j : nat) (o : Z), outputs !! j = Some o →
         bls12_381.values s' !! (Z.to_nat (start + i) + j)%nat
         = Some (Zmod.of_Z modulus o) ∧
         bls12_381.solved s' !! (Z.to_nat (start + i) + j)%nat = Some true) ∧
      (∀ k : nat, (k < Z.to_nat (start + i))%nat →
         bls12_381.values s' !! k = bls12_381.values s !! k ∧
         bls12_381.solved s' !! k = bls12_381.solved s !! k).
Proof.
  induction outputs as [|o outputs IH]; intros s start i Hpos Hlen Hfree.
  - exists s. simpl. split_and!; [done|done| |done]. intros j o' Hj. done.
  - simpl in *.
    assert (bls12_381.solved s !! Z.to_nat (start + i) = Some false) as Hflag.
    { rewrite <- (Nat.add_0_r (Z.to_nat _)). apply Hfree. lia. }
    rewrite bls_set_unsolved by (done || lia). simpl.
    set (s1 := bls12_381.with_store _ _ _ _).
    destruct (IH s1 start (i + 1)) as (s' & Hs' & Hlen' & Hwritten & Hkept).
    + lia.
    + subst s1. simpl. rewrite length_insert. lia.
    + intros j Hj. subst s1. simpl. rewrite list_lookup_insert_ne by lia.
      replace (Z.to_nat (start + (i + 1)) + j)%nat
        with (Z.to_nat (start + i) + S j)%nat by lia.
      apply Hfree. lia.
    + exists s'. split; [exact Hs'|]. split_and!.
      * rewrite Hlen'. subst s1. simpl. apply length_insert.
      * intros [|j] o' Hj.
        -- simpl in Hj. injection Hj as <-. rewrite Nat.add_0_r.
           destruct (Hkept (Z.to_nat (start + i))) as [-> ->]; [lia|].
           subst s1. simpl. split; apply list_lookup_insert_eq; [lia|].
           by eapply lookup_lt_Some.
        -- simpl in Hj.
           replace (Z.to_nat (start + i) + S j)%nat
             with (Z.to_nat (start + (i + 1)) + j)%nat by lia.
           by apply Hwritten.
      * intros k Hk. destruct (Hkept k) as [-> ->]; [lia|].
        subst s1. simpl. split; apply list_lookup_insert_ne; lia.
Qed.

(** The same for [solution.solveWithHint], whose output wires are listed in
    [h.Wires]. *)
Lemma bn_setOutputs_written (outputs : list Z) :
  ∀ (s : bn254.solution modulus) (wires : list Z) (i : Z),
    0 ≤ i →
    NoDup wires →
    (Z.to_nat i + length outputs ≤ length wires)%nat →
    (∀ (j : nat) (w : Z), wires !! j = Some w → (Z.to_nat i ≤ j)%nat →
       0 ≤ w < Z.of_nat (length (bn254.values s)) ∧
       bn254.solved s !! Z.to_nat w = Some false) →
    ∃ s',
      bn254.setOutputs s wires i outputs = Ok s' ∧
      length (bn254.values s') = length (bn254.values s) ∧
      (∀ (j : nat) (w o : Z),
         outputs !! j = Some o → wires !! (Z.to_nat i + j)%nat = Some w →
         bn254.values s' !! Z.to_nat w = Some (Zmod.of_Z modulus o) ∧
         bn254.solved s' !! Z.to_nat w = Some true) ∧
      (∀ k : nat,
         (∀ (j : nat) (w : Z), wires !! j = Some w → (Z.to_nat i ≤ j)%nat →
            Z.to_nat w ≠ k) →
         bn254.values s' !! k = bn254.values s !! k ∧
         bn254.solved s' !! k = bn254.solved s !! k).
Proof.
  induction outputs as [|o outputs IH]; intros s wires i Hi Hnodup Hlen Hfree.
  - exists s. simpl. split_and!; [done|done| |done]. intros j w o' Hj. done.
  - simpl in *.
    destruct (lookup_lt_is_Some_2 wires (Z.to_nat i)) as [w0 Hw0]; [lia|].
    destruct (Hfree _ _ Hw0) as [Hrange Hflag]; [lia|].
    rewrite (index_lookup _ _ _ Hi Hw0). simpl.
    rewrite bn_set_unsolved by done. simpl.
    set (s1 := bn254.with_store _ _ _ _).
    assert (∀ (j : nat) (w : Z), wires !! j = Some w → (Z.to_nat (i + 1) ≤ j)%nat →
              Z.to_nat w ≠ Z.to_nat w0) as Hother.
    { intros j w Hw Hj Heq.
      destruct (Hfree _ _ Hw) as [Hrange' _]; [lia|].
      assert (w = w0) as -> by lia.
      pose proof (NoDup_lookup _ _ _ _ Hnodup Hw Hw0). lia. }
    destruct (IH s1 wires (i + 1)) as (s' & Hs' & Hlen' & Hwritten & Hkept).
    + lia.
    + done.
    + lia.
    + intros j w Hw Hj. destruct (Hfree _ _ Hw) as [Hrange' Hflag']; [lia|].
      subst s1. simpl. rewrite length_insert. split; [done|].
      rewrite list_lookup_insert_ne; [done|]. intros Heq.
      by apply (Hother j w Hw Hj).
    + exists s'. split; [exact Hs'|]. split_and!.
      * rewrite Hlen'. subst s1. simpl. apply length_insert.
      * intros [|j] w o' Hj Hw.
        -- simpl in Hj. injection Hj as <-. rewrite Nat.add_0_r in Hw.
           assert (w = w0) as -> by congruence.
           destruct (Hkept (Z.to_nat w0)) as [-> ->]; [done|].
           subst s1. simpl. split; apply list_lookup_insert_eq; [lia|].
           by eapply lookup_lt_Some.
        -- simpl in Hj. eapply Hwritten; [done|].
           by replace (Z.to_nat (i + 1) + j)%nat with (Z.to_nat i + S j)%nat by lia.
      * intros k Hk. destruct (Hkept k) as [-> ->].
        -- intros j w Hw Hj. apply (Hk j w Hw). lia.
        -- subst s1. simpl.
           assert (Z.to_nat w0 ≠ k) by (apply (Hk _ _ Hw0); lia).
           split; by apply list_lookup_insert_ne.
Qed.

End HintOutputs.

Section HintError.
Context {modulus modulus' : Z} {tag : ConstantTag}.

Lemma bls_solveWithHint_outputs (s : bls12_381.solver modulus) (h : HintMapping)
    (f : HintFunction) (inputs outputs : list Z) (err : option error) :
  let nbOutputs :=
    Z.to_nat (uint32_sub (OutputRange_End h) (OutputRange_Start h)) in
  bls12_381.mHintsFunctions s !! HintID h = Some f →
  bls12_381.evalInputs s (Inputs h) = Ok inputs →
  callHint f (bls12_381.q s) inputs nbOutputs = (outputs, err) →
  free_range (bls12_381.values s) (bls12_381.solved s) (OutputRange_Start h)
    nbOutputs →
  ∃ s',
    bls12_381.solveWithHint s h
    = match err with None => Ret s' () | Some e => Err s' e end ∧
    outputs_written (bls12_381.values s') (bls12_381.solved s')
      (seqZ (OutputRange_Start h) (Z.of_nat nbOutputs)) outputs.
Proof.
  intros nbOutputs Hf Hin Hcall (Hstart & Hlen & Hfree).
  pose proof (callHint_length _ _ _ _ _ _ Hcall) as Hcount.
  destruct (bls_setOutputs_written outputs s (OutputRange_Start h) 0)
    as (s' & Hs' & _ & Hwritten & _).
  - lia.
  - lia.
  - intros j Hj. rewrite Z.add_0_r. apply Hfree. lia.
  - exists s'. split.
    + unfold bls12_381.solveWithHint. rewrite Hf, Hin. simpl.
      fold nbOutputs. rewrite Hcall, Hs'. simpl. by destruct err.
    + intros j w o Hw Ho. apply lookup_seqZ in Hw as [-> _].
      rewrite Z.add_0_r in Hwritten.
      replace (Z.to_nat (OutputRange_Start h + Z.of_nat j))
        with (Z.to_nat (OutputRange_Start h) + j)%nat by lia.
      by apply Hwritten.
Qed.

Lemma bn_solveWithHint_outputs (u u1 : bn254.solution modulus') (fuel : nat)
    (vID : Z) (g : Hint) (f : HintFunction) (inputs outputs : list Z)
    (err : option error) :
  0 ≤ vID →
  bn254.solved u !! Z.to_nat vID = Some false →
  bn254.mHintsFunctions u !! ID g = Some f →
  bn254.evalInputs (bn254.solveWithHint fuel) u (Hint_Inputs g) = Ret u1 inputs →
  callHint f modulus' inputs (length (Wires g)) = (outputs, err) →
  free_wires (bn254.values u1) (bn254.solved u1) (Wires g) →
  ∃ u',
    bn254.solveWithHint (S fuel) u vID g
    = match err with None => Ret u' () | Some e => Err u' e end ∧
    outputs_written (bn254.values u') (bn254.solved u') (Wires g) outputs.
Proof.
  intros HvID Hflag Hf Hin Hcall (Hnodup & Hfree).
  pose proof (callHint_length _ _ _ _ _ _ Hcall) as Hcount.
  destruct (bn_setOutputs_written outputs u1 (Wires g) 0)
    as (u' & Hu' & _ & Hwritten & _).
  - lia.
  - done.
  - simpl. lia.
  - intros j w Hw _. by apply (Hfree j).
  - exists u'. split.
    + simpl. unfold bn254.solveWithHint_body.
      rewrite (index_lookup _ _ _ HvID Hflag). simpl.
      rewrite Hf, Hin. simpl. rewrite Hcall, Hu'. simpl. by destruct err.
    + intros j w o Hw Ho. by apply (Hwritten j).
Qed.

(** C10: when the hint function returns an error [e], [solveWithHint] has
    written every entry of the output buffer, reduced to a field element, to
    its output wire and has marked that wire solved, and then returns [e].
    Both for [solver.solveWithHint], whose output wires are the range of the
    hint mapping, and for [solution.solveWithHint], whose output wires are
    [h.Wires]; the output wires exist and are unsolved when the hint is
    called. *)
Theorem hint_error_after_outputs (s : bls12_381.solver modulus) (h : HintMapping)
    (f : HintFunction) (inputs outputs : list Z) (e : error)
    (u u1 : bn254.solution modulus') (fuel : nat) (vID : Z) (g : Hint)
    (f' : HintFunction) (inputs' outputs' : list Z) (e' : error) :
  let nbOutputs :=
    Z.to_nat (uint32_sub (OutputRange_End h) (OutputRange_Start h)) in
  bls12_381.mHintsFunctions s !! HintID h = Some f →
  bls12_381.evalInputs s (Inputs h) = Ok inputs →
  callHint f (bls12_381.q s) inputs nbOutputs = (outputs, Some e) →
  free_range (bls12_381.values s) (bls12_381.solved s) (OutputRange_Start h)
    nbOutputs →
  0 ≤ vID →
  bn254.solved u !! Z.to_nat vID = Some false →
  bn254.mHintsFunctions u !! ID g = Some f' →
  bn254.evalInputs (bn254.solveWithHint fuel) u (Hint_Inputs g) = Ret u1 inputs' →
  callHint f' modulus' inputs' (length (Wires g)) = (outputs', Some e') →
  free_wires (bn254.values u1) (bn254.solved u1) (Wires g) →
  (∃ s',
     bls12_381.solveWithHint s h = Err s' e ∧
     length outputs = nbOutputs ∧
     outputs_written (bls12_381.values s') (bls12_381.solved s')
       (seqZ (OutputRange_Start h) (Z.of_nat nbOutputs)) outputs) ∧
  (∃ u',
     bn254.solveWithHint (S fuel) u vID g = Err u' e' ∧
     length outputs' = length (Wires g) ∧
     outputs_written (bn254.values u') (bn254.solved u') (Wires g) outputs').
Proof.
  intros nbOutputs Hf Hin Hcall Hfree HvID Hflag Hf' Hin' Hcall' Hfree'. split.
  - destruct (bls_solveWithHint_outputs s h f inputs outputs (Some e)
                Hf Hin Hcall Hfree) as (s' & Hs' & Hwritten).
    exists s'. split_and!; [done| |done]. by eapply callHint_length.
  - destruct (bn_solveWithHint_outputs u u1 fuel vID g f' inputs' outputs' (Some e')
                HvID Hflag Hf' Hin' Hcall' Hfree') as (u' & Hu' & Hwritten).
    exists u'. split_and!; [done| |done]. by eapply callHint_length.
Qed.

End HintError.

(** [hint_error_after_outputs] on the sample stores, for the failing hint on
    the input [x] with the output wires [y] and [z]: both end with value 5,
    and the error of the hint is returned. *)
Lemma hint_error_after_outputs_witness :
  (∃ s', bls12_381.solveWithHint (tag := Sample.tagMaxUint32) Sample.solver381
           (mkHintMapping 11 [[mkTerm 1 1]] 2 4)
         = Err s' (errorString "hint failed") ∧
     bls12_381.values s' !! 2%nat = Some (Zmod.of_Z _ 5) ∧
     bls12_381.solved s' !! 3%nat = Some true) ∧
  (∃ u', bn254.solveWithHint (tag := Sample.tagMaxUint32) 1 Sample.solution254 2
           (mkHint 11 [[mkTerm 1 1]] [2; 3])
         = Err u' (errorString "hint failed") ∧
     bn254.values u' !! 2%nat = Some (Zmod.of_Z _ 5) ∧
     bn254.solved u' !! 3%nat = Some true).
Proof.
  destruct (hint_error_after_outputs (tag := Sample.tagMaxUint32)
              Sample.solver381 (mkHintMapping 11 [[mkTerm 1 1]] 2 4)
              Sample.failing [3] [5; 5] (errorString "hint failed")
              Sample.solution254 Sample.solution254 0 2
              (mkHint 11 [[mkTerm 1 1]] [2; 3])
              Sample.failing [3] [5; 5] (errorString "hint failed"))
    as [(s' & Hs' & _ & Hwritten) (u' & Hu' & _ & Hwritten')].
  - reflexivity.
  - reflexivity.
  - reflexivity.
  - repeat split; [by vm_compute..|].
    intros [|[|j]] Hj; [reflexivity..|vm_compute in Hj; lia].
  - lia.
  - reflexivity.
  - reflexivity.
  - reflexivity.
  - reflexivity.
  - split.
    + apply (bool_decide_unpack _). reflexivity.
    + intros [|[|j]] w [= <-]; (split; [simpl; lia|reflexivity]).
  - split.
    + exists s'. split; [exact Hs'|].
      split; [apply (Hwritten 0%nat 2 5)|apply (Hwritten 1%nat 3 5)]; reflexivity.
    + exists u'. split; [exact Hu'|].
      split; [apply (Hwritten' 0%nat 2 5)|apply (Hwritten' 1%nat 3 5)]; reflexivity.
Defined.

Section ShortCircuit.
Context {modulus modulus' : Z} {tag : ConstantTag}.

Lemma bls_setOutputs_solved (s : bls12_381.solver modulus) (start : Z)
    (o : Z) (outputs : list Z) :
  0 ≤ start →
  bls12_381.solved s !! Z.to_nat start = Some true →
  bls12_381.setOutputs s start 0 (o :: outputs)
  = Panic "solving the same wire twice should never happen.".
Proof.
  intros Hstart Hflag. simpl. rewrite Z.add_0_r.
  by rewrite bls_set_solved.
Qed.

(** C1, as the code has it: [solution.solveWithHint] (bn254) returns nil at
    once, with the solution as it was, when the wire [vID] it is asked to
    solve is already solved, whether or not a function is registered for the
    hint. [solver.solveWithHint] (bls12-381) has no such guard: it first
    looks the function up (and returns the missing-function error without
    it), evaluates the inputs and calls the function, and then panics in
    [set] on the first output wire when that wire is already solved. *)
Theorem hint_short_circuit (u : bn254.solution modulus') (fuel : nat) (vID : Z)
    (g : Hint) (s : bls12_381.solver modulus) (h : HintMapping) :
  0 ≤ vID →
  0 ≤ OutputRange_Start h →
  (bn254.solved u !! Z.to_nat vID = Some true →
   bn254.solveWithHint (S fuel) u vID g = Ret u ()) ∧
  (bls12_381.mHintsFunctions s !! HintID h = None →
   bls12_381.solveWithHint s h = Err s (errorString "missing hint function")) ∧
  (∀ (f : HintFunction) (inputs : list Z),
     bls12_381.mHintsFunctions s !! HintID h = Some f →
     bls12_381.evalInputs s (Inputs h) = Ok inputs →
     uint32_sub (OutputRange_End h) (OutputRange_Start h) > 0 →
     bls12_381.solved s !! Z.to_nat (OutputRange_Start h) = Some true →
     bls12_381.solveWithHint s h
     = Crash "solving the same wire twice should never happen.").
Proof.
  intros HvID Hstart. split_and!.
  - intros Hflag. simpl. unfold bn254.solveWithHint_body.
    by rewrite (index_lookup _ _ _ HvID Hflag).
  - intros Hf. unfold bls12_381.solveWithHint. by rewrite Hf.
  - intros f inputs Hf Hin Hn Hflag. unfold bls12_381.solveWithHint.
    rewrite Hf, Hin. simpl.
    destruct (callHint f _ inputs _) as [outputs err] eqn:Hcall.
    pose proof (callHint_length _ _ _ _ _ _ Hcall) as Hcount.
    destruct outputs as [|o outputs]; [simpl in Hcount; lia|].
    by rewrite bls_setOutputs_solved.
Qed.

End ShortCircuit.

(** [hint_short_circuit] on the sample stores: the solved wire [x] as the
    wire to solve of the [solution], and as the only output wire of a hint
    mapping of the [solver]. *)
Lemma hint_short_circuit_witness :
  bn254.solveWithHint (tag := Sample.tagMaxUint32) 1 Sample.solution254 1
    (mkHint 10 [[mkTerm 1 1]] [1])
  = Ret Sample.solution254 () ∧
  bls12_381.solveWithHint (tag := Sample.tagMaxUint32) Sample.solver381
    (mkHintMapping 10 [[mkTerm 1 1]] 1 2)
  = Crash "solving the same wire twice should never happen.".
Proof.
  destruct (hint_short_circuit (tag := Sample.tagMaxUint32)
              Sample.solution254 0 1 (mkHint 10 [[mkTerm 1 1]] [1])
              Sample.solver381 (mkHintMapping 10 [[mkTerm 1 1]] 1 2))
    as (Hbn & _ & Hbls); [simpl; lia..|].
  split.
  - apply Hbn. reflexivity.
  - apply (Hbls Sample.double [3]); [reflexivity|reflexivity|by vm_compute|reflexivity].
Defined.

(** The only output wire of this hint mapping of the [solver] is the solved
    wire [x]: [solveWithHint] does not return successfully, it panics; and
    with an unregistered hint id it returns the missing-function error, so
    the function is looked up although the output wire is solved. *)
Lemma hint_short_circuit_counterexample :
  let h := mkHintMapping 10 [[mkTerm 1 1]] 1 2 in
  let h' := mkHintMapping 99 [[mkTerm 1 1]] 1 2 in
  bls12_381.solved Sample.solver381 !! Z.to_nat (OutputRange_Start h) = Some true ∧
  bls12_381.solveWithHint (tag := Sample.tagMaxUint32) Sample.solver381 h
  = Crash "solving the same wire twice should never happen." ∧
  bls12_381.solveWithHint (tag := Sample.tagMaxUint32) Sample.solver381 h'
  = Err Sample.solver381 (errorString "missing hint function").
Proof. split_and!; reflexivity. Qed.

Section HintRecursion.
Context {modulus modulus' : Z} {tag : ConstantTag}.
Implicit Types (u : bn254.solution modulus') (t : Term) (v : Zmod modulus')
  (s : bls12_381.solver modulus).

(** The input loop of [solver.solveWithHint] is the accumulation of the
    terms with [accumulateInto], whose own branch on constants is the one of
    the loop. *)
Lemma bls_evalInput_accumulated s (le : LinearExpression) :
  ∀ w : Zmod modulus, bls12_381.evalInput s le w = accumulated s le w.
Proof.
  induction le as [|t le IH]; intros w; simpl; [done|].
  assert ((if IsConstant t
           then let! k := index (bls12_381.Coefficients (bls12_381.sys s))
                            (CoeffID t) in Ok (Zmod.add w k)
           else bls12_381.accumulateInto s t w)
          = bls12_381.accumulateInto s t w) as ->.
  { unfold bls12_381.accumulateInto. by destruct (IsConstant t). }
  destruct (bls12_381.accumulateInto s t w); cbn [rbind]; [apply IH|done].
Qed.

(** That loop reads the system and the values, not the flags or the
    counter. *)
Lemma bls_evalInputs_flags s (flags : list bool) (nb : Z)
    (ins : list LinearExpression) :
  bls12_381.evalInputs (bls12_381.with_store s (bls12_381.values s) flags nb) ins
  = bls12_381.evalInputs s ins.
Proof.
  assert (∀ le (w : Zmod modulus),
    bls12_381.evalInput (bls12_381.with_store s (bls12_381.values s) flags nb) le w
    = bls12_381.evalInput s le w) as Hle.
  { induction le as [|t le IH]; intros w; simpl; [done|].
    change (bls12_381.accumulateInto
              (bls12_381.with_store s (bls12_381.values s) flags nb) t w)
      with (bls12_381.accumulateInto s t w).
    destruct (if IsConstant t then _ else _); cbn [rbind]; [apply IH|done]. }
  induction ins as [|le ins IH]; simpl; [done|]. by rewrite Hle, IH.
Qed.

(** The inputs handed to the hint function are the totals of the input
    expressions. *)
Lemma bls_evalInputs_totals s (ins : list LinearExpression) (inputs : list Z) :
  Forall2 (λ le i, ∃ vi, accumulated s le Zmod.zero = Ok vi ∧ i = Zmod.to_Z vi)
    ins inputs →
  bls12_381.evalInputs s ins = Ok inputs.
Proof.
  induction 1 as [|le i ins inputs (vi & Hvi & ->) _ IH]; simpl; [done|].
  by rewrite bls_evalInput_accumulated, Hvi, IH.
Qed.

(** C2, as the code has it: in [solution.solveWithHint] (bn254), on a
    non-constant term over an unsolved wire the loop over the terms of an
    input first calls [solveWithHint] on that wire and the hint that outputs
    it, and accumulates the term afterwards, in the solution the call leaves
    (an error of the call is returned as it is); when no hint outputs the
    wire it panics, and so does [solveWithHint] on a hint whose first input
    starts with such a term. [solver.solveWithHint] (bls12-381) has neither
    the recursion nor the panic: for every solver its input loop is the
    accumulation of the terms with [accumulateInto], which does not depend
    on the flags; a term like [t] adds its coefficient times the value the
    wire holds, solved or not; and when the inputs accumulate, the hint
    function is called on their totals and its outputs are set in the
    solver as it was, no wire having been solved before. *)
Theorem hint_input_recursion u (fuel : nat) t (rest : LinearExpression) v s :
  IsConstant t = false →
  0 ≤ WireID t →
  bn254.solved u !! Z.to_nat (WireID t) = Some false →
  (∀ g : Hint, bn254.mHints u !! WireID t = Some g →
     bn254.evalInput (bn254.solveWithHint fuel) u (t :: rest) v
     = match bn254.solveWithHint fuel u (WireID t) g with
       | Ret u1 _ =>
           match bn254.accumulateInto u1 t v with
           | Ok v' => bn254.evalInput (bn254.solveWithHint fuel) u1 rest v'
           | Panic msg => Crash msg
           end
       | Err u1 e => Err u1 e
       | Crash msg => Crash msg
       | Timeout => Timeout
       end) ∧
  (bn254.mHints u !! WireID t = None →
   bn254.evalInput (bn254.solveWithHint fuel) u (t :: rest) v
   = Crash unsolved_input ∧
   ∀ (vID : Z) (h : Hint) (f : HintFunction) (ins : list LinearExpression),
     0 ≤ vID →
     bn254.solved u !! Z.to_nat vID = Some false →
     bn254.mHintsFunctions u !! ID h = Some f →
     Hint_Inputs h = (t :: rest) :: ins →
     bn254.solveWithHint (S fuel) u vID h = Crash unsolved_input) ∧
  (∀ (le : LinearExpression) (w : Zmod modulus),
     bls12_381.evalInput s le w = accumulated s le w) ∧
  (∀ (flags : list bool) (nb : Z) (ins : list LinearExpression),
     bls12_381.evalInputs
       (bls12_381.with_store s (bls12_381.values s) flags nb) ins
     = bls12_381.evalInputs s ins) ∧
  (∀ (k x w : Zmod modulus) (le : LinearExpression),
     reserved_coefficients (bls12_381.Coefficients (bls12_381.sys s)) →
     0 ≤ CoeffID t →
     bls12_381.Coefficients (bls12_381.sys s) !! Z.to_nat (CoeffID t) = Some k →
     bls12_381.values s !! Z.to_nat (WireID t) = Some x →
     bls12_381.evalInput s (t :: le) w
     = bls12_381.evalInput s le (Zmod.add w (Zmod.mul k x))) ∧
  (∀ (h : HintMapping) (f : HintFunction) (inputs : list Z),
     bls12_381.mHintsFunctions s !! HintID h = Some f →
     Forall2 (λ le i, ∃ vi, accumulated s le Zmod.zero = Ok vi ∧ i = Zmod.to_Z vi)
       (Inputs h) inputs →
     bls12_381.solveWithHint s h
     = let '(outputs, err) :=
         callHint f (bls12_381.q s) inputs
           (Z.to_nat (uint32_sub (OutputRange_End h) (OutputRange_Start h))) in
       match bls12_381.setOutputs s (OutputRange_Start h) 0 outputs with
       | Ok s' => match err with None => Ret s' () | Some e => Err s' e end
       | Panic msg => Crash msg
       end).
Proof.
  intros Hc Hvid Hflag.
  assert (∀ rec, bn254.recursiveSolve rec u t
                 = match bn254.mHints u !! WireID t with
                   | Some g => rec u (WireID t) g
                   | None => Crash unsolved_input
                   end) as Hrec.
  { intros rec. unfold bn254.recursiveSolve. rewrite Hc.
    by rewrite (index_lookup _ _ _ Hvid Hflag). }
  split_and!.
  - intros g Hg. simpl. rewrite Hrec, Hg.
    destruct (bn254.solveWithHint fuel u (WireID t) g) as [u1 []|u1 e|msg|];
      simpl; [|done..].
    by destruct (bn254.accumulateInto u1 t v).
  - intros Hnone.
    assert (bn254.evalInput (bn254.solveWithHint fuel) u (t :: rest) Zmod.zero
            = Crash unsolved_input) as Hfirst
      by (simpl; by rewrite Hrec, Hnone).
    split; [simpl; by rewrite Hrec, Hnone|].
    intros vID h f ins HvID Hunsolved Hf Hins. simpl.
    unfold bn254.solveWithHint_body.
    rewrite (index_lookup _ _ _ HvID Hunsolved). simpl. rewrite Hf, Hins.
    cbn [bn254.evalInputs]. by rewrite Hfirst.
  - apply bls_evalInput_accumulated.
  - apply bls_evalInputs_flags.
  - intros k x w le Htab Hcid Hk Hx.
    cbn [bls12_381.evalInput]. rewrite Hc.
    by rewrite (bls_accumulateInto_generic s t k x w Htab Hc Hcid Hvid Hk Hx).
  - intros h f inputs Hf Hins. unfold bls12_381.solveWithHint.
    rewrite Hf, (bls_evalInputs_totals s (Inputs h) inputs Hins).
    cbn [lift obind].
    destruct (callHint f (bls12_381.q s) inputs _) as [outputs err].
    by destruct (bls12_381.setOutputs s (OutputRange_Start h) 0 outputs).
Qed.

End HintRecursion.

(** [hint_input_recursion] on the sample solution: the input [y] of the hint
    of [z] is unsolved and is the output of the doubling hint on [x = 3], so
    the evaluation of the input first solves [y = 6]. On the sample solver
    the input [y + 2 * x] with [y] unsolved evaluates to [0 + 6]. *)
Lemma hint_input_recursion_witness :
  (∃ u1, bn254.evalInput (tag := Sample.tagMaxUint32)
           (bn254.solveWithHint (tag := Sample.tagMaxUint32) 1)
           Sample.solution254 [mkTerm 1 2] Zmod.zero
         = Ret u1 (Zmod.of_Z _ 6) ∧
     bn254.values u1 !! 2%nat = Some (Zmod.of_Z _ 6)) ∧
  bls12_381.solved Sample.solver381 !! 2%nat = Some false ∧
  bls12_381.evalInput (tag := Sample.tagMaxUint32) Sample.solver381
    [mkTerm 1 2; mkTerm 2 1] Zmod.zero
  = Ok (Zmod.of_Z _ 6).
Proof.
  destruct (hint_input_recursion (tag := Sample.tagMaxUint32)
              Sample.solution254 1 (mkTerm 1 2) [] Zmod.zero Sample.solver381)
    as (Hhint & _ & _ & _ & Hterm & _);
    [reflexivity|simpl; lia|reflexivity|].
  split_and!.
  - eexists.
    split; [rewrite (Hhint _ eq_refl); vm_compute; reflexivity|reflexivity].
  - reflexivity.
  - rewrite (Hterm Zmod.one Zmod.zero Zmod.zero [mkTerm 2 1]);
      [vm_compute; reflexivity|repeat split; reflexivity
      |simpl; lia|reflexivity|reflexivity].
Defined.

(** Chained hints end to end: [z] is the double of [y], which is the double
    of [x = 3]; asking for [z] solves both, with enough fuel for the one
    nested call. *)
Example chained_hints :
  ∃ u', bn254.solveWithHint (tag := Sample.tagMaxUint32) 2 Sample.solution254 3
          (mkHint 10 [[mkTerm 1 2]] [3]) = Ret u' () ∧
    bn254.values u' = [Zmod.one; Zmod.of_Z _ 3; Zmod.of_Z _ 6; Zmod.of_Z _ 12] ∧
    bn254.solved u' = [true; true; true; true] ∧
    bn254.nbSolved u' = 4.
Proof. eexists. split; [vm_compute; reflexivity|]. split_and!; reflexivity. Qed.

(** The input [y] of this hint mapping of the [solver] is unsolved and no
    hint is run for it: [solveWithHint] neither recurses nor panics, it
    reads the zero stored for [y], calls the hint with it and sets [z]. *)
Lemma hint_input_recursion_counterexample :
  let h := mkHintMapping 10 [[mkTerm 1 2]] 3 4 in
  IsConstant (ConstantTag := Sample.tagMaxUint32) (mkTerm 1 2) = false ∧
  bls12_381.solved Sample.solver381 !! 2%nat = Some false ∧
  ∃ s', bls12_381.solveWithHint (tag := Sample.tagMaxUint32) Sample.solver381 h
        = Ret s' () ∧
    bls12_381.solved s' !! 2%nat = Some false ∧
    bls12_381.values s' !! 3%nat = Some Zmod.zero ∧
    bls12_381.solved s' !! 3%nat = Some true.
Proof.
  intros h. split; [reflexivity|]. split; [reflexivity|].
  eexists. split; [vm_compute; reflexivity|]. split_and!; reflexivity.
Qed.

(** ** The invariant of the value store *)
Section StoreInvariant.
Context {modulus modulus' : Z}.

Lemma count_solved_cons (flag : bool) (solved : list bool) :
  count_solved (flag :: solved)
  = (if flag then 1 else 0) + count_solved solved.
Proof.
  unfold count_solved. rewrite filter_cons. destruct flag.
  - rewrite decide_True by done. simpl. lia.
  - rewrite decide_False by done. lia.
Qed.

Lemma count_solved_bounds (solved : list bool) :
  0 ≤ count_solved solved ≤ Z.of_nat (length solved).
Proof.
  induction solved as [|flag solved IH]; [done|].
  rewrite count_solved_cons. destruct flag; simpl; lia.
Qed.

Lemma count_solved_insert (solved : list bool) (i : nat) :
  solved !! i = Some false →
  count_solved (<[i := true]> solved) = count_solved solved + 1.
Proof.
  revert i. induction solved as [|flag solved IH]; intros [|i] Hi; try done.
  - simpl in Hi. injection Hi as ->. simpl. rewrite !count_solved_cons. lia.
  - simpl in *. rewrite !count_solved_cons, (IH i Hi). lia.
Qed.

Lemma count_solved_unsolved (solved : list bool) (i : nat) :
  solved !! i = Some false → count_solved solved < Z.of_nat (length solved).
Proof.
  revert i. induction solved as [|flag solved IH]; intros [|i] Hi; try done.
  - simpl in Hi. injection Hi as ->. rewrite count_solved_cons.
    pose proof (count_solved_bounds solved). simpl. lia.
  - simpl in Hi. rewrite count_solved_cons. specialize (IH i Hi).
    destruct flag; simpl; lia.
Qed.

(** The counter reaches the number of wires exactly when all are solved. *)
Lemma count_solved_all (solved : list bool) :
  count_solved solved = Z.of_nat (length solved) ↔ Forall (λ flag, flag = true) solved.
Proof.
  induction solved as [|flag solved IH]; [by split|].
  rewrite count_solved_cons, Forall_cons.
  pose proof (count_solved_bounds solved).
  destruct flag; simpl; split.
  - intros Hc. split; [done|]. apply IH. lia.
  - intros [_ Hall]. apply IH in Hall. lia.
  - lia.
  - by intros [? _].
Qed.

Lemma store_ok_insert {E : Type} (values : list E) (solved : list bool)
    (nbSolved : Z) (i : nat) (value : E) :
  store_ok values solved nbSolved →
  solved !! i = Some false →
  store_ok (<[i := value]> values) (<[i := true]> solved)
    (atomic_AddUint64 nbSolved 1).
Proof.
  intros (Hlen & Hcount & Hint) Hflag. split_and!.
  - by rewrite !length_insert.
  - rewrite count_solved_insert by done. subst nbSolved.
    apply atomic_AddUint64_succ.
    pose proof (count_solved_bounds solved).
    pose proof (count_solved_unsolved solved i Hflag). lia.
  - by rewrite length_insert.
Qed.

Lemma index_Ok_inv {A} (l : list A) (i : Z) (x : A) :
  index l i = Ok x → 0 ≤ i ∧ l !! Z.to_nat i = Some x.
Proof. apply index_Ok. Qed.

Lemma assign_Ok_inv {A} (l l' : list A) (i : Z) (x : A) :
  assign l i x = Ok l' → 0 ≤ i < Z.of_nat (length l) ∧ l' = <[Z.to_nat i := x]> l.
Proof. unfold assign. case_decide; [|done]. by intros [= <-]. Qed.

Lemma bls_set_Ok_inv (s s' : bls12_381.solver modulus) (id : Z)
    (value : Zmod modulus) :
  bls12_381.set s id value = Ok s' →
  0 ≤ id ∧ bls12_381.solved s !! Z.to_nat id = Some false ∧
  s' = bls12_381.with_store s (<[Z.to_nat id := value]> (bls12_381.values s))
         (<[Z.to_nat id := true]> (bls12_381.solved s))
         (atomic_AddUint64 (bls12_381.nbSolved s) 1).
Proof.
  unfold bls12_381.set.
  destruct (index (bls12_381.solved s) id) as [[]|] eqn:Hflag; simpl; [done| |done].
  apply index_Ok_inv in Hflag as [Hid Hflag].
  destruct (assign (bls12_381.values s) id value) as [values'|] eqn:Hv;
    simpl; [|done].
  destruct (assign (bls12_381.solved s) id true) as [solved'|] eqn:Hs;
    simpl; [|done].
  apply assign_Ok_inv in Hv as [_ ->]. apply assign_Ok_inv in Hs as [_ ->].
  by intros [= <-].
Qed.

Lemma bn_set_Ok_inv (u u' : bn254.solution modulus') (id : Z)
    (value : Zmod modulus') :
  bn254.set u id value = Ok u' →
  0 ≤ id ∧ bn254.solved u !! Z.to_nat id = Some false ∧
  u' = bn254.with_store u (<[Z.to_nat id := value]> (bn254.values u))
         (<[Z.to_nat id := true]> (bn254.solved u))
         (atomic_AddUint64 (bn254.nbSolved u) 1).
Proof.
  unfold bn254.set.
  destruct (index (bn254.solved u) id) as [[]|] eqn:Hflag; simpl; [done| |done].
  apply index_Ok_inv in Hflag as [Hid Hflag].
  destruct (assign (bn254.values u) id value) as [values'|] eqn:Hv;
    simpl; [|done].
  destruct (assign (bn254.solved u) id true) as [solved'|] eqn:Hs;
    simpl; [|done].
  apply assign_Ok_inv in Hv as [_ ->]. apply assign_Ok_inv in Hs as [_ ->].
  by intros [= <-].
Qed.

Lemma bls_set_ok (s s' : bls12_381.solver modulus) (id : Z)
    (value : Zmod modulus) :
  solver_ok s → bls12_381.set s id value = Ok s' → solver_ok s'.
Proof.
  intros Hok Hset. apply bls_set_Ok_inv in Hset as (_ & Hflag & ->).
  by apply store_ok_insert.
Qed.

Lemma bn_set_ok (u u' : bn254.solution modulus') (id : Z)
    (value : Zmod modulus') :
  solution_ok u → bn254.set u id value = Ok u' → solution_ok u'.
Proof.
  intros Hok Hset. apply bn_set_Ok_inv in Hset as (_ & Hflag & ->).
  by apply store_ok_insert.
Qed.

End StoreInvariant.

Section SolveInvariant.
Context {modulus modulus' : Z} {tag : ConstantTag} {str : ElementString modulus}
  {fmt : Formatter}.

Lemma bls_setOutputs_ok (outputs : list Z) :
  ∀ (s s' : bls12_381.solver modulus) (start i : Z),
    solver_ok s → bls12_381.setOutputs s start i outputs = Ok s' → solver_ok s'.
Proof.
  induction outputs as [|o outputs IH]; intros s s' start i Hok; simpl.
  - by intros [= <-].
  - destruct (bls12_381.set s (start + i) _) as [s1|] eqn:Hset; simpl; [|done].
    apply IH. by eapply bls_set_ok.
Qed.

Lemma bn_setOutputs_ok (outputs : list Z) :
  ∀ (u u' : bn254.solution modulus') (wires : list Z) (i : Z),
    solution_ok u → bn254.setOutputs u wires i outputs = Ok u' → solution_ok u'.
Proof.
  induction outputs as [|o outputs IH]; intros u u' wires i Hok; simpl.
  - by intros [= <-].
  - destruct (index wires i) as [w|]; simpl; [|done].
    destruct (bn254.set u w _) as [u1|] eqn:Hset; simpl; [|done].
    apply IH. by eapply bn_set_ok.
Qed.

Lemma bls_solveWithHint_ok (s : bls12_381.solver modulus) (h : HintMapping) :
  solver_ok s → leaves solver_ok (bls12_381.solveWithHint s h).
Proof.
  intros Hok. unfold bls12_381.solveWithHint.
  destruct (bls12_381.mHintsFunctions s !! HintID h) as [f|]; [|done].
  destruct (bls12_381.evalInputs s (Inputs h)) as [inputs|]; simpl; [|done].
  destruct (callHint f _ inputs _) as [outputs err].
  destruct (bls12_381.setOutputs s _ 0 outputs) as [s'|] eqn:Hset; simpl; [|done].
  apply bls_setOutputs_ok in Hset; [|done]. by destruct err.
Qed.

Lemma unsatisfied_ok (s : bls12_381.solver modulus) (cID : Z)
    (va vb vc : Zmod modulus) :
  solver_ok s → leaves solver_ok (bls12_381.unsatisfied s cID va vb vc).
Proof.
  intros Hok. unfold bls12_381.unsatisfied.
  by destruct (bls12_381.wrapErrWithDebugInfo s cID _).
Qed.

Lemma bls_solveR1C_ok (s : bls12_381.solver modulus) (cID : Z) (r : R1C) :
  solver_ok s → leaves solver_ok (bls12_381.solveR1C s cID r).
Proof.
  intros Hok. unfold bls12_381.solveR1C.
  destruct (index (bls12_381.a s) cID) as [a0|]; simpl; [|done].
  destruct (index (bls12_381.b s) cID) as [b0|]; simpl; [|done].
  destruct (index (bls12_381.c s) cID) as [c0|]; simpl; [|done].
  destruct (bls12_381.processLExp s (L r) a0 1 0 _) as [[[va loc1] t1]|];
    simpl; [|done].
  destruct (bls12_381.processLExp s (R r) b0 2 loc1 t1) as [[[vb loc2] t2]|];
    simpl; [|done].
  destruct (bls12_381.processLExp s (O r) c0 3 loc2 t2) as [[[vc loc3] t3]|];
    simpl; [|done].
  case_decide.
  - destruct (negb _); [by apply unsatisfied_ok|done].
  - destruct (bls12_381.solveLoc loc3 va vb vc) as [[[[va' vb'] vc'] wire]|];
      [|by apply unsatisfied_ok].
    simpl. rewrite divByCoeff_with_abc.
    destruct (bls12_381.divByCoeff s wire (CID t3)) as [w|]; simpl; [|done].
    destruct (bls12_381.set _ (WireID t3) w) as [s'|] eqn:Hset; simpl; [|done].
    by eapply bls_set_ok in Hset.
Qed.

Section Recursive.
Variable rec : bn254.solution modulus' → Z → Hint →
               outcome (bn254.solution modulus') unit.
Hypothesis rec_ok : ∀ u vID g, solution_ok u → leaves solution_ok (rec u vID g).

Lemma bn_evalInput_ok (le : LinearExpression) :
  ∀ (u : bn254.solution modulus') (v : Zmod modulus'),
    solution_ok u → leaves solution_ok (bn254.evalInput rec u le v).
Proof.
  induction le as [|t le IH]; intros u v Hok; simpl; [done|].
  assert (leaves solution_ok (bn254.recursiveSolve rec u t)) as Hrec.
  { unfold bn254.recursiveSolve. destruct (IsConstant t); [done|].
    destruct (index (bn254.solved u) (WireID t)) as [[]|]; simpl; [done| |done].
    destruct (bn254.mHints u !! WireID t); [by apply rec_ok|done]. }
  destruct (bn254.recursiveSolve rec u t) as [u1 []|u1 e|msg|]; simpl; try done.
  destruct (bn254.accumulateInto u1 t v); simpl; [by apply IH|done].
Qed.

Lemma bn_evalInputs_ok (ins : list LinearExpression) :
  ∀ u : bn254.solution modulus',
    solution_ok u → leaves solution_ok (bn254.evalInputs rec u ins).
Proof.
  induction ins as [|le ins IH]; intros u Hok; simpl; [done|].
  pose proof (bn_evalInput_ok le u Zmod.zero Hok) as Hle.
  destruct (bn254.evalInput rec u le Zmod.zero) as [u1 v|u1 e|msg|];
    simpl; try done.
  specialize (IH u1 Hle).
  by destruct (bn254.evalInputs rec u1 ins) as [u2 vs|u2 e|msg|].
Qed.

Lemma bn_solveWithHint_body_ok (u : bn254.solution modulus') (vID : Z) (g : Hint) :
  solution_ok u → leaves solution_ok (bn254.solveWithHint_body rec u vID g).
Proof.
  intros Hok. unfold bn254.solveWithHint_body.
  destruct (index (bn254.solved u) vID) as [[]|]; simpl; [done| |done].
  destruct (bn254.mHintsFunctions u !! ID g) as [f|]; [|done].
  pose proof (bn_evalInputs_ok (Hint_Inputs g) u Hok) as Hin.
  destruct (bn254.evalInputs rec u (Hint_Inputs g)) as [u1 inputs|u1 e|msg|];
    simpl; try done.
  destruct (callHint f modulus' inputs _) as [outputs err].
  destruct (bn254.setOutputs u1 (Wires g) 0 outputs) as [u2|] eqn:Hset;
    simpl; [|done].
  apply bn_setOutputs_ok in Hset; [|done]. by destruct err.
Qed.
End Recursive.

Lemma bn_solveWithHint_ok (fuel : nat) :
  ∀ (u : bn254.solution modulus') (vID : Z) (g : Hint),
    solution_ok u → leaves solution_ok (bn254.solveWithHint fuel u vID g).
Proof.
  induction fuel as [|fuel IH]; intros u vID g Hok; [done|].
  simpl. by apply bn_solveWithHint_body_ok.
Qed.

End SolveInvariant.

Section RunInvariant.
Context {modulus : Z} {tag : ConstantTag} {str : ElementString modulus}
  {fmt : Formatter}.

Lemma processInstruction_ok (hd : bls12_381.System modulus)
    (s : bls12_381.solver modulus) (pi : PackedInstruction) :
  blueprints_ok hd → solver_ok s →
  leaves solver_ok (bls12_381.processInstruction hd s pi).
Proof.
  intros Hbp Hok. unfold bls12_381.processInstruction.
  destruct (index (bls12_381.Blueprints hd) (BlueprintID pi)) as [bp|] eqn:Hbp';
    simpl; [|done].
  apply index_Ok_inv in Hbp' as [_ Hbp'].
  apply list_elem_of_lookup_2 in Hbp'.
  destruct (match bls12_381.Type_ hd with
            | SystemR1CS => bls12_381.DecompressR1C bp
            | _ => None
            end) as [decompress|]; [by apply bls_solveR1C_ok|].
  destruct (bls12_381.Solve bp) as [solve|] eqn:Hsolve.
  - pose proof (Hbp bp solve Hbp' Hsolve s (Unpack pi) Hok) as Hleaves.
    destruct (solve s (Unpack pi)) as [s1 []|s1 e|msg|]; simpl in *; try done.
    by destruct (bls12_381.wrapErrWithDebugInfo s1 _ e).
  - destruct (bls12_381.DecompressHint bp); [by apply bls_solveWithHint_ok|done].
Qed.

Lemma runLevel_ok (hd : bls12_381.System modulus) (level : list Z) :
  ∀ s : bls12_381.solver modulus,
    blueprints_ok hd → solver_ok s →
    leaves solver_ok (bls12_381.runLevel hd s level).
Proof.
  induction level as [|i level IH]; intros s Hbp Hok; simpl; [done|].
  destruct (index (bls12_381.Instructions hd) i) as [pi|]; simpl; [|done].
  pose proof (processInstruction_ok hd s pi Hbp Hok) as Hpi.
  destruct (bls12_381.processInstruction hd s pi) as [s1 []|s1 e|msg|];
    simpl; try done.
  by apply IH.
Qed.

Lemma checkAllSolved_Ret (s s' : bls12_381.solver modulus) :
  solver_ok s → bls12_381.checkAllSolved s = Ret s' () →
  s' = s ∧ Forall (λ flag, flag = true) (bls12_381.solved s).
Proof.
  intros (Hlen & Hcount & Hint). unfold bls12_381.checkAllSolved.
  case_decide as Hn; [done|]. intros [= <-]. split; [done|].
  apply count_solved_all.
  pose proof (count_solved_bounds (bls12_381.solved s)).
  unfold int_of_uint64 in Hn. rewrite decide_True in Hn by lia. lia.
Qed.

Lemma runLevels_Ret (hd : bls12_381.System modulus) (levels : list (list Z)) :
  ∀ s s' : bls12_381.solver modulus,
    blueprints_ok hd → solver_ok s →
    bls12_381.runLevels hd s levels = Some (Ret s' ()) →
    solver_ok s' ∧ Forall (λ flag, flag = true) (bls12_381.solved s').
Proof.
  induction levels as [|level levels IH]; intros s s' Hbp Hok; simpl.
  - intros [= Hcheck]. apply checkAllSolved_Ret in Hcheck as [-> Hall]; done.
  - destruct (bls12_381.dispatch s level) as [[tasks|]|]; [done| |done].
    pose proof (runLevel_ok hd level s Hbp Hok) as Hlevel.
    destruct (bls12_381.runLevel hd s level) as [s1 []|s1 e|msg|]; try done.
    by apply IH.
Qed.

(** When [run] returns nil, every wire of the solver is marked solved, and
    the store invariant still holds: a run that starts from a store where
    the counter is the number of solved wires cannot succeed with a wire
    left out. *)
Theorem run_solves_all_wires (hd : bls12_381.System modulus)
    (s s' : bls12_381.solver modulus) :
  blueprints_ok hd → solver_ok s →
  bls12_381.run hd s = Some (Ret s' ()) →
  solver_ok s' ∧
  Forall (λ flag, flag = true) (bls12_381.solved s') ∧
  length (bls12_381.values s') = length (bls12_381.solved s').
Proof.
  intros Hbp Hok. unfold bls12_381.run. case_decide; [done|].
  intros Hrun. apply runLevels_Ret in Hrun as [Hok' Hall]; [|done..].
  split_and!; [done..|]. by destruct Hok'.
Qed.

End RunInvariant.

(** [run_solves_all_wires] on the sample system: [x * x = y], then [z] from
    the doubling hint on [y]. *)
Lemma run_solves_all_wires_witness :
  ∃ s', bls12_381.run (tag := Sample.tagMaxUint32) (str := Sample.decimal _)
          (fmt := Sample.joinArgs) Sample.header381 Sample.solver381_run
        = Some (Ret s' ()) ∧
    bls12_381.values s'
    = [Zmod.one; Zmod.of_Z _ 3; Zmod.of_Z _ 9; Zmod.of_Z _ 18] ∧
    Forall (λ flag, flag = true) (bls12_381.solved s').
Proof.
  eexists. split; [vm_compute; reflexivity|]. split; [reflexivity|].
  eapply (run_solves_all_wires (tag := Sample.tagMaxUint32)
            (str := Sample.decimal _) (fmt := Sample.joinArgs)
            Sample.header381 Sample.solver381_run).
  - intros blueprint solve Hin Hsolve.
    apply list_elem_of_In in Hin. simpl in Hin.
    destruct Hin as [<-|[<-|[]]]; discriminate Hsolve.
  - split_and!; [reflexivity|reflexivity|by vm_compute].
  - vm_compute. reflexivity.
Defined.

Section KeepsStore.
Context {modulus modulus' : Z} {tag : ConstantTag} {str : ElementString modulus}
  {fmt : Formatter}.

(** From a store where the counter is the number of wires marked solved,
    [solveR1C] and both [solveWithHint] leave such a store, whether they
    return nil or an error: no path writes a flag without the counter, or
    the counter without a flag. *)
Theorem solve_keeps_store (s : bls12_381.solver modulus) (cID : Z) (r : R1C)
    (h : HintMapping) (u : bn254.solution modulus') (fuel : nat) (vID : Z)
    (g : Hint) :
  solver_ok s → solution_ok u →
  leaves solver_ok (bls12_381.solveR1C s cID r) ∧
  leaves solver_ok (bls12_381.solveWithHint s h) ∧
  leaves solution_ok (bn254.solveWithHint fuel u vID g).
Proof.
  intros Hs Hu. split_and!.
  - by apply bls_solveR1C_ok.
  - by apply bls_solveWithHint_ok.
  - by apply bn_solveWithHint_ok.
Qed.

(** On a solution that satisfies the store invariant, [isValid] is true
    exactly when every wire is marked solved. *)
Theorem isValid_all_solved (u : bn254.solution modulus') :
  solution_ok u →
  bn254.isValid u = true ↔ Forall (λ flag, flag = true) (bn254.solved u).
Proof.
  intros (Hlen & Hcount & _). unfold bn254.isValid.
  rewrite Z.eqb_eq, Hcount, Hlen. apply count_solved_all.
Qed.

End KeepsStore.

(** [solve_keeps_store] on the sample stores. *)
Lemma solve_keeps_store_witness :
  leaves solver_ok
    (bls12_381.solveR1C (tag := Sample.tagMaxUint32) (str := Sample.decimal _)
       (fmt := Sample.joinArgs) Sample.solver381 0
       (mkR1C [mkTerm 1 1] [mkTerm 1 1] [mkTerm 1 2])) ∧
  leaves solver_ok
    (bls12_381.solveWithHint (tag := Sample.tagMaxUint32) Sample.solver381
       (mkHintMapping 11 [[mkTerm 1 1]] 2 4)) ∧
  leaves solution_ok
    (bn254.solveWithHint (tag := Sample.tagMaxUint32) 2 Sample.solution254 3
       (mkHint 10 [[mkTerm 1 2]] [3])).
Proof.
  apply (solve_keeps_store (tag := Sample.tagMaxUint32) (str := Sample.decimal _)
           (fmt := Sample.joinArgs));
    (split_and!; [reflexivity|reflexivity|by vm_compute]).
Defined.

(** [isValid_all_solved] on the sample solution, which has unsolved wires. *)
Lemma isValid_all_solved_witness :
  bn254.isValid Sample.solution254 = true
  ↔ Forall (λ flag, flag = true) (bn254.solved Sample.solution254).
Proof.
  apply isValid_all_solved.
  split_and!; [reflexivity|reflexivity|by vm_compute].
Defined.

(** ** Construction of the solver and of the solution *)
Section Construction.
Context {modulus : Z} {tag : ConstantTag} {str : ElementString modulus}
  {fmt : Formatter}.

Lemma missingHints_nil (hintFunctions : gmap Z HintFunction)
    (hintsDependencies : gmap Z string) :
  missingHints hintFunctions hintsDependencies = [] ↔
  ∀ (k : Z) (name : string),
    hintsDependencies !! k = Some name → is_Some (hintFunctions !! k).
Proof.
  unfold missingHints. split.
  - intros Hnil k name Hk. apply fmap_nil_inv in Hnil.
    apply map_to_list_empty_iff in Hnil.
    destruct (hintFunctions !! k) eqn:Hf; [done|].
    by destruct (map_filter_empty_not_lookup _ _ k name Hnil Hf).
  - intros Hall.
    assert (filter (λ kv : Z * string, hintFunctions !! kv.1 = None)
              hintsDependencies = ∅) as ->; [|by rewrite map_to_list_empty].
    apply map_empty. intros k. apply map_lookup_filter_None_2. right.
    intros name Hk Hnone. simpl in Hnone.
    destruct (Hall k name Hk) as [f Hf]. congruence.
Qed.

Lemma make_Ok {A} (n : Z) (x : A) :
  0 ≤ n → make n x = Ok (replicate (Z.to_nat n) x).
Proof. intros Hn. unfold make. by rewrite decide_True. Qed.

Lemma count_solved_replicate (k n : nat) :
  count_solved (replicate k true ++ replicate n false) = Z.of_nat k.
Proof.
  induction k as [|k IH]; simpl.
  - induction n as [|n IH]; [done|]. simpl. by rewrite count_solved_cons, IH.
  - rewrite count_solved_cons, IH. lia.
Qed.

(** The loop over the witness marks the wires after the solved ones. *)
Lemma markWitness_replicate (n : nat) :
  ∀ (k m : nat) (witnessOffset i : Z),
    0 ≤ i + witnessOffset → Z.to_nat (i + witnessOffset) = k → (n ≤ m)%nat →
    bls12_381.markWitness (replicate k true ++ replicate m false) witnessOffset i n
    = Ok (replicate (k + n) true ++ replicate (m - n) false).
Proof.
  induction n as [|n IH]; intros k m witnessOffset i Hpos Hk Hn; simpl.
  - by rewrite Nat.add_0_r, Nat.sub_0_r.
  - rewrite assign_Ok by (rewrite length_app, !length_replicate; lia). simpl.
    rewrite Hk, insert_app_r_alt by (rewrite length_replicate; lia).
    rewrite length_replicate, Nat.sub_diag.
    destruct m as [|m]; [lia|]. simpl.
    rewrite (cons_middle true), app_assoc, <- replicate_S_end.
    rewrite (IH (S k) m) by lia. f_equal. f_equal; f_equal; lia.
Qed.

Lemma copy_witness {A} (witness : list A) (n : nat) (x : A) :
  copy (replicate (length witness + n) x) witness = witness ++ replicate n x.
Proof.
  unfold copy. rewrite length_replicate.
  replace (Nat.min (length witness + n) (length witness)) with (length witness)
    by lia.
  by rewrite firstn_all, drop_replicate_add.
Qed.

Lemma slice_from {A} (l : list A) (lo : Z) :
  0 ≤ lo ≤ Z.of_nat (length l) →
  slice l lo (Z.of_nat (length l)) = Ok (drop (Z.to_nat lo) l).
Proof.
  intros Hlo. rewrite slice_Ok by lia. f_equal. apply take_ge.
  rewrite length_drop. lia.
Qed.

(** On a witness of the expected size, with every declared hint registered,
    [newSolver] returns a solver whose values are the constant one (for an
    R1CS), then the witness, then zeros for the internal variables; the
    wires of the first two groups are marked solved, the others are not, and
    the counter is their number, so the store invariant holds at the start
    of [run]. The system, the hint functions and [nbTasks] are those given;
    [a], [b] and [c] each hold [NbConstraints] zeros for an R1CS and are
    empty otherwise; [q] is the modulus of the system. *)
Theorem newSolver_initial_store (cs : bls12_381.system modulus)
    (hd : bls12_381.System modulus) (witness : list (Zmod modulus))
    (opt : bls12_381.Config) :
  let r1cs := match bls12_381.Type_ hd with SystemR1CS => true | _ => false end in
  let offset := if r1cs then 1%nat else 0%nat in
  let internal := Z.to_nat (bls12_381.NbInternalVariables hd) in
  0 ≤ bls12_381.NbInternalVariables hd →
  0 ≤ bls12_381.NbConstraints hd →
  Z.of_nat (length (bls12_381.Public hd)) + Z.of_nat (length (bls12_381.Secret hd))
    + bls12_381.NbInternalVariables hd < 2 ^ 63 →
  Z.of_nat (length witness)
  = Z.of_nat (length (bls12_381.Public hd)) - Z.of_nat offset
    + Z.of_nat (length (bls12_381.Secret hd)) →
  (∀ (k : Z) (name : string),
     bls12_381.MHintsDependencies hd !! k = Some name →
     is_Some (bls12_381.HintFunctions opt !! k)) →
  ∃ s,
    bls12_381.newSolver cs hd witness (inr opt) = Ok (inr s) ∧
    bls12_381.values s
    = (if r1cs then [Zmod.one] else []) ++ witness ++ replicate internal Zmod.zero ∧
    bls12_381.solved s
    = replicate (offset + length witness) true ++ replicate internal false ∧
    bls12_381.nbSolved s = Z.of_nat (offset + length witness) ∧
    solver_ok s ∧
    bls12_381.sys s = cs ∧
    bls12_381.mHintsFunctions s = bls12_381.HintFunctions opt ∧
    bls12_381.nbTasks s = bls12_381.NbTasks opt ∧
    length (bls12_381.a s)
    = (if r1cs then Z.to_nat (bls12_381.NbConstraints hd) else 0%nat) ∧
    bls12_381.a s
    = replicate (if r1cs then Z.to_nat (bls12_381.NbConstraints hd) else 0%nat)
        Zmod.zero ∧
    bls12_381.b s = bls12_381.a s ∧
    bls12_381.c s = bls12_381.a s ∧
    bls12_381.q s = bls12_381.Field hd.
Proof.
  intros r1cs offset internal Hint Hcons Hwires Hsize Hdeps.
  apply missingHints_nil in Hdeps.
  set (values := (if r1cs then [Zmod.one] else [])
                 ++ witness ++ replicate internal (Zmod.zero : Zmod modulus)).
  set (solved := replicate (offset + length witness) true
                 ++ replicate internal false).
  set (abc := replicate (if r1cs then Z.to_nat (bls12_381.NbConstraints hd)
                         else 0%nat) (Zmod.zero : Zmod modulus)).
  exists (bls12_381.mkSolver cs values solved (Z.of_nat (offset + length witness))
            (bls12_381.HintFunctions opt) (bls12_381.NbTasks opt) abc abc abc
            (bls12_381.Field hd)).
  split_and!; try done.
  - unfold bls12_381.newSolver.
    subst values solved abc offset r1cs.
    destruct (bls12_381.Type_ hd);
      rewrite decide_False by lia;
      rewrite Hdeps; simpl;
      rewrite !make_Ok by lia.
    + replace (Z.to_nat _) with (length witness + internal)%nat
        by (subst internal; lia).
      cbn [rbind]. rewrite slice_from by (rewrite length_replicate; lia).
      cbn [rbind]. rewrite drop_0, copy_witness.
      rewrite (markWitness_replicate (length witness) 0 (length witness + internal))
        by lia.
      cbn [rbind]. do 2 f_equal. f_equal.
      * f_equal. f_equal. lia.
      * rewrite Z.mod_small by lia. lia.
    + replace (Z.to_nat _) with (S (length witness + internal))
        by (subst internal; lia).
      rewrite !replicate_S. cbn [rbind].
      rewrite !assign_Ok by (simpl; lia). cbn [rbind].
      change (Z.to_nat 0) with 0%nat. cbn [list_insert insert].
      rewrite slice_from by (simpl; lia).
      cbn [rbind]. change (Z.to_nat 1) with 1%nat. cbn [drop take].
      rewrite drop_0, take_0, copy_witness.
      change (true :: replicate (length witness + internal) false)
        with (replicate 1 true ++ replicate (length witness + internal) false).
      rewrite (markWitness_replicate (length witness) 1 (length witness + internal))
        by lia.
      cbn [rbind]. do 2 f_equal. f_equal.
      * simpl. do 2 f_equal. f_equal. lia.
      * rewrite Z.mod_small by lia. lia.
    + replace (Z.to_nat _) with (length witness + internal)%nat
        by (subst internal; lia).
      cbn [rbind]. rewrite slice_from by (rewrite length_replicate; lia).
      cbn [rbind]. rewrite drop_0, copy_witness.
      rewrite (markWitness_replicate (length witness) 0 (length witness + internal))
        by lia.
      cbn [rbind]. do 2 f_equal. f_equal.
      * f_equal. f_equal. lia.
      * rewrite Z.mod_small by lia. lia.
  - unfold solver_ok, store_ok. simpl. split_and!.
    + subst values solved offset. rewrite !length_app, !length_replicate.
      destruct r1cs; simpl; lia.
    + subst solved. by rewrite count_solved_replicate.
    + subst solved. rewrite length_app, !length_replicate.
      subst offset internal. destruct r1cs; lia.
  - subst abc. simpl. apply length_replicate.
Qed.

Lemma missingHints_elem (hintFunctions : gmap Z HintFunction)
    (hintsDependencies : gmap Z string) (k : Z) (name : string) :
  hintsDependencies !! k = Some name → hintFunctions !! k = None →
  name ∈ missingHints hintFunctions hintsDependencies.
Proof.
  intros Hk Hf. unfold missingHints. apply list_elem_of_fmap.
  exists (k, name). split; [done|]. apply elem_of_map_to_list.
  by apply map_lookup_filter_Some.
Qed.

(** [newSolver] returns no solver, and an error, in three cases: the options
    are refused by [csolver.NewConfig], whose error it returns; the witness
    has not the expected size, whatever the hints; the size is right and a
    declared hint has no registered function, and then the message lists
    the name of that hint. *)
Theorem newSolver_refuses (cs : bls12_381.system modulus)
    (hd : bls12_381.System modulus) (witness : list (Zmod modulus))
    (opt : bls12_381.Config) (k : Z) (name : string) :
  let expected :=
    Z.of_nat (length (bls12_381.Public hd))
    - match bls12_381.Type_ hd with SystemR1CS => 1 | _ => 0 end
    + Z.of_nat (length (bls12_381.Secret hd)) in
  (∀ err, bls12_381.newSolver cs hd witness (inl err) = Ok (inl err)) ∧
  (Z.of_nat (length witness) ≠ expected →
   bls12_381.newSolver cs hd witness (inr opt)
   = Ok (inl (errorString
                ("invalid witness size, got " +:+ pretty (Z.of_nat (length witness))
                 +:+ ", expected " +:+ pretty expected)))) ∧
  (Z.of_nat (length witness) = expected →
   bls12_381.MHintsDependencies hd !! k = Some name →
   bls12_381.HintFunctions opt !! k = None →
   ∃ names, name ∈ names ∧
     bls12_381.newSolver cs hd witness (inr opt)
     = Ok (inl (errorString ("solver missing hint(s): " +:+ format_strings names)))).
Proof.
  intros expected. split_and!.
  - done.
  - intros Hsize. unfold bls12_381.newSolver. fold expected.
    by rewrite decide_True.
  - intros Hsize Hk Hf.
    pose proof (missingHints_elem _ _ _ _ Hk Hf) as Hin.
    eexists. split; [exact Hin|].
    unfold bls12_381.newSolver. fold expected.
    rewrite decide_False by lia. rewrite decide_True; [done|].
    destruct (missingHints _ _); [by apply elem_of_nil in Hin|simpl; lia].
Qed.

(** [newSolution] returns a solution with [nbWires] zero values, no wire
    marked solved and a zero counter, which satisfies the store invariant
    and is valid only without wires; the error it returns beside it is nil
    exactly when every declared hint has a registered function. *)
Theorem newSolution_fresh (nbWires : Z) (hintFunctions : gmap Z HintFunction)
    (hintsDependencies : gmap Z string) (mHints : gmap Z Hint)
    (coefficients : list (Zmod modulus)) :
  0 ≤ nbWires < 2 ^ 63 →
  ∃ u err,
    bn254.newSolution nbWires hintFunctions hintsDependencies mHints coefficients
    = Ok (u, err) ∧
    bn254.values u = replicate (Z.to_nat nbWires) Zmod.zero ∧
    bn254.solved u = replicate (Z.to_nat nbWires) false ∧
    bn254.nbSolved u = 0 ∧
    solution_ok u ∧
    (bn254.isValid u = true ↔ nbWires = 0) ∧
    (err = None ↔
     ∀ (k : Z) (name : string),
       hintsDependencies !! k = Some name → is_Some (hintFunctions !! k)).
Proof.
  intros Hn. unfold bn254.newSolution. rewrite !make_Ok by lia. cbn [rbind].
  set (u := bn254.mkSolution _ _ _ _ _ _).
  assert (solution_ok u ∧ (bn254.isValid u = true ↔ nbWires = 0)) as [Hok Hvalid].
  { split.
    - unfold solution_ok, store_ok. simpl. rewrite !length_replicate.
      split_and!; [done| |lia].
      symmetry. apply (count_solved_replicate 0 (Z.to_nat nbWires)).
    - subst u. unfold bn254.isValid. cbn [bn254.nbSolved bn254.values].
      rewrite length_replicate, Z.eqb_eq. lia. }
  change (bn254.mHintsFunctions u) with hintFunctions.
  destruct (missingHints hintFunctions hintsDependencies) as [|name names] eqn:Hm.
  - exists u, None. rewrite decide_False by (simpl; lia).
    split_and!; try done. split; [intros _|done]. by apply missingHints_nil.
  - eexists u, _. rewrite decide_True by (simpl; lia).
    split_and!; try done. split; [done|].
    intros Hall. apply missingHints_nil in Hall. congruence.
Qed.

End Construction.

(** [newSolver_initial_store] on the sample system and the witness
    [x = 3]. *)
Lemma newSolver_initial_store_witness :
  bls12_381.newSolver Sample.sys381_run Sample.header381 [Zmod.of_Z _ 3]
    (inr Sample.config381)
  = Ok (inr Sample.solver381_run) ∧
  solver_ok Sample.solver381_run.
Proof.
  destruct (newSolver_initial_store Sample.sys381_run Sample.header381
              [Zmod.of_Z _ 3] Sample.config381)
    as (s & Hnew & _ & _ & _ & Hok & _).
  - simpl. lia.
  - simpl. lia.
  - by vm_compute.
  - reflexivity.
  - intros k name Hk. change (({[ 10 := "double" ]} : gmap Z string) !! k = Some name) in Hk.
    apply lookup_singleton_Some in Hk as [<- _]. by eexists.
  - assert (s = Sample.solver381_run) as ->; [|done].
    enough (Ok (inr s) = Ok (inr Sample.solver381_run) :> result (error + _))
      by congruence.
    by rewrite <- Hnew.
Defined.

(** [newSolver_refuses] on the sample system: an empty witness where one
    value is expected. *)
Lemma newSolver_refuses_witness :
  bls12_381.newSolver Sample.sys381_run Sample.header381 []
    (inr Sample.config381)
  = Ok (inl (errorString "invalid witness size, got 0, expected 1")).
Proof.
  destruct (newSolver_refuses Sample.sys381_run Sample.header381 []
              Sample.config381 0 "") as (_ & Hsize & _).
  rewrite Hsize; [reflexivity|]. simpl. lia.
Defined.

(** [newSolution_fresh] for four wires. *)
Lemma newSolution_fresh_witness :
  ∃ u err,
    bn254.newSolution (modulus := Sample.r254) 4 {[ 10 := Sample.double ]}
      {[ 10 := "double" ]} ∅ (Sample.table _) = Ok (u, err) ∧
    bn254.solved u = [false; false; false; false] ∧
    bn254.nbSolved u = 0.
Proof.
  destruct (newSolution_fresh (modulus := Sample.r254) 4
              {[ 10 := Sample.double ]} {[ 10 := "double" ]} ∅ (Sample.table _))
    as (u & err & Hnew & _ & Hsolved & Hcount & _); [lia|].
  exists u, err. split_and!; [exact Hnew|exact Hsolved|exact Hcount].
Defined.

(** ** The solver as a [constraint.Solver] *)
Section SolverInterface.
Context {modulus : Z} {tag : ConstantTag} {str : ElementString modulus}
  {fmt : Formatter}.
Implicit Types (s : bls12_381.solver modulus) (f r : Zmod modulus).

Lemma index_insert_ne {A} (l : list A) (i j : Z) (x : A) :
  0 ≤ i → j ≠ i → index (<[Z.to_nat i := x]> l) j = index l j.
Proof.
  intros Hi Hne. unfold index. case_decide; [|done].
  by rewrite list_lookup_insert_ne by lia.
Qed.

Lemma index_insert_eq {A} (l : list A) (i : Z) (x : A) :
  0 ≤ i < Z.of_nat (length l) → index (<[Z.to_nat i := x]> l) i = Ok x.
Proof.
  intros Hi. apply index_lookup; [lia|]. apply list_lookup_insert_eq. lia.
Qed.

(** Writing a wire with [SetValue] and reading it back: the wire is solved
    and [GetValue] with the coefficient id one returns the value written,
    while [IsSolved], [GetValue] and [GetCoeff] answer as before on every
    other wire and coefficient. *)
Theorem SetValue_GetValue s (vID : Z) f :
  0 ≤ vID < Z.of_nat (length (bls12_381.values s)) →
  bls12_381.solved s !! Z.to_nat vID = Some false →
  IsConstant (mkTerm CoeffIdOne vID) = false →
  ∃ s',
    bls12_381.SetValue s vID f = Ok s' ∧
    bls12_381.IsSolved s' vID = Ok true ∧
    bls12_381.GetValue s' CoeffIdOne vID = Ok f ∧
    ∀ vID' cID : Z, vID' ≠ vID →
      bls12_381.IsSolved s' vID' = bls12_381.IsSolved s vID' ∧
      bls12_381.GetValue s' cID vID' = bls12_381.GetValue s cID vID' ∧
      bls12_381.GetCoeff s' cID = bls12_381.GetCoeff s cID.
Proof.
  intros Hrange Hflag Hc.
  assert (0 ≤ vID < Z.of_nat (length (bls12_381.solved s))) as Hrange'
    by (eapply lookup_in_range; [done|lia]).
  eexists. split; [by apply bls_set_unsolved|]. split_and!.
  - unfold bls12_381.IsSolved. simpl. by apply index_insert_eq.
  - unfold bls12_381.GetValue, bls12_381.computeTerm. rewrite Hc. simpl.
    rewrite !index_insert_eq by done. done.
  - intros vID' cID Hne. split_and!.
    + unfold bls12_381.IsSolved. simpl. apply index_insert_ne; lia.
    + unfold bls12_381.GetValue, bls12_381.computeTerm. simpl.
      by rewrite !index_insert_ne by lia.
    + done.
Qed.

(** The loop of [Read] on the words of a linear expression, found after the
    words [pre]. *)
Lemma readTerms_expression s (le : LinearExpression) :
  ∀ (pre rest : list Z) r,
    bls12_381.readTerms s
      (pre ++ concat ((λ t, [CID t; VID t]) <$> le) ++ rest)
      (length le) (Z.of_nat (length pre)) r
    = let! v := accumulated s le r in
      Ok (v, Z.of_nat (length pre) + 2 * Z.of_nat (length le)).
Proof.
  induction le as [|[cID vID] le IH]; intros pre rest r.
  - simpl. by rewrite Z.add_0_r.
  - cbn [length fmap list_fmap concat bls12_381.readTerms accumulated CID VID].
    rewrite <- !app_assoc. cbn [app].
    rewrite (index_lookup _ _ cID) by
      (try lia; rewrite Nat2Z.id; by rewrite lookup_app_r, Nat.sub_diag by lia).
    cbn [rbind].
    rewrite (index_lookup _ _ vID).
    2: lia.
    2: { replace (Z.to_nat (Z.of_nat (length pre) + 1)) with (length pre + 1)%nat
           by lia.
         rewrite lookup_app_r by lia.
         by replace (length pre + 1 - length pre)%nat with 1%nat by lia. }
    cbn [rbind].
    destruct (bls12_381.accumulateInto s _ r) as [r'|]; cbn [rbind]; [|done].
    specialize (IH (pre ++ [cID; vID]) rest r').
    rewrite <- app_assoc, length_app in IH. cbn [app length] in IH.
    replace (Z.of_nat (length pre) + 2) with (Z.of_nat (length pre + 2)) by lia.
    rewrite IH. destruct (accumulated s le r'); cbn [rbind]; [|done].
    do 2 f_equal. lia.
Qed.

Lemma calldata_of_length (le : LinearExpression) :
  length (calldata_of le) = S (2 * length le).
Proof.
  unfold calldata_of. cbn [length]. f_equal.
  induction le as [|t le IH]; [done|]. csimpl. rewrite IH. lia.
Qed.

(** [Read] decodes what [calldata_of] encodes. On a system that is not a
    sparse R1CS, reading the call data of a linear expression, whatever
    follows it, gives the value of the expression as [accumulateInto] sums
    it and the number of words of the expression. On a sparse R1CS [Read]
    takes three words, panics unless the first is 1, and gives the value of
    the term made of the other two. *)
Theorem Read_decodes (hd : bls12_381.System modulus) s (le : LinearExpression)
    (cID vID : Z) (rest : list Z) :
  (bls12_381.Type_ hd ≠ SystemSparseR1CS →
   bls12_381.Read hd s (calldata_of le ++ rest)
   = let! v := accumulated s le Zmod.zero in
     Ok (v, Z.of_nat (length (calldata_of le)))) ∧
  (bls12_381.Type_ hd = SystemSparseR1CS →
   bls12_381.Read hd s (1 :: cID :: vID :: rest)
   = (let! v := bls12_381.GetValue s cID vID in Ok (v, 3)) ∧
   ∀ c0 : Z, c0 ≠ 1 →
     bls12_381.Read hd s (c0 :: cID :: vID :: rest) = Panic "invalid calldata").
Proof.
  split.
  - intros Hty. rewrite calldata_of_length.
    assert (bls12_381.Read hd s (calldata_of le ++ rest)
            = bls12_381.readTerms s (calldata_of le ++ rest) (length le) 1 Zmod.zero)
      as ->.
    { unfold bls12_381.Read, calldata_of.
      destruct (bls12_381.Type_ hd); try done;
        change (index ((Z.of_nat (length le) :: ?l) ++ rest) 0)
          with (Ok (Z.of_nat (length le)) : result Z);
        cbn [rbind]; by rewrite Nat2Z.id. }
    pose proof (readTerms_expression s le [Z.of_nat (length le)] rest Zmod.zero)
      as Hread.
    cbn [app length] in Hread. change (Z.of_nat 1) with 1 in Hread.
    unfold calldata_of. cbn [app].
    rewrite Hread. destruct (accumulated s le Zmod.zero); cbn [rbind]; [|done].
    do 2 f_equal. lia.
  - intros Hty. unfold bls12_381.Read. rewrite Hty.
    assert (∀ c0 : Z, index (c0 :: cID :: vID :: rest) 0 = Ok c0) as H0 by done.
    assert (∀ c0 : Z, index (c0 :: cID :: vID :: rest) 1 = Ok cID) as H1 by done.
    assert (∀ c0 : Z, index (c0 :: cID :: vID :: rest) 2 = Ok vID) as H2 by done.
    split.
    + rewrite H0, H1, H2. cbn [rbind]. by rewrite decide_False by lia.
    + intros c0 Hc0. rewrite H0. cbn [rbind]. by rewrite decide_True.
Qed.

End SolverInterface.

(** [SetValue_GetValue] on the sample solver, at the unsolved wire [y]. *)
Lemma SetValue_GetValue_witness :
  ∃ s', bls12_381.SetValue Sample.solver381 2 (Zmod.of_Z _ 9) = Ok s' ∧
    bls12_381.IsSolved s' 2 = Ok true ∧
    bls12_381.GetValue (tag := Sample.tagMaxUint32) s' 1 2 = Ok (Zmod.of_Z _ 9).
Proof.
  destruct (SetValue_GetValue (tag := Sample.tagMaxUint32)
              Sample.solver381 2 (Zmod.of_Z _ 9))
    as (s' & Hset & Hsolved & Hget & _); [simpl; lia|reflexivity|reflexivity|].
  by exists s'.
Defined.

(** [Read_decodes] on the sample solver: the expression [2 * x + 7 * one]
    with [x = 3], followed by two more words. *)
Lemma Read_decodes_witness :
  bls12_381.Read (tag := Sample.tagMaxUint32) Sample.header381 Sample.solver381
    [2; 2; 1; 4; 0; 99; 98]
  = Ok (Zmod.of_Z _ 13, 5).
Proof.
  destruct (Read_decodes (tag := Sample.tagMaxUint32) Sample.header381
              Sample.solver381 [mkTerm 2 1; mkTerm 4 0] 0 0 [99; 98])
    as [Hle _].
  etrans; [exact (Hle ltac:(discriminate))|reflexivity].
Defined.

(** ** Diagnostics *)
Section LogValue.
Context {modulus modulus' : Z} {tag : ConstantTag}
  {str : ElementString modulus} {str' : ElementString modulus'}
  {fmt : Formatter}.

Lemma index_Panic {A} (l : list A) (i : Z) (msg : string) :
  index l i = Panic msg → msg = index_out_of_range.
Proof.
  unfold index. destruct (decide _); [destruct (l !! _)|]; by intros [=].
Qed.

Ltac index_panics :=
  repeat match goal with
    | |- context [index ?l ?i] =>
        let E := fresh "E" in
        destruct (index l i) eqn:E; cbn [rbind];
        [|apply index_Panic in E; intros [= <-]; exact E]
    end;
  try done.

(** On a solved wire [computeTerm] can only fail on an index. *)
Lemma bls_computeTerm_Panic (s : bls12_381.solver modulus) (t : Term) (msg : string) :
  index (bls12_381.solved s) (WireID t) = Ok true →
  bls12_381.computeTerm s t = Panic msg → msg = index_out_of_range.
Proof.
  intros Hflag. unfold bls12_381.computeTerm. rewrite Hflag.
  destruct (IsConstant t); [apply index_Panic|].
  destruct (decide (CoeffID t ≠ 0)); cbn [rbind negb];
    repeat case_decide; try done; index_panics.
Qed.

Lemma bn_computeTerm_Panic (u : bn254.solution modulus') (t : Term) (msg : string) :
  index (bn254.solved u) (WireID t) = Ok true →
  bn254.computeTerm u t = Panic msg → msg = index_out_of_range.
Proof.
  intros Hflag. unfold bn254.computeTerm. rewrite Hflag.
  destruct (decide (CoeffID t ≠ 0)); cbn [rbind negb];
    repeat case_decide; try done; index_panics.
Qed.

Lemma bls_logTerms_Panic (s : bls12_381.solver modulus) (le : LinearExpression) :
  ∀ (eval : Zmod modulus) (msg : string),
    bls12_381.logTerms s le eval = Panic msg → msg = index_out_of_range.
Proof.
  induction le as [|t le IH]; intros eval msg; simpl; [done|].
  destruct (IsConstant t).
  - destruct (index _ _) eqn:E; cbn [rbind]; [apply IH|].
    apply index_Panic in E. by intros [= <-].
  - destruct (index (bls12_381.solved s) (WireID t)) as [[]|] eqn:E; cbn [rbind negb].
    + destruct (bls12_381.computeTerm s t) eqn:Ec; cbn [rbind]; [apply IH|].
      apply bls_computeTerm_Panic in Ec; [|done]. by intros [= <-].
    + done.
    + apply index_Panic in E. by intros [= <-].
Qed.

Lemma bn_logTerms_Panic (u : bn254.solution modulus') (le : LinearExpression) :
  ∀ (eval : Zmod modulus') (msg : string),
    bn254.logTerms u le eval = Panic msg → msg = index_out_of_range.
Proof.
  induction le as [|t le IH]; intros eval msg; simpl; [done|].
  destruct (IsConstant t).
  - destruct (index _ _) eqn:E; cbn [rbind]; [apply IH|].
    apply index_Panic in E. by intros [= <-].
  - destruct (index (bn254.solved u) (WireID t)) as [[]|] eqn:E; cbn [rbind negb].
    + destruct (bn254.computeTerm u t) eqn:Ec; cbn [rbind]; [apply IH|].
      apply bn_computeTerm_Panic in Ec; [|done]. by intros [= <-].
    + done.
    + apply index_Panic in E. by intros [= <-].
Qed.

(** [logValue] never panics over an unsolved wire: whatever the flags of
    the wires, the only panic of [logValue] is an index out of range (a
    coefficient, a wire, a location or a function that the system does not
    have). Both for the [solver] and for the [solution]. *)
Theorem logValue_panics_only_out_of_range (s : bls12_381.solver modulus)
    (u : bn254.solution modulus') (log : LogEntry) (msg : string) :
  (bls12_381.logValue s log = Panic msg → msg = index_out_of_range) ∧
  (bn254.logValue u log = Panic msg → msg = index_out_of_range).
Proof.
  split.
  - unfold bls12_381.logValue.
    assert (∀ les, bls12_381.logResolve s les = Panic msg →
                   msg = index_out_of_range) as Hres.
    { induction les as [|le les IH]; simpl; [done|].
      destruct (bls12_381.logTerms s le Zmod.zero) eqn:E; cbn [rbind].
      - destruct (bls12_381.logResolve s les); cbn [rbind]; [done|].
        intros [= <-]. by apply IH.
      - apply bls_logTerms_Panic in E. by intros [= <-]. }
    assert (∀ stack, bls12_381.logStack s stack = Panic msg →
                     msg = index_out_of_range) as Hstack.
    { induction stack as [|lID stack IH]; simpl; [done|].
      destruct (index _ lID) as [location|] eqn:E1; cbn [rbind];
        [|apply index_Panic in E1; by intros [= <-]].
      destruct (index _ (FunctionID location)) as [function|] eqn:E2; cbn [rbind];
        [|apply index_Panic in E2; by intros [= <-]].
      destruct (bls12_381.logStack s stack); cbn [rbind]; [done|].
      intros [= <-]. by apply IH. }
    destruct (bls12_381.logResolve s (ToResolve log)) eqn:E; cbn [rbind];
      [|intros [= <-]; by eapply Hres].
    case_decide; cbn [rbind]; [|done].
    destruct (bls12_381.logStack s (Stack log)) eqn:E'; cbn [rbind]; [done|].
    intros [= <-]. by eapply Hstack.
  - unfold bn254.logValue.
    assert (∀ les, bn254.logResolve u les = Panic msg →
                   msg = index_out_of_range) as Hres.
    { induction les as [|le les IH]; simpl; [done|].
      destruct (bn254.logTerms u le Zmod.zero) eqn:E; cbn [rbind].
      - destruct (bn254.logResolve u les); cbn [rbind]; [done|].
        intros [= <-]. by apply IH.
      - apply bn_logTerms_Panic in E. by intros [= <-]. }
    destruct (bn254.logResolve u (ToResolve log)) eqn:E; cbn [rbind]; [done|].
    intros [= <-]. by eapply Hres.
Qed.

Lemma bls_logTerms_app (s : bls12_381.solver modulus) (l1 l2 : LinearExpression) :
  ∀ eval : Zmod modulus,
    bls12_381.logTerms s (l1 ++ l2) eval
    = match bls12_381.logTerms s l1 eval with
      | Ok (Some e) => bls12_381.logTerms s l2 e
      | other => other
      end.
Proof.
  induction l1 as [|t l1 IH]; intros eval; simpl; [done|].
  destruct (IsConstant t).
  - destruct (index _ _); cbn [rbind]; [apply IH|done].
  - destruct (index _ _) as [[]|]; cbn [rbind negb]; [|done..].
    destruct (bls12_381.computeTerm s t); cbn [rbind]; [apply IH|done].
Qed.

Lemma bn_logTerms_app (u : bn254.solution modulus') (l1 l2 : LinearExpression) :
  ∀ eval : Zmod modulus',
    bn254.logTerms u (l1 ++ l2) eval
    = match bn254.logTerms u l1 eval with
      | Ok (Some e) => bn254.logTerms u l2 e
      | other => other
      end.
Proof.
  induction l1 as [|t l1 IH]; intros eval; simpl; [done|].
  destruct (IsConstant t).
  - destruct (index _ _); cbn [rbind]; [apply IH|done].
  - destruct (index _ _) as [[]|]; cbn [rbind negb]; [|done..].
    destruct (bn254.computeTerm u t); cbn [rbind]; [apply IH|done].
Qed.

Lemma bls_logResolve_app (s : bls12_381.solver modulus)
    (les1 les2 : list LinearExpression) :
  bls12_381.logResolve s (les1 ++ les2)
  = let! rs1 := bls12_381.logResolve s les1 in
    let! rs2 := bls12_381.logResolve s les2 in
    Ok (rs1 ++ rs2).
Proof.
  induction les1 as [|le les1 IH]; simpl.
  - by destruct (bls12_381.logResolve s les2).
  - destruct (bls12_381.logTerms s le Zmod.zero); cbn [rbind]; [|done].
    rewrite IH. destruct (bls12_381.logResolve s les1); cbn [rbind]; [|done].
    by destruct (bls12_381.logResolve s les2).
Qed.

Lemma bn_logResolve_app (u : bn254.solution modulus')
    (les1 les2 : list LinearExpression) :
  bn254.logResolve u (les1 ++ les2)
  = let! rs1 := bn254.logResolve u les1 in
    let! rs2 := bn254.logResolve u les2 in
    Ok (rs1 ++ rs2).
Proof.
  induction les1 as [|le les1 IH]; simpl.
  - by destruct (bn254.logResolve u les2).
  - destruct (bn254.logTerms u le Zmod.zero); cbn [rbind]; [|done].
    rewrite IH. destruct (bn254.logResolve u les1); cbn [rbind]; [|done].
    by destruct (bn254.logResolve u les2).
Qed.

(** An expression of a log entry that reaches a non-constant term over an
    unsolved wire is rendered as the placeholder [<unsolved>], whatever
    comes after that term, and the other expressions of the entry are
    rendered as usual around it. Both for the [solver], where the rendering
    of the stack of the entry, when it has one, comes last, and for the
    [solution], which does not read the stack. *)
Theorem logValue_unsolved_placeholder (s : bls12_381.solver modulus)
    (u : bn254.solution modulus') (log : LogEntry)
    (les1 les2 : list LinearExpression) (pre post : LinearExpression) (t : Term)
    (e : Zmod modulus) (rs1 rs2 : list string)
    (e' : Zmod modulus') (rs1' rs2' : list string) :
  ToResolve log = les1 ++ (pre ++ t :: post) :: les2 →
  IsConstant t = false →
  0 ≤ WireID t →
  (bls12_381.solved s !! Z.to_nat (WireID t) = Some false →
   bls12_381.logTerms s pre Zmod.zero = Ok (Some e) →
   bls12_381.logResolve s les1 = Ok rs1 →
   bls12_381.logResolve s les2 = Ok rs2 →
   bls12_381.logValue s log
   = let! sbb :=
       (if decide (Stack log = []) then Ok []
        else let! sbb := bls12_381.logStack s (Stack log) in Ok [sbb]) in
     Ok (Sprintf (Format log)
           (rs1 ++ bls12_381.unsolvedVariable :: rs2 ++ sbb))) ∧
  (bn254.solved u !! Z.to_nat (WireID t) = Some false →
   bn254.logTerms u pre Zmod.zero = Ok (Some e') →
   bn254.logResolve u les1 = Ok rs1' →
   bn254.logResolve u les2 = Ok rs2' →
   bn254.logValue u log
   = Ok (Sprintf (Format log) (rs1' ++ bn254.unsolvedVariable :: rs2'))).
Proof.
  intros Hlog Hc Hvid. split.
  - intros Hflag Hpre H1 H2. unfold bls12_381.logValue.
    rewrite Hlog, bls_logResolve_app, H1. cbn [rbind bls12_381.logResolve].
    rewrite bls_logTerms_app, Hpre. cbn [bls12_381.logTerms].
    rewrite Hc, (index_lookup _ _ _ Hvid Hflag). cbn [rbind negb].
    rewrite H2. cbn [rbind].
    destruct (Stack log) as [|lID stack] eqn:Hstack.
    + rewrite decide_False by (simpl; lia). rewrite decide_True by done.
      cbn [rbind]. by rewrite app_nil_r.
    + rewrite decide_True by (simpl; lia). rewrite decide_False by done.
      destruct (bls12_381.logStack s (lID :: stack)) as [sbb|]; cbn [rbind];
        [|done].
      by rewrite <- app_assoc.
  - intros Hflag Hpre H1 H2. unfold bn254.logValue.
    rewrite Hlog, bn_logResolve_app, H1. cbn [rbind bn254.logResolve].
    rewrite bn_logTerms_app, Hpre. cbn [bn254.logTerms].
    rewrite Hc, (index_lookup _ _ _ Hvid Hflag). cbn [rbind negb].
    rewrite H2. by cbn [rbind].
Qed.

(** Without the table hypothesis of the fast paths: on a solved wire
    [accumulateInto] adds what [computeTerm] returns. *)
Lemma bls_accumulateInto_computeTerm (s : bls12_381.solver modulus) (t : Term)
    (r : Zmod modulus) :
  IsConstant t = false →
  index (bls12_381.solved s) (WireID t) = Ok true →
  bls12_381.accumulateInto s t r
  = let! v := bls12_381.computeTerm s t in Ok (Zmod.add r v).
Proof.
  intros Hc Hflag. unfold bls12_381.accumulateInto, bls12_381.computeTerm.
  rewrite Hc, Hflag. clear Hflag.
  destruct (decide (CoeffID t ≠ 0)) as [Hnz|Hz]; cbn [rbind negb].
  - rewrite !(decide_False (P := CoeffID t = CoeffIdZero)) by done.
    repeat (case_decide; [by destruct (index (bls12_381.values s) _)|]).
    case_decide; [destruct (index (bls12_381.values s) _); cbn [rbind]; [|done];
                  by rewrite Zmod.add_opp_r|].
    destruct (index (bls12_381.Coefficients _) _); cbn [rbind]; [|done].
    by destruct (index (bls12_381.values s) _).
  - rewrite !decide_True by (unfold CoeffIdZero; lia). cbn [rbind].
    by rewrite Zmod.add_0_r.
Qed.

(** On an expression whose terms are constants or over solved wires,
    [logValue] evaluates what the solver itself accumulates with
    [accumulateInto], as [solveR1C] does for the sides of a constraint: the
    value printed is the value solved with. *)
Theorem logValue_agrees_with_solver (s : bls12_381.solver modulus)
    (le : LinearExpression) (eval : Zmod modulus) :
  Forall (λ t, IsConstant t = true ∨ wire_flag s true t) le →
  bls12_381.logTerms s le eval
  = (let! v := accumulated s le eval in Ok (Some v)) ∧
  bls12_381.logResolve s [le]
  = (let! v := accumulated s le Zmod.zero in Ok [fr_String v]).
Proof.
  intros Hle.
  assert (∀ eval, bls12_381.logTerms s le eval
                  = let! v := accumulated s le eval in Ok (Some v)) as Hterms.
  { clear eval. induction Hle as [|t le Ht _ IH]; intros eval; simpl; [done|].
    destruct (IsConstant t) eqn:Hc.
    - unfold bls12_381.accumulateInto. rewrite Hc.
      destruct (index _ _); cbn [rbind]; [apply IH|done].
    - destruct Ht as [Ht|[Hvid Hflag]]; [congruence|].
      rewrite bls_accumulateInto_computeTerm
        by (done || by apply index_lookup).
      rewrite (index_lookup _ _ _ Hvid Hflag). cbn [rbind negb].
      destruct (bls12_381.computeTerm s t); cbn [rbind]; [apply IH|done]. }
  split; [apply Hterms|].
  cbn [bls12_381.logResolve]. rewrite Hterms.
  by destruct (accumulated s le Zmod.zero).
Qed.

End LogValue.

(** [logValue_unsolved_placeholder] on the sample stores: the entry prints
    [x], then [x + y] with [y] unsolved. *)
Lemma logValue_unsolved_placeholder_witness :
  let log := mkLogEntry "main.go" "values: " [[mkTerm 1 1]; [mkTerm 1 1; mkTerm 1 2]] [] in
  bls12_381.logValue (tag := Sample.tagMaxUint32) (str := Sample.decimal _)
    (fmt := Sample.joinArgs) Sample.solver381 log
  = Ok "values: 3,<unsolved>" ∧
  bn254.logValue (tag := Sample.tagMaxUint32) (str := Sample.decimal _)
    (fmt := Sample.joinArgs) Sample.solution254 log
  = Ok "values: 3,<unsolved>".
Proof.
  intros log.
  destruct (logValue_unsolved_placeholder (tag := Sample.tagMaxUint32)
              (str := Sample.decimal _) (str' := Sample.decimal _)
              (fmt := Sample.joinArgs) Sample.solver381 Sample.solution254 log
              [[mkTerm 1 1]] [] [mkTerm 1 1] [] (mkTerm 1 2)
              (Zmod.of_Z _ 3) ["3"] [] (Zmod.of_Z _ 3) ["3"] [])
    as [Hs Hu]; [reflexivity|reflexivity|simpl; lia|].
  split.
  - etrans; [apply Hs; reflexivity|reflexivity].
  - etrans; [apply Hu; reflexivity|reflexivity].
Defined.

(** [logValue_agrees_with_solver] on the sample solver: [2 * x + 7 * one]
    with [x = 3]. *)
Lemma logValue_agrees_with_solver_witness :
  bls12_381.logResolve (tag := Sample.tagMaxUint32) (str := Sample.decimal _)
    Sample.solver381 [[mkTerm 2 1; mkTerm 4 0]]
  = Ok ["13"].
Proof.
  destruct (logValue_agrees_with_solver (tag := Sample.tagMaxUint32)
              (str := Sample.decimal _) Sample.solver381
              [mkTerm 2 1; mkTerm 4 0] Zmod.zero) as [_ Hres].
  - repeat (apply Forall_cons_2; [right; split; [simpl; lia|reflexivity]|]).
    apply Forall_nil_2.
  - etrans; [exact Hres|reflexivity].
Defined.

(** ** The constraint after [solveR1C] *)
Section ConstraintHolds.
Context {modulus : Z} {tag : ConstantTag} {str : ElementString modulus}
  {fmt : Formatter}.
Implicit Types (s : bls12_381.solver modulus) (va vb vc : Zmod modulus).

Add Ring zmod_ring : (Zmod.ring_theory modulus).

(** [processLExp] leaves [loc] as it was or sets it to its own side. *)
Lemma processLExp_loc s (l : LinearExpression) :
  ∀ (val val' : Zmod modulus) (locValue loc loc' : Z) (t0 t' : Term),
    bls12_381.processLExp s l val locValue loc t0 = Ok (val', loc', t') →
    loc' = loc ∨ loc' = locValue.
Proof.
  induction l as [|t l IH]; intros val val' locValue loc loc' t0 t'; simpl.
  - intros [= _ <- _]. by left.
  - destruct (index _ _) as [[]|]; cbn [rbind]; [| |done].
    + destruct (bls12_381.accumulateInto s t val); cbn [rbind]; [apply IH|done].
    + case_decide; [done|]. intros Hrest. apply IH in Hrest. tauto.
Qed.

Lemma mdiv_mul_cancel (x y : Zmod modulus) :
  Z.prime modulus → y ≠ Zmod.zero → Zmod.mul (Zmod.mdiv x y) y = x.
Proof.
  intros Hprime Hy. unfold Zmod.mdiv.
  rewrite <- Zmod.mul_assoc, Zmod.mul_inv_same_l_prime by done.
  apply Zmod.mul_1_r.
Qed.

(** Every branch of [switch loc] leaves accumulators with [a * b = c]. *)
Lemma solveLoc_sound (loc : Z) va vb vc (va' vb' vc' wire : Zmod modulus) :
  Z.prime modulus →
  loc = 1 ∨ loc = 2 ∨ loc = 3 →
  bls12_381.solveLoc loc va vb vc = Some (va', vb', vc', wire) →
  Zmod.mul va' vb' = vc'.
Proof.
  intros Hprime Hloc. unfold bls12_381.solveLoc.
  destruct Hloc as [-> | [-> | ->]].
  - rewrite decide_True by done.
    destruct (Zmod.eqb_spec vb Zmod.zero) as [->|Hvb]; cbn [negb].
    + destruct (Zmod.eqb_spec (Zmod.mul va Zmod.zero) vc); cbn [negb]; [|done].
      by intros [= <- <- <- _].
    + intros [= <- <- <- _].
      replace (Zmod.add va (Zmod.sub (Zmod.mdiv vc vb) va)) with (Zmod.mdiv vc vb)
        by ring.
      by apply mdiv_mul_cancel.
  - rewrite decide_False, decide_True by done.
    destruct (Zmod.eqb_spec va Zmod.zero) as [->|Hva]; cbn [negb].
    + destruct (Zmod.eqb_spec (Zmod.mul Zmod.zero vb) vc); cbn [negb]; [|done].
      by intros [= <- <- <- _].
    + intros [= <- <- <- _].
      replace (Zmod.add vb (Zmod.sub (Zmod.mdiv vc va) vb)) with (Zmod.mdiv vc va)
        by ring.
      rewrite Zmod.mul_comm. by apply mdiv_mul_cancel.
  - rewrite !decide_False, decide_True by done.
    intros [= <- <- <- _]. ring.
Qed.

(** Over a prime field, when [solveR1C] returns nil the accumulators it
    leaves for the constraint satisfy [a * b = c]: whether it had nothing to
    solve, solved a wire on a factor side or on the output side, or fell on
    a zero factor. These are the vectors the prover takes over. *)
Theorem solveR1C_constraint_holds s (s' : bls12_381.solver modulus) (cID : Z)
    (r : R1C) :
  Z.prime modulus →
  bls12_381.solveR1C s cID r = Ret s' () →
  ∃ x y z : Zmod modulus,
    bls12_381.a s' !! Z.to_nat cID = Some x ∧
    bls12_381.b s' !! Z.to_nat cID = Some y ∧
    bls12_381.c s' !! Z.to_nat cID = Some z ∧
    Zmod.mul x y = z.
Proof.
  intros Hprime. unfold bls12_381.solveR1C.
  destruct (index (bls12_381.a s) cID) as [a0|] eqn:Ha; cbn [lift obind]; [|done].
  destruct (index (bls12_381.b s) cID) as [b0|] eqn:Hb; cbn [lift obind]; [|done].
  destruct (index (bls12_381.c s) cID) as [c0|] eqn:Hc; cbn [lift obind]; [|done].
  apply index_Ok_inv in Ha as [HcID Ha]. apply index_Ok_inv in Hb as [_ Hb].
  apply index_Ok_inv in Hc as [_ Hc].
  apply lookup_lt_Some in Ha, Hb, Hc.
  destruct (bls12_381.processLExp s (L r) a0 1 0 _) as [[[va loc1] t1]|] eqn:HL;
    cbn [lift obind]; [|done].
  destruct (bls12_381.processLExp s (R r) b0 2 loc1 t1) as [[[vb loc2] t2]|] eqn:HR;
    cbn [lift obind]; [|done].
  destruct (bls12_381.processLExp s (O r) c0 3 loc2 t2) as [[[vc loc3] t3]|] eqn:HO;
    cbn [lift obind]; [|done].
  apply processLExp_loc in HL, HR, HO.
  assert (∀ x y z w id, ∃ x' y' z',
    bls12_381.a (bls12_381.with_store (bls12_381.with_abc s cID x y z)
                   (<[Z.to_nat id := w]> (bls12_381.values s))
                   (<[Z.to_nat id := true]> (bls12_381.solved s))
                   (atomic_AddUint64 (bls12_381.nbSolved s) 1))
      !! Z.to_nat cID = Some x' ∧
    bls12_381.b (bls12_381.with_store (bls12_381.with_abc s cID x y z)
                   (<[Z.to_nat id := w]> (bls12_381.values s))
                   (<[Z.to_nat id := true]> (bls12_381.solved s))
                   (atomic_AddUint64 (bls12_381.nbSolved s) 1))
      !! Z.to_nat cID = Some y' ∧
    bls12_381.c (bls12_381.with_store (bls12_381.with_abc s cID x y z)
                   (<[Z.to_nat id := w]> (bls12_381.values s))
                   (<[Z.to_nat id := true]> (bls12_381.solved s))
                   (atomic_AddUint64 (bls12_381.nbSolved s) 1))
      !! Z.to_nat cID = Some z' ∧ x' = x ∧ y' = y ∧ z' = z) as Hfinal.
  { intros x y z w id. exists x, y, z. simpl.
    by rewrite !list_lookup_insert_eq by done. }
  case_decide as Hloc.
  - destruct (Zmod.eqb_spec (Zmod.mul va vb) vc) as [Heq|Hne]; cbn [negb].
    + intros [= <-]. exists va, vb, vc. simpl.
      by rewrite !list_lookup_insert_eq by done.
    + unfold bls12_381.unsatisfied.
      by destruct (bls12_381.wrapErrWithDebugInfo _ _ _).
  - destruct (bls12_381.solveLoc loc3 va vb vc)
      as [[[[va' vb'] vc'] wire]|] eqn:Hsolve.
    2: { unfold bls12_381.unsatisfied.
         by destruct (bls12_381.wrapErrWithDebugInfo _ _ _). }
    apply solveLoc_sound in Hsolve; [|done|lia].
    cbn zeta. rewrite divByCoeff_with_abc.
    destruct (bls12_381.divByCoeff s wire (CID t3)) as [w|]; cbn [lift obind];
      [|done].
    destruct (bls12_381.set _ (WireID t3) w) as [s1|] eqn:Hset; cbn [lift obind];
      [|done].
    intros [= <-]. apply bls_set_Ok_inv in Hset as (_ & _ & ->).
    destruct (Hfinal va' vb' vc' w (WireID t3))
      as (x' & y' & z' & Hx & Hy & Hz & -> & -> & ->).
    by exists va', vb', vc'.
Qed.

End ConstraintHolds.

Lemma prime_7 : Z.prime 7.
Proof.
  split; [lia|]. intros n Hn [k Hk].
  assert (n = 2 ∨ n = 3 ∨ n = 4 ∨ n = 5 ∨ n = 6)
    as [-> | [-> | [-> | [-> | ->]]]] by lia; lia.
Qed.

(** [solveR1C_constraint_holds] modulo 7, for [y * x = 2 * x] with [x = 3]
    and [y] unsolved: [y] is solved on the factor side. *)
Lemma solveR1C_constraint_holds_witness :
  ∃ s' x y z,
    bls12_381.solveR1C (tag := Sample.tagMaxUint32) (str := Sample.decimal _)
      (fmt := Sample.joinArgs) Sample.solver7 0
      (mkR1C [mkTerm 1 2] [mkTerm 1 1] [mkTerm 2 1]) = Ret s' () ∧
    bls12_381.values s' !! 2%nat = Some (Zmod.of_Z 7 2) ∧
    bls12_381.a s' !! 0%nat = Some x ∧
    bls12_381.b s' !! 0%nat = Some y ∧
    bls12_381.c s' !! 0%nat = Some z ∧
    Zmod.mul x y = z.
Proof.
  eexists. 
  destruct (solveR1C_constraint_holds (tag := Sample.tagMaxUint32)
              (str := Sample.decimal _) (fmt := Sample.joinArgs)
              Sample.solver7 _ 0 (mkR1C [mkTerm 1 2] [mkTerm 1 1] [mkTerm 2 1])
              prime_7 ltac:(vm_compute; reflexivity))
    as (x & y & z & Hx & Hy & Hz & Hmul).
  exists x, y, z. split_and!; [vm_compute; reflexivity|reflexivity|done..].
Defined.

(** ** The solved constraint, read again *)
Section Reevaluate.
Context {modulus : Z} {tag : ConstantTag} {str : ElementString modulus}
  {fmt : Formatter}.
Implicit Types (s : bls12_381.solver modulus) (l : LinearExpression)
  (t : Term) (r u v w x y z : Zmod modulus).

Add Ring zmod_ring' : (Zmod.ring_theory modulus).

(** [accumulateInto] adds to its accumulator an amount that does not depend
    on the accumulator. *)
Lemma accumulateInto_shift s t r r' :
  bls12_381.accumulateInto s t r = Ok r' →
  ∀ u, bls12_381.accumulateInto s t u = Ok (Zmod.add u (Zmod.sub r' r)).
Proof.
  unfold bls12_381.accumulateInto. intros Hacc u.
  destruct (IsConstant t).
  { destruct (index _ _) as [k|]; cbn [rbind] in *; [|done].
    injection Hacc as <-. f_equal. ring. }
  repeat case_decide;
    try (destruct (index (bls12_381.Coefficients _) _) as [k|];
         cbn [rbind] in *; [|done]);
    try (destruct (index (bls12_381.values s) _) as [v|];
         cbn [rbind] in *; [|done]);
    injection Hacc as <-; f_equal; ring.
Qed.

Lemma accumulated_shift s l :
  ∀ r r', accumulated s l r = Ok r' →
    ∀ u, accumulated s l u = Ok (Zmod.add u (Zmod.sub r' r)).
Proof.
  induction l as [|t l IH]; intros r r'; simpl.
  - intros [= <-] u. f_equal. ring.
  - destruct (bls12_381.accumulateInto s t r) as [r1|] eqn:Ht; cbn [rbind];
      [|done].
    intros Hrest u. rewrite (accumulateInto_shift s t r r1 Ht u). cbn [rbind].
    rewrite (IH r1 r' Hrest). f_equal. ring.
Qed.

Lemma accumulated_app s l1 l2 r :
  accumulated s (l1 ++ l2) r
  = let! r1 := accumulated s l1 r in accumulated s l2 r1.
Proof.
  revert r. induction l1 as [|t l1 IH]; intros r; simpl; [done|].
  destruct (bls12_381.accumulateInto s t r); cbn [rbind]; [apply IH|done].
Qed.

(** Setting the wire of [t] does not change what a term over another wire
    adds. *)
Lemma accumulateInto_frame s cID x y z t w t' r :
  wire_flag s false t → wire_flag s true t' →
  bls12_381.accumulateInto (solved_for s cID x y z t w) t' r
  = bls12_381.accumulateInto s t' r.
Proof.
  intros [Ht Hflag] [Ht' Hflag'].
  assert (WireID t' ≠ WireID t) as Hne.
  { intros E. rewrite E in Hflag'. congruence. }
  unfold bls12_381.accumulateInto.
  change (bls12_381.sys (solved_for s cID x y z t w)) with (bls12_381.sys s).
  change (bls12_381.values (solved_for s cID x y z t w))
    with (<[Z.to_nat (WireID t) := w]> (bls12_381.values s)).
  by rewrite (index_insert_ne _ _ _ _ Ht Hne).
Qed.

Lemma accumulated_frame s cID x y z t w l :
  wire_flag s false t → Forall (wire_flag s true) l →
  ∀ r, accumulated (solved_for s cID x y z t w) l r = accumulated s l r.
Proof.
  intros Ht Hl. induction Hl as [|t' l Ht' _ IH]; intros r; simpl; [done|].
  rewrite accumulateInto_frame by done.
  destruct (bls12_381.accumulateInto s t' r); cbn [rbind]; [apply IH|done].
Qed.

(** [divByCoeff] undoes the coefficient that [accumulateInto] applies. *)
Lemma accumulateInto_divByCoeff s cID x y z t raw :
  solvable_term s t → wire_flag s false t →
  WireID t < Z.of_nat (length (bls12_381.values s)) →
  ∃ w, bls12_381.divByCoeff s raw (CID t) = Ok w ∧
    ∀ r, bls12_381.accumulateInto (solved_for s cID x y z t w) t r
         = Ok (Zmod.add r raw).
Proof.
  intros [Hconst Hcoeff] [Ht Hflag] Hlen.
  assert (∀ w, index (bls12_381.values (solved_for s cID x y z t w)) (WireID t)
               = Ok w) as Hread.
  { intros w. apply index_insert_eq. lia. }
  unfold bls12_381.divByCoeff, bls12_381.accumulateInto, CoeffID.
  rewrite Hconst.
  destruct (decide (CID t = CoeffIdOne)) as [E1|N1].
  { exists raw. split; [done|]. intros r. rewrite E1.
    rewrite decide_False by done. by rewrite Hread. }
  destruct (decide (CID t = CoeffIdMinusOne)) as [E3|N3].
  { exists (Zmod.opp raw). split; [done|]. intros r. rewrite E3.
    rewrite !decide_False by done. rewrite Hread. cbn [rbind].
    f_equal. ring. }
  destruct Hcoeff as [?|[?|(Hprime & N0 & N2 & Hc & k & Hk & Hnz)]]; [done..|].
  exists (Zmod.mdiv raw k). split.
  { rewrite decide_False by done. by rewrite (index_lookup _ _ _ Hc Hk). }
  intros r.
  rewrite (decide_False (P := CID t = CoeffIdZero)) by done.
  rewrite (decide_False (P := CID t = CoeffIdTwo)) by done.
  change (bls12_381.sys (solved_for s cID x y z t (Zmod.mdiv raw k)))
    with (bls12_381.sys s).
  rewrite (index_lookup _ _ _ Hc Hk). cbn [rbind].
  rewrite Hread. cbn [rbind].
  f_equal. f_equal. rewrite Zmod.mul_comm. by apply mdiv_mul_cancel.
Qed.

(** The side that held the unknown term, accumulated again once the wire is
    set: the total of the known terms plus the raw value. *)
Lemma accumulated_resolved s cID x y z (le pre post : LinearExpression) t
    v0 v raw :
  single_unknown s le pre post t → solvable_term s t →
  accumulated s (pre ++ post) v0 = Ok v →
  ∃ w, bls12_381.divByCoeff s raw (CID t) = Ok w ∧
    accumulated (solved_for s cID x y z t w) le v0 = Ok (Zmod.add v raw).
Proof.
  intros (-> & Hknown & Hunknown & Hlen) Hsolvable Hacc.
  destruct (accumulateInto_divByCoeff s cID x y z t raw Hsolvable Hunknown Hlen)
    as (w & Hdiv & Hterm).
  exists w. split; [done|].
  apply Forall_app in Hknown as [Hpre Hpost].
  rewrite accumulated_app in Hacc.
  destruct (accumulated s pre v0) as [v1|] eqn:Hv1; cbn [rbind] in Hacc; [|done].
  rewrite accumulated_app, accumulated_frame, Hv1 by done. cbn [rbind].
  simpl. rewrite Hterm. cbn [rbind]. rewrite accumulated_frame by done.
  rewrite (accumulated_shift s post v1 v Hacc). f_equal. ring.
Qed.

(** With the single unknown term on side [O] and a coefficient that can be
    divided out, [solveR1C] returns nil and, in the solver it leaves, the
    three sides of the constraint accumulated again from the old
    accumulators give [a], [b] and [a * b]: the value set for the wire
    satisfies the constraint. *)
Theorem solve_output_satisfies s cID (rc : R1C) (a0 b0 c0 : Zmod modulus)
    (va vb vc : Zmod modulus) (pre post : LinearExpression) (t : Term) :
  accumulators s cID a0 b0 c0 →
  Forall (wire_flag s true) (L rc) →
  Forall (wire_flag s true) (R rc) →
  single_unknown s (O rc) pre post t →
  solvable_term s t →
  accumulated s (L rc) a0 = Ok va →
  accumulated s (R rc) b0 = Ok vb →
  accumulated s (pre ++ post) c0 = Ok vc →
  ∃ s', bls12_381.solveR1C s cID rc = Ret s' () ∧
    accumulated s' (L rc) a0 = Ok va ∧
    accumulated s' (R rc) b0 = Ok vb ∧
    accumulated s' (O rc) c0 = Ok (Zmod.mul va vb).
Proof.
  intros Hacc HL HR HO Hsolvable HaL HbR HcO.
  pose proof (solveR1C_output s cID rc a0 b0 c0 va vb vc pre post t
                Hacc HL HR HO HaL HbR HcO) as Hsolve.
  cbn zeta in Hsolve.
  destruct (accumulated_resolved s cID va vb
              (Zmod.add vc (Zmod.sub (Zmod.mul va vb) vc)) (O rc) pre post t
              c0 vc (Zmod.sub (Zmod.mul va vb) vc) HO Hsolvable HcO)
    as (w & Hdiv & Hagain).
  rewrite Hdiv in Hsolve. eexists. split; [exact Hsolve|].
  destruct HO as (_ & _ & Hunknown & _).
  split_and!; [by rewrite accumulated_frame..|].
  rewrite Hagain. f_equal. ring.
Qed.

(** With the single unknown term on side [L] and the total [b] of side [R]
    not zero (or on side [R] with [a] not zero), [solveR1C] takes
    [c / b - a] (resp. [c / a - b]) as the raw value, adds it to the
    accumulator of that side and sets the wire through [divByCoeff]; it
    returns no error. Over a prime field, with a coefficient that can be
    divided out, the three sides accumulated again in the solver it leaves
    give totals [a'], [b'] and [c] with [a' * b' = c]. *)
Theorem solve_factor_side s cID (rc : R1C) (a0 b0 c0 : Zmod modulus)
    (va vb vc : Zmod modulus) (pre post : LinearExpression) (t : Term)
    (loc : Z) :
  accumulators s cID a0 b0 c0 →
  unknown_factor s rc a0 b0 va vb pre post t loc →
  (loc = 1 ∧ vb ≠ Zmod.zero) ∨ (loc = 2 ∧ va ≠ Zmod.zero) →
  Forall (wire_flag s true) (O rc) →
  accumulated s (O rc) c0 = Ok vc →
  let raw := if decide (loc = 1) then Zmod.sub (Zmod.mdiv vc vb) va
             else Zmod.sub (Zmod.mdiv vc va) vb in
  let va' := if decide (loc = 1) then Zmod.add va raw else va in
  let vb' := if decide (loc = 1) then vb else Zmod.add vb raw in
  bls12_381.solveR1C s cID rc
  = match bls12_381.divByCoeff s raw (CID t) with
    | Ok w => Ret (solved_for s cID va' vb' vc t w) ()
    | Panic msg => Crash msg
    end ∧
  (Z.prime modulus → solvable_term s t →
   ∃ s', bls12_381.solveR1C s cID rc = Ret s' () ∧
     accumulated s' (L rc) a0 = Ok va' ∧
     accumulated s' (R rc) b0 = Ok vb' ∧
     accumulated s' (O rc) c0 = Ok vc ∧
     Zmod.mul va' vb' = vc).
Proof.
  intros Hacc Hside Hnz HO HcO raw va' vb'.
  pose proof (solveR1C_factor_side s cID rc a0 b0 c0 va vb vc pre post t loc
                Hacc Hside HO HcO) as Hsolve.
  assert (bls12_381.solveLoc loc va vb vc = Some (va', vb', vc, raw)) as Hloc.
  { unfold bls12_381.solveLoc, raw, va', vb'.
    destruct Hnz as [[-> Hb]|[-> Ha]].
    - rewrite !decide_True by done.
      by destruct (Zmod.eqb_spec vb Zmod.zero).
    - rewrite !(decide_False (P := 2 = 1)) by done.
      rewrite decide_True by done.
      by destruct (Zmod.eqb_spec va Zmod.zero). }
  rewrite Hloc in Hsolve. split; [exact Hsolve|].
  intros Hprime Hsolvable.
  assert (Zmod.mul va' vb' = vc) as Hmul.
  { apply (solveLoc_sound loc va vb vc va' vb' vc raw Hprime); [|done].
    destruct Hnz as [[-> _]|[-> _]]; tauto. }
  destruct Hside as [(-> & HL & HaL & HR & HbR)|(-> & HL & HaL & HR & HbR)].
  - destruct (accumulated_resolved s cID va' vb' vc (L rc) pre post t a0 va raw
                HL Hsolvable HaL) as (w & Hdiv & Hagain).
    rewrite Hdiv in Hsolve. eexists. split; [exact Hsolve|].
    destruct HL as (_ & _ & Hunknown & _).
    split_and!; [exact Hagain| |by rewrite accumulated_frame|done].
    rewrite accumulated_frame by done. exact HbR.
  - destruct (accumulated_resolved s cID va' vb' vc (R rc) pre post t b0 vb raw
                HR Hsolvable HbR) as (w & Hdiv & Hagain).
    rewrite Hdiv in Hsolve. eexists. split; [exact Hsolve|].
    destruct HR as (_ & _ & Hunknown & _).
    split_and!; [|exact Hagain|by rewrite accumulated_frame|done].
    rewrite accumulated_frame by done. exact HaL.
Qed.

Lemma processLExp_second s (pre post : LinearExpression) t :
  ∀ val val' (locValue loc : Z) (t0 : Term),
    loc ≠ 0 →
    Forall (wire_flag s true) pre →
    accumulated s pre val = Ok val' →
    wire_flag s false t →
    bls12_381.processLExp s (pre ++ t :: post) val locValue loc t0
    = Panic "found more than one wire to instantiate".
Proof.
  intros val val' locValue loc t0 Hloc Hpre. revert val.
  induction Hpre as [|t' pre [Hvid' Hs'] _ IH]; intros val Hacc [Hvid Hs].
  - simpl. rewrite (index_lookup _ _ _ Hvid Hs). cbn [rbind].
    by rewrite decide_True.
  - simpl in *. rewrite (index_lookup _ _ _ Hvid' Hs'). cbn [rbind].
    destruct (bls12_381.accumulateInto s t' val); cbn [rbind] in *; [|done].
    by apply IH.
Qed.

(** When a second unsolved wire turns up, in side [L] after the first one or
    in side [R] after side [L] held one, [solveR1C] panics: a constraint
    determines at most one wire. *)
Theorem second_unknown_panics s cID (rc : R1C) (a0 b0 c0 : Zmod modulus)
    (pre mid post : LinearExpression) (t t' : Term) v1 v2 :
  accumulators s cID a0 b0 c0 →
  Forall (wire_flag s true) pre →
  accumulated s pre a0 = Ok v1 →
  wire_flag s false t →
  Forall (wire_flag s true) mid →
  accumulated s mid v1 = Ok v2 →
  wire_flag s false t' →
  L rc = pre ++ t :: mid ++ t' :: post ∨
  (∃ pre' v3, L rc = pre ++ t :: mid ∧ R rc = pre' ++ t' :: post ∧
     Forall (wire_flag s true) pre' ∧ accumulated s pre' b0 = Ok v3) →
  bls12_381.solveR1C s cID rc = Crash "found more than one wire to instantiate".
Proof.
  intros (HcID & Ha & Hb & Hc) Hpre Hv1 Ht Hmid Hv2 Ht' Hwhere.
  unfold bls12_381.solveR1C.
  rewrite (index_lookup _ _ _ HcID Ha). cbn [lift obind].
  rewrite (index_lookup _ _ _ HcID Hb). cbn [lift obind].
  rewrite (index_lookup _ _ _ HcID Hc). cbn [lift obind].
  destruct Hwhere as [HL|(pre' & v3 & HL & HR & Hpre' & Hv3)]; rewrite HL.
  - assert (bls12_381.processLExp s (pre ++ t :: mid ++ t' :: post) a0 1 0
              (mkTerm 0 0) = Panic "found more than one wire to instantiate")
      as ->; [|done].
    clear HL Ha. revert a0 Hv1.
    induction Hpre as [|t1 pre [Hvid1 Hs1] _ IH]; intros a0 Hv1.
    + simpl in *. injection Hv1 as ->. destruct Ht as [Hvid Hs].
      rewrite (index_lookup _ _ _ Hvid Hs). cbn [rbind].
      by apply (processLExp_second s mid post t' v1 v2).
    + simpl in *. rewrite (index_lookup _ _ _ Hvid1 Hs1). cbn [rbind].
      destruct (bls12_381.accumulateInto s t1 a0) as [a1|]; cbn [rbind] in *;
        [|done].
      by apply (IH a1).
  - rewrite (processLExp_unknown s pre mid t a0 v2 1 (mkTerm 0 0)).
    + cbn [lift obind]. rewrite HR.
      by rewrite (processLExp_second s pre' post t' b0 v3 2 1 t).
    + by apply Forall_app.
    + done.
    + by rewrite accumulated_app, Hv1.
Qed.

End Reevaluate.

(** [solve_output_satisfies] on the sample solver: after [x * x = y] is
    solved for [y], side [O] accumulates to 9. *)
Lemma solve_output_satisfies_witness :
  let rc := mkR1C [mkTerm 1 1] [mkTerm 1 1] [mkTerm 1 2] in
  ∃ s', bls12_381.solveR1C (tag := Sample.tagMaxUint32)
          (str := Sample.decimal _) (fmt := Sample.joinArgs)
          Sample.solver381 0 rc = Ret s' () ∧
    accumulated (tag := Sample.tagMaxUint32) s' (O rc) Zmod.zero
    = Ok (Zmod.of_Z _ 9).
Proof.
  intros rc.
  destruct (solve_output_satisfies (tag := Sample.tagMaxUint32)
              (str := Sample.decimal _) (fmt := Sample.joinArgs)
              Sample.solver381 0 rc Zmod.zero Zmod.zero Zmod.zero
              (Zmod.of_Z _ 3) (Zmod.of_Z _ 3) Zmod.zero [] [] (mkTerm 1 2))
    as (s' & Hsolve & _ & _ & HO).
  - repeat split; reflexivity || (simpl; lia).
  - repeat constructor; simpl; lia.
  - repeat constructor; simpl; lia.
  - repeat split; (reflexivity || (simpl; lia) || constructor).
  - split; [reflexivity|by left].
  - reflexivity.
  - reflexivity.
  - reflexivity.
  - exists s'. split; [exact Hsolve|exact HO].
Defined.

(** [solve_factor_side] modulo 7: [y * x = 2 * x] with [x = 3] gives the raw
    value [6 / 3 - 0 = 2] for [y], and side [L] accumulates to 2 afterwards. *)
Lemma solve_factor_side_witness :
  let rc := mkR1C [mkTerm 1 2] [mkTerm 1 1] [mkTerm 2 1] in
  ∃ s', bls12_381.solveR1C (tag := Sample.tagMaxUint32)
          (str := Sample.decimal _) (fmt := Sample.joinArgs)
          Sample.solver7 0 rc = Ret s' () ∧
    accumulated (tag := Sample.tagMaxUint32) s' (L rc) Zmod.zero
    = Ok (Zmod.of_Z 7 2) ∧
    accumulated (tag := Sample.tagMaxUint32) s' (O rc) Zmod.zero
    = Ok (Zmod.of_Z 7 6).
Proof.
  intros rc.
  destruct (solve_factor_side (tag := Sample.tagMaxUint32)
              (str := Sample.decimal _) (fmt := Sample.joinArgs)
              Sample.solver7 0 rc Zmod.zero Zmod.zero Zmod.zero
              Zmod.zero (Zmod.of_Z 7 3) (Zmod.of_Z 7 6) [] [] (mkTerm 1 2) 1)
    as [_ Hsat].
  - repeat split; reflexivity || (simpl; lia).
  - left. repeat split; try reflexivity; try (simpl; lia);
      repeat constructor; simpl; lia.
  - left. split; [reflexivity|discriminate].
  - repeat constructor; simpl; lia.
  - reflexivity.
  - destruct (Hsat prime_7) as (s' & Hsolve & HL & _ & HO & _).
    + split; [reflexivity|by left].
    + exists s'. split; [exact Hsolve|]. split; [exact HL|exact HO].
Defined.

(** [second_unknown_panics] on the sample solver: [(y + z) * x = x] has the
    two unsolved wires [y] and [z] on side [L]. *)
Lemma second_unknown_panics_witness :
  bls12_381.solveR1C (tag := Sample.tagMaxUint32)
    (str := Sample.decimal _) (fmt := Sample.joinArgs)
    Sample.solver381 0 (mkR1C [mkTerm 1 2; mkTerm 1 3] [mkTerm 1 1] [mkTerm 1 1])
  = Crash "found more than one wire to instantiate".
Proof.
  apply (second_unknown_panics (tag := Sample.tagMaxUint32)
           (str := Sample.decimal _) (fmt := Sample.joinArgs)
           Sample.solver381 0 _ Zmod.zero Zmod.zero Zmod.zero
           [] [] [] (mkTerm 1 2) (mkTerm 1 3) Zmod.zero Zmod.zero).
  - repeat split; reflexivity || (simpl; lia).
  - constructor.
  - reflexivity.
  - split; [simpl; lia|reflexivity].
  - constructor.
  - reflexivity.
  - split; [simpl; lia|reflexivity].
  - by left.
Defined.

(** ** The worker pool of [run] *)
Section Dispatch.
Context {modulus : Z}.
Implicit Types (s : bls12_381.solver modulus) (level : list Z).

Lemma maxCPU_at_most_one level :
  Qle_bool (bls12_381.maxCPU level) 1 = true ↔ (length level ≤ 50)%nat.
Proof.
  rewrite Qle_bool_iff.
  unfold bls12_381.maxCPU, bls12_381.minWorkPerCPU, Qle, Qdiv. simpl. lia.
Qed.

Lemma maxCPU_ceiling_le level :
  Qceiling (bls12_381.maxCPU level) ≤ Z.of_nat (length level).
Proof.
  transitivity (Qceiling (inject_Z (Z.of_nat (length level))));
    [|by rewrite Qceiling_Z].
  apply Qceiling_resp_le.
  unfold bls12_381.maxCPU, bls12_381.minWorkPerCPU, Qle, Qdiv. simpl. lia.
Qed.

(** [run] executes a level in the calling goroutine exactly when the level
    has at most [minWorkPerCPU] instructions or the pool has one worker; no
    task is pushed then. *)
Theorem dispatch_sequential s level :
  bls12_381.dispatch s level = Ok None
  ↔ (length level ≤ 50)%nat ∨ bls12_381.nbTasks s = 1.
Proof.
  unfold bls12_381.dispatch. split.
  - destruct (Qle_bool (bls12_381.maxCPU level) 1) eqn:Hcpu.
    + intros _. left. by apply maxCPU_at_most_one.
    + destruct (Z.eqb_spec (bls12_381.nbTasks s) 1); [by right|]. simpl.
      by destruct (bls12_381.levelTasks s level).
  - intros [Hlen| ->].
    + apply maxCPU_at_most_one in Hlen. by rewrite Hlen.
    + by rewrite orb_true_r.
Qed.

(** For a level that is not run sequentially, [run] pushes
    [min(nbTasks, ceil(len(level) / minWorkPerCPU))] tasks, none of them
    empty: never more than the capacity [nbTasks] of [chTasks], so that the
    push does not block. *)
Theorem push_never_blocks s level :
  1 ≤ bls12_381.nbTasks s →
  bls12_381.nbTasks s ≠ 1 →
  (50 < length level)%nat →
  ∃ tasks : list (list Z),
    bls12_381.dispatch s level = Ok (Some tasks) ∧
    Z.of_nat (length tasks)
    = Z.min (bls12_381.nbTasks s) (Qceiling (bls12_381.maxCPU level)) ∧
    Z.of_nat (length tasks) ≤ bls12_381.nbTasks s ∧
    Forall (λ task, task ≠ []) tasks.
Proof.
  intros Hworkers Hpool Hlen.
  assert (Qle_bool (bls12_381.maxCPU level) 1 = false) as Hpar.
  { destruct (Qle_bool (bls12_381.maxCPU level) 1) eqn:E; [|done].
    apply maxCPU_at_most_one in E. lia. }
  destruct (maxCPU_above_one level Hpar) as [_ Hmax].
  pose proof (maxCPU_ceiling_le level) as Hceil.
  unfold bls12_381.dispatch. rewrite Hpar.
  destruct (Z.eqb_spec (bls12_381.nbTasks s) 1) as [|_]; [done|]. simpl.
  unfold bls12_381.levelTasks.
  set (len := Z.of_nat (length level)) in *.
  set (nb := if decide (bls12_381.nbTasks s > Qceiling (bls12_381.maxCPU level))
             then Qceiling (bls12_381.maxCPU level) else bls12_381.nbTasks s).
  assert (nb = Z.min (bls12_381.nbTasks s) (Qceiling (bls12_381.maxCPU level)))
    as Hnb by (subst nb; case_decide; lia).
  rewrite decide_False by lia.
  rewrite Z.quot_div_nonneg by lia.
  assert (1 ≤ len `div` nb) as Hper.
  { apply Z.div_le_lower_bound; lia. }
  rewrite decide_False by lia.
  pose proof (Z.mod_pos_bound len nb ltac:(lia)) as Hmod.
  rewrite Z.mod_eq in Hmod by lia.
  destruct (pushTasks_partition level (Z.to_nat nb) 0 (len `div` nb)
              (len - nb * (len `div` nb)) 0)
    as (tasks & -> & _ & Hsizes); [lia..|].
  assert (length tasks = Z.to_nat nb) as Hcount.
  { rewrite <- (length_fmap length tasks), Hsizes.
    rewrite length_app, !length_replicate. lia. }
  exists tasks. cbn [rbind]. split_and!; [done|lia|lia|].
  apply Forall_forall. intros task Hin ->.
  assert (0%nat ∈ length <$> tasks) as Hzero.
  { change 0%nat with (length (@nil Z)). by apply list_elem_of_fmap_2. }
  rewrite Hsizes in Hzero.
  apply elem_of_app in Hzero as [Hzero|Hzero];
    apply elem_of_replicate in Hzero as [Hzero _]; lia.
Qed.

End Dispatch.

(** [push_never_blocks] for the sample solver (4 workers) on a level of 103
    instructions: three tasks. *)
Lemma push_never_blocks_witness :
  ∃ tasks : list (list Z),
    bls12_381.dispatch Sample.solver381 (seqZ 0 103) = Ok (Some tasks) ∧
    Z.of_nat (length tasks) = 3 ∧
    Z.of_nat (length tasks) ≤ 4 ∧
    Forall (λ task, task ≠ []) tasks.
Proof.
  apply (push_never_blocks Sample.solver381 (seqZ 0 103));
    [simpl; lia|simpl; lia|vm_compute; lia].
Defined.

(** ** A hint that feeds on its own output *)
Section SelfCycle.
Context {modulus : Z} {tag : ConstantTag}.

(** When the first term of the first input of hint [h] refers to the
    unsolved wire [vID] that [h] itself is registered for, the recursion of
    [solveWithHint] through [recursiveSolve] arrives at the same call again:
    it returns at no depth. *)
Theorem solveWithHint_self_cycle (u : bn254.solution modulus) (vID : Z)
    (h : Hint) (f : HintFunction) (t : Term) (le : LinearExpression)
    (rest : list LinearExpression) :
  0 ≤ vID →
  bn254.solved u !! Z.to_nat vID = Some false →
  bn254.mHintsFunctions u !! ID h = Some f →
  bn254.mHints u !! vID = Some h →
  Hint_Inputs h = (t :: le) :: rest →
  IsConstant t = false →
  WireID t = vID →
  ∀ fuel, bn254.solveWithHint fuel u vID h = Timeout.
Proof.
  intros HvID Hflag Hf Hh Hin Hconst Hwire fuel.
  induction fuel as [|fuel IH]; [done|].
  simpl. unfold bn254.solveWithHint_body.
  rewrite (index_lookup _ _ _ HvID Hflag). cbn [lift obind].
  rewrite Hf, Hin. cbn [bn254.evalInputs bn254.evalInput].
  unfold bn254.recursiveSolve. rewrite Hconst, Hwire.
  rewrite (index_lookup _ _ _ HvID Hflag). cbn [lift obind].
  by rewrite Hh, IH.
Qed.

End SelfCycle.

(** [solveWithHint_self_cycle] on a sample solution whose hint for [y]
    reads [y]: no result at depth 1000. *)
Lemma solveWithHint_self_cycle_witness :
  bn254.solveWithHint (tag := Sample.tagMaxUint32) 1000 Sample.solution254_cycle 2
    (mkHint 10 [[mkTerm 1 2]] [2]) = Timeout.
Proof.
  apply (solveWithHint_self_cycle (tag := Sample.tagMaxUint32)
           Sample.solution254_cycle 2 (mkHint 10 [[mkTerm 1 2]] [2])
           Sample.double (mkTerm 1 2) [] []);
    (reflexivity || (simpl; lia)).
Defined.

(** [logValue_panics_only_out_of_range] on the sample stores: an entry over
    wire 9, which neither store has. *)
Lemma logValue_panics_only_out_of_range_witness :
  let log := mkLogEntry "main.go" "value: " [[mkTerm 1 9]] [] in
  ∃ msg msg',
    bls12_381.logValue (tag := Sample.tagMaxUint32) (str := Sample.decimal _)
      (fmt := Sample.joinArgs) Sample.solver381 log = Panic msg ∧
    bn254.logValue (tag := Sample.tagMaxUint32) (str := Sample.decimal _)
      (fmt := Sample.joinArgs) Sample.solution254 log = Panic msg' ∧
    msg = index_out_of_range ∧ msg' = index_out_of_range.
Proof.
  intros log. eexists _, _. split; [reflexivity|]. split; [reflexivity|].
  split.
  - apply (proj1 (logValue_panics_only_out_of_range (tag := Sample.tagMaxUint32)
                    (str := Sample.decimal _) (str' := Sample.decimal _)
                    (fmt := Sample.joinArgs) Sample.solver381 Sample.solution254
                    log _)).
    reflexivity.
  - apply (proj2 (logValue_panics_only_out_of_range (tag := Sample.tagMaxUint32)
                    (str := Sample.decimal _) (str' := Sample.decimal _)
                    (fmt := Sample.joinArgs) Sample.solver381 Sample.solution254
                    log _)).
    reflexivity.
Defined.

(** [dispatch_sequential] on the sample solver: a level of two instructions
    is run in the calling goroutine. *)
Lemma dispatch_sequential_witness :
  bls12_381.dispatch Sample.solver381 [0; 1] = Ok None.
Proof.
  apply (dispatch_sequential Sample.solver381 [0; 1]). left. simpl. lia.
Defined.

(** ** [run] without the worker pool *)
Section RunSequential.
Context {modulus : Z} {tag : ConstantTag} {str : ElementString modulus}
  {fmt : Formatter}.
Implicit Types (hd : bls12_381.System modulus) (s : bls12_381.solver modulus).

Lemma runLevel_app hd (l1 l2 : list Z) :
  ∀ s, bls12_381.runLevel hd s (l1 ++ l2)
       = run! (s1, _) := bls12_381.runLevel hd s l1 in
         bls12_381.runLevel hd s1 l2.
Proof.
  induction l1 as [|i l1 IH]; intros s; simpl; [done|].
  destruct (index (bls12_381.Instructions hd) i) as [pi|]; cbn [lift obind];
    [|done].
  destruct (bls12_381.processInstruction hd s pi) as [s1 []|s1 e|msg|];
    cbn [obind]; [apply IH|done..].
Qed.

Lemma runLevels_flat hd (levels : list (list Z)) :
  Forall (λ level, (length level ≤ 50)%nat) levels →
  ∀ s, bls12_381.runLevels hd s levels
       = Some (run! (s1, _) := bls12_381.runLevel hd s (concat levels) in
               bls12_381.checkAllSolved s1).
Proof.
  induction 1 as [|level levels Hsmall _ IH]; intros s; simpl; [done|].
  rewrite (proj2 (dispatch_sequential s level) (or_introl Hsmall)).
  rewrite runLevel_app.
  destruct (bls12_381.runLevel hd s level) as [s1 []|s1 e|msg|]; cbn [obind];
    [apply IH|done..].
Qed.

(** When no level has more than [minWorkPerCPU] instructions, [run] is the
    execution of the instructions of all levels in order, one after the
    other, followed by the check that every wire was assigned: the cut into
    levels does not change the result. *)
Theorem run_sequential hd s :
  0 ≤ bls12_381.nbTasks s →
  Forall (λ level, (length level ≤ 50)%nat) (bls12_381.Levels (bls12_381.sys s)) →
  bls12_381.run hd s
  = Some (run! (s1, _) :=
            bls12_381.runLevel hd s (concat (bls12_381.Levels (bls12_381.sys s))) in
          bls12_381.checkAllSolved s1).
Proof.
  intros Hworkers Hsmall. unfold bls12_381.run.
  rewrite decide_False by lia. by apply runLevels_flat.
Qed.

(** In such a run the first instruction that returns an error ends the run
    with that error and the solver as the instruction left it: the
    instructions after it are not executed and the final check is not
    made. *)
Theorem run_first_error hd s (l1 l2 : list Z) (i : Z) (pi : PackedInstruction)
    (s1 s2 : bls12_381.solver modulus) (e : error) :
  0 ≤ bls12_381.nbTasks s →
  Forall (λ level, (length level ≤ 50)%nat) (bls12_381.Levels (bls12_381.sys s)) →
  concat (bls12_381.Levels (bls12_381.sys s)) = l1 ++ i :: l2 →
  bls12_381.runLevel hd s l1 = Ret s1 () →
  index (bls12_381.Instructions hd) i = Ok pi →
  bls12_381.processInstruction hd s1 pi = Err s2 e →
  bls12_381.run hd s = Some (Err s2 e).
Proof.
  intros Hworkers Hsmall Hflat Hl1 Hpi Herr.
  rewrite (run_sequential hd s Hworkers Hsmall), Hflat, runLevel_app, Hl1.
  cbn [obind]. simpl. rewrite Hpi. cbn [lift obind]. by rewrite Herr.
Qed.

End RunSequential.

(** [run_sequential] on the sample system of two levels. *)
Lemma run_sequential_witness :
  bls12_381.run (tag := Sample.tagMaxUint32) (str := Sample.decimal _)
    (fmt := Sample.joinArgs) Sample.header381 Sample.solver381_run
  = Some (run! (s1, _) :=
            bls12_381.runLevel (tag := Sample.tagMaxUint32)
              (str := Sample.decimal _) (fmt := Sample.joinArgs)
              Sample.header381 Sample.solver381_run [0; 1] in
          bls12_381.checkAllSolved s1).
Proof.
  apply (run_sequential (tag := Sample.tagMaxUint32) (str := Sample.decimal _)
           (fmt := Sample.joinArgs) Sample.header381 Sample.solver381_run).
  - simpl. lia.
  - repeat (apply Forall_cons_2; [simpl; lia|]). apply Forall_nil_2.
Defined.

(** [run_first_error] on the sample system when [y] already holds 5: the
    constraint [x * x = y] fails and the hint for [z] is not run. *)
Lemma run_first_error_witness :
  ∃ s2 e,
    bls12_381.run (tag := Sample.tagMaxUint32) (str := Sample.decimal _)
      (fmt := Sample.joinArgs) Sample.header381 Sample.solver381_bad
    = Some (Err s2 e) ∧
    bls12_381.Error e = "constraint #0 is not satisfied: 3 ⋅ 3 != 5" ∧
    bls12_381.solved s2 = [true; true; true; false].
Proof.
  eexists _, _. split.
  - apply (run_first_error (tag := Sample.tagMaxUint32) (str := Sample.decimal _)
             (fmt := Sample.joinArgs) Sample.header381 Sample.solver381_bad
             [] [1] 0 (mkPackedInstruction 0 (mkInstruction 0 0 []))
             Sample.solver381_bad).
    + simpl. lia.
    + repeat (apply Forall_cons_2; [simpl; lia|]). apply Forall_nil_2.
    + reflexivity.
    + reflexivity.
    + reflexivity.
    + vm_compute. reflexivity.
  - split; [vm_compute; reflexivity|reflexivity].
Defined.
